(** * Login anomaly detection: feature extraction and flagging

    A shallow embedding of [session.py] (functions [add_features] and
    [detect_anomalies]) together with the small part of pandas, numpy and
    scikit-learn that the two functions call.

    Data frames are Python objects: they live in a heap and are reached
    through references, so that [df.copy()], in-place column assignment
    [out["c"] = ...] and the rebinding [out = out.merge(...)] keep the
    meaning they have in the source.  Exceptions are results of the
    computation, next to the final heap. *)

From Stdlib Require Import ZArith QArith Qround String List Lia.
From Stdlib Require Import Sorting.Sorted Sorting.Permutation.
From Stdlib Require Lqa Lra Reals.
From stdpp Require Import base option list gmap strings.
From stdpp Require Import pretty.

Local Open Scope string_scope.
Local Open Scope Z_scope.

(** ** Cells, series and frames *)

(** A cell of a pandas column.  Floats are the rationals they denote
    (every finite float64 is one); arithmetic on them is exact here. *)
Inductive value :=
| VTime (ns : Z)      (* Timestamp, nanoseconds since the epoch *)
| VInt (n : Z)
| VFloat (q : Q)
| VStr (s : string)
| NaN.                (* missing value: NaN, NaT or None *)

#[global] Instance Q_eq_dec : EqDecision Q.
Proof. solve_decision. Defined.

#[global] Instance value_eq_dec : EqDecision value.
Proof. solve_decision. Defined.

Definition value_encode (v : value) : Z + Z + (Z * positive) + string + unit :=
  match v with
  | VTime ns => inl (inl (inl (inl ns)))
  | VInt n => inl (inl (inl (inr n)))
  | VFloat q => inl (inl (inr (Qnum q, Qden q)))
  | VStr s => inl (inr s)
  | NaN => inr tt
  end.

Definition value_decode (x : Z + Z + (Z * positive) + string + unit) : value :=
  match x with
  | inl (inl (inl (inl ns))) => VTime ns
  | inl (inl (inl (inr n))) => VInt n
  | inl (inl (inr (a, b))) => VFloat (Qmake a b)
  | inl (inr s) => VStr s
  | inr _ => NaN
  end.

#[global] Instance value_countable : Countable value.
Proof.
  apply (inj_countable' value_encode value_decode).
  intros [ns|n|[a b]|s|]; reflexivity.
Defined.

Abbreviation Series := (list value) (only parsing).

(** A group key of a two-column [groupby], and the table of the groups:
    one row per group, the key and the aggregated cells. *)
Abbreviation key := (value * value)%type (only parsing).
Abbreviation Table := (list (key * list value)) (only parsing).

(** A frame: its number of rows (the length of the index) and its columns
    in order.  Rows are addressed by position; the index labels play no
    part in the two functions, which assign whole columns. *)
Record DataFrame := mkDataFrame {
  nrows : nat;
  columns : list (string * Series);
}.

(** Frames are objects: variables hold references into the heap. *)
Abbreviation loc := nat (only parsing).

(** ** Exceptions and results *)

Inductive exn :=
| KeyError | ValueError | TypeError | AttributeError | UnboundRef.

Inductive result (A : Type) :=
| Ok (a : A)
| Raise (e : exn).
Arguments Ok {A} a.
Arguments Raise {A} e.

#[global] Instance result_ret : MRet result := fun A a => Ok a.
#[global] Instance result_bind : MBind result := fun A B f m =>
  match m with Ok a => f a | Raise e => Raise e end.
#[global] Instance result_fmap : FMap result := fun A B f m =>
  match m with Ok a => Ok (f a) | Raise e => Raise e end.

(** [mapR f l]: apply a fallible function to every cell, first error wins. *)
Fixpoint mapR {A B} (f : A → result B) (l : list A) : result (list B) :=
  match l with
  | [] => Ok []
  | x :: l' =>
      match f x with
      | Ok y => match mapR f l' with Ok ys => Ok (y :: ys) | Raise e => Raise e end
      | Raise e => Raise e
      end
  end.

(** ** pandas: column access *)

Module pd.

Fixpoint lookup_col (c : string) (cols : list (string * Series)) : option Series :=
  match cols with
  | [] => None
  | (c', s) :: cols' => if String.eqb c c' then Some s else lookup_col c cols'
  end.

Fixpoint replace_col (c : string) (s : Series) (cols : list (string * Series))
  : list (string * Series) :=
  match cols with
  | [] => [(c, s)]
  | (c', s') :: cols' =>
      if String.eqb c c' then (c, s) :: cols' else (c', s') :: replace_col c s cols'
  end.

(** [df[c]] *)
Definition getitem (df : DataFrame) (c : string) : result Series :=
  match lookup_col c (columns df) with
  | Some s => Ok s
  | None => Raise KeyError
  end.

(** [df[c] = s] on the frame value: the column is replaced where it is,
    or appended; an array of the wrong length is refused. *)
Definition setitem (df : DataFrame) (c : string) (s : Series) : result DataFrame :=
  if Nat.eqb (length s) (nrows df)
  then Ok (mkDataFrame (nrows df) (replace_col c s (columns df)))
  else Raise ValueError.

(** The cell of column [c] at row [i]. *)
Definition cell (df : DataFrame) (c : string) (i : nat) : option value :=
  match lookup_col c (columns df) with
  | Some s => s !! i
  | None => None
  end.

(** *** Datetime accessors *)

Definition ns_per_sec : Z := 10 ^ 9.
Definition ns_per_min : Z := 60 * ns_per_sec.
Definition ns_per_hour : Z := 3600 * ns_per_sec.

Definition floor_min (ns : Z) : Z := ns / ns_per_min * ns_per_min.
Definition hour_of (ns : Z) : Z := (ns / ns_per_hour) mod 24.
Definition sec_of (ns : Z) : Z := ns / ns_per_sec.

(** [s.dt] exists only on datetime columns. *)
Definition dt (f : Z → value) (s : Series) : result Series :=
  mapR (λ v, match v with
             | VTime ns => Ok (f ns)
             | NaN => Ok NaN
             | _ => Raise AttributeError
             end) s.

(** [s.dt.floor("min")] and [s.dt.hour] *)
Definition dt_floor_min : Series → result Series := dt (λ ns, VTime (floor_min ns)).
Definition dt_hour : Series → result Series := dt (λ ns, VInt (hour_of ns)).

(** [s.view("int64") // 10**9]: NaT is stored as the least int64. *)
Definition view_int64_floordiv (d : Z) (s : Series) : result Series :=
  mapR (λ v, match v with
             | VTime ns => Ok (VInt (ns / d))
             | NaN => Ok (VInt ((- 2 ^ 63) / d))
             | _ => Raise TypeError
             end) s.

(** *** Numbers *)

Definition to_num (v : value) : result (option Q) :=
  match v with
  | VInt n => Ok (Some (inject_Z n))
  | VFloat q => Ok (Some q)
  | NaN => Ok None
  | _ => Raise TypeError
  end.

Definition Qlt_bool (x y : Q) : bool := negb (Qle_bool y x).

(** [(s OP k)] for a scalar [k]: comparisons with NaN are False. *)
Definition compare (op : Q → Q → bool) (s : Series) (k : Q) : result (list bool) :=
  mapR (λ v, o ← to_num v; Ok (from_option (λ q, op q k) false o)) s.

(** [b.astype(int)] *)
Definition astype_int (b : list bool) : Series :=
  (λ x : bool, VInt (if x then 1 else 0)) <$> b.

(** [s.fillna(0)] *)
Definition fillna0 (s : Series) : Series :=
  (λ v, match v with NaN => VInt 0 | _ => v end) <$> s.

(** *** groupby on two key columns *)

Definition keys2 (df : DataFrame) (a b : string) : result (list key) :=
  ka ← getitem df a; kb ← getitem df b; Ok (zip ka kb).

Definition no_nan (k : key) : bool :=
  negb (bool_decide (k.1 = NaN)) && negb (bool_decide (k.2 = NaN)).

(** The cells of [xs] on the rows whose key is [k]. *)
Definition group {A} (ks : list key) (xs : list A) (k : key) : list A :=
  snd <$> filter (λ p, p.1 = k) (zip ks xs).

(** The group keys.  pandas drops keys with a missing part and sorts the
    rest; the order of the groups is not observable through the left join
    below, so they are kept in order of first appearance. *)
Definition group_keys (ks : list key) : list key :=
  remove_dups (filter (λ k, no_nan k = true) ks).

(** Aggregations: ["size"], [mean] (missing cells skipped), ["nunique"]. *)
Definition size {A} (s : list A) : value := VInt (Z.of_nat (length s)).

Definition Qsum (l : list Q) : Q := foldr Qplus 0%Q l.

Definition mean (s : Series) : result value :=
  os ← mapR to_num s;
  let qs := omap id os in
  Ok (match qs with
      | [] => NaN
      | _ => VFloat (Qsum qs / inject_Z (Z.of_nat (length qs)))
      end).

Definition nunique (s : Series) : value :=
  VInt (Z.of_nat (length (remove_dups (filter (λ v, v ≠ NaN) s)))).

Definition groupby_agg (ks : list key) (aggs : list (key → result value))
  : result Table :=
  mapR (λ k, vs ← mapR (λ f, f k) aggs; Ok (k, vs)) (group_keys ks).

(** *** Left joins against a table of groups *)

Fixpoint lookup_key (k : key) (t : Table) : option (list value) :=
  match t with
  | [] => None
  | (k', vs) :: t' => if decide (k = k') then Some vs else lookup_key k t'
  end.

(** The [j]-th aggregated cell for every row key; NaN where no group matches. *)
Definition joined (ks : list key) (t : Table) (j : nat) : Series :=
  (λ k, match lookup_key k t with
        | Some vs => default NaN (vs !! j)
        | None => NaN
        end) <$> ks.

Definition joined_cols (ks : list key) (t : Table) (names : list string)
  : list (string * Series) :=
  imap (λ j c, (c, joined ks t j)) names.

Definition has_col (df : DataFrame) (c : string) : bool :=
  bool_decide (c ∈ (fst <$> columns df)).

(** [df.merge(t, on=[a, b], how="left")]: the group keys are unique, so
    every left row yields one row, in left order; a column name on both
    sides gets the suffixes [_x] and [_y]. *)
Definition merge_left (df : DataFrame) (a b : string) (t : Table)
    (names : list string) : result DataFrame :=
  ks ← keys2 df a b;
  let left := (λ cs : string * Series,
                 (if bool_decide (cs.1 ∈ names) then cs.1 +:+ "_x" else cs.1, cs.2))
              <$> columns df in
  let right := (λ cs : string * Series,
                  (if has_col df cs.1 then cs.1 +:+ "_y" else cs.1, cs.2))
               <$> joined_cols ks t names in
  Ok (mkDataFrame (nrows df) (left ++ right)).

(** [df.join(t.rename(c), on=[a, b])]: as above, but a clash of names is
    an error. *)
Definition join (df : DataFrame) (a b : string) (t : Table) (c : string)
  : result DataFrame :=
  ks ← keys2 df a b;
  if has_col df c then Raise ValueError
  else Ok (mkDataFrame (nrows df) (columns df ++ joined_cols ks t [c])).

(** [df[cols].values]: the rows of the selected columns. *)
Fixpoint transpose (n : nat) (cols : list Series) : list (list value) :=
  match n with
  | O => []
  | S n' => ((λ s, default NaN (head s)) <$> cols) :: transpose n' (tail <$> cols)
  end.

Definition values (df : DataFrame) (cols : list string) : result (list (list value)) :=
  ss ← mapR (getitem df) cols;
  Ok (transpose (nrows df) ss).

End pd.

(** ** numpy: quantiles *)

Module np.

Fixpoint insert_sorted (x : Q) (l : list Q) : list Q :=
  match l with
  | [] => [x]
  | y :: l' => if Qle_bool x y then x :: l else y :: insert_sorted x l'
  end.

Definition sort (l : list Q) : list Q := foldr insert_sorted [] l.

(** [np.quantile(a, q)] with the default method ["linear"]: on the sorted
    array, the virtual index [(n - 1) * q] is split into its floor and its
    fractional part [g], and the result interpolates between the element
    at the floor and the next one (clipped to the last).  An out-of-range
    [q] is a ValueError; an empty array gives nan. *)
Definition quantile (a : list Q) (q : Q) : result value :=
  if negb (Qle_bool 0 q && Qle_bool q 1) then Raise ValueError
  else
    match a with
    | [] => Ok NaN
    | _ =>
        let s := sort a in
        let n := Z.of_nat (length a) in
        let h := (inject_Z (n - 1) * q)%Q in
        let lo := Qfloor h in
        let hi := Z.min (lo + 1) (n - 1) in
        let g := (h - inject_Z lo)%Q in
        let a_lo := nth (Z.to_nat lo) s 0%Q in
        let a_hi := nth (Z.to_nat hi) s 0%Q in
        Ok (VFloat (a_lo + (a_hi - a_lo) * g)%Q)
    end.

(** [(a >= thr)] on an array: comparisons with nan are False. *)
Definition ge_scalar (a : list Q) (thr : value) : list bool :=
  (λ x, match thr with
        | VFloat t => Qle_bool t x
        | VInt t => Qle_bool (inject_Z t) x
        | _ => false
        end) <$> a.

End np.

(** ** The libraries behind the two functions

    What is taken from the numeric libraries without being computed here:
    numpy's float64 sine and cosine, and scikit-learn's isolation forest
    (how trees are grown from a generator, how a fitted forest scores). *)
Class Lib := {
  (** [np.sin(2 * np.pi * x / 24)] and [np.cos(2 * np.pi * x / 24)] *)
  sin_2pi_x_div_24 : Q → Q;
  cos_2pi_x_div_24 : Q → Q;
  (** numpy generator states; [seeded s] is [np.random.RandomState(s)] *)
  RandomState : Type;
  seeded : Z → RandomState;
  (** a fitted forest; [grow g n X] draws from [g] to build [n] trees on [X] *)
  Forest : Type;
  grow : RandomState → nat → list (list Q) → Forest * RandomState;
  (** [iso.score_samples(X)]: one score per row of [X] *)
  score_samples : Forest → list (list Q) → list Q;
  score_samples_length : ∀ f X, length (score_samples f X) = length X;
}.

Section Program.
Context `{Lib}.

(** ** Program state and the monad of statements *)

(** The heap of frames and numpy's global generator. *)
Record state := mkState {
  heap : list DataFrame;
  np_random : RandomState;
}.

Definition M (A : Type) : Type := state → result A * state.

#[global] Instance M_ret : MRet M := λ A a σ, (Ok a, σ).
#[global] Instance M_bind : MBind M := λ A B f m σ,
  match m σ with
  | (Ok a, σ') => f a σ'
  | (Raise e, σ') => (Raise e, σ')
  end.

Definition lift {A} (r : result A) : M A := λ σ, (r, σ).

Definition load (l : loc) : M DataFrame := λ σ,
  match heap σ !! l with
  | Some F => (Ok F, σ)
  | None => (Raise UnboundRef, σ)
  end.

Definition store (l : loc) (F : DataFrame) : M unit := λ σ,
  (Ok (), mkState (<[l := F]> (heap σ)) (np_random σ)).

Definition alloc (F : DataFrame) : M loc := λ σ,
  (Ok (length (heap σ)), mkState (heap σ ++ [F]) (np_random σ)).

(** [df.copy()]: a new object with the same contents. *)
Definition copy (df : loc) : M loc := F ← load df; alloc F.

(** [x = f(obj)]: read the object, nothing is written. *)
Definition read {A} (l : loc) (f : DataFrame → result A) : M A :=
  F ← load l; lift (f F).

(** [obj[c] = f(obj)]: the object at [l] is updated in place. *)
Definition assign (l : loc) (c : string) (f : DataFrame → result Series) : M unit :=
  F ← load l; s ← lift (f F); F' ← lift (pd.setitem F c s); store l F'.

(** [obj[cs] = f(obj[cs])], column by column, the right-hand side first. *)
Definition assign_cols (l : loc) (cs : list string) (f : Series → Series) : M unit :=
  F ← load l;
  ss ← lift (mapR (pd.getitem F) cs);
  F' ← lift (foldl (λ acc cs, F' ← acc; pd.setitem F' cs.1 (f cs.2)) (Ok F) (zip cs ss));
  store l F'.

(** [new = obj.method(...)]: the method returns a new frame. *)
Definition derive (l : loc) (f : DataFrame → result DataFrame) : M loc :=
  F ← load l; F' ← lift (f F); alloc F'.

(** ** scikit-learn: the estimator's entry points *)

(** [check_array]: the rows as floats; no missing cell, no text, at least
    one row and one column. *)
Definition to_float (v : value) : result Q :=
  match v with
  | VInt n => Ok (inject_Z n)
  | VFloat q => Ok q
  | VTime _ => Raise TypeError
  | _ => Raise ValueError
  end.

Definition check_array (X : list (list value)) : result (list (list Q)) :=
  Xq ← mapR (mapR to_float) X;
  match Xq with
  | [] => Raise ValueError
  | [] :: _ => Raise ValueError
  | _ => Ok Xq
  end.

(** The estimator's constraint on [contamination]: a float in (0, 0.5]. *)
Definition check_contamination (c : Q) : result unit :=
  if pd.Qlt_bool 0 c && Qle_bool c (1 # 2) then Ok () else Raise ValueError.

(** [IsolationForest(n_estimators=n, contamination=c, random_state=r).fit(X)]:
    parameters and data are validated, then the trees are grown from the
    generator that [random_state] selects: a fresh one seeded by an
    integer, or numpy's global one when there is no seed. *)
Definition IsolationForest_fit (n : nat) (c : Q) (random_state : option Z)
    (X : list (list value)) : M Forest :=
  _ ← lift (check_contamination c);
  Xq ← lift (check_array X);
  match random_state with
  | Some s => mret (grow (seeded s) n Xq).1
  | None => λ σ, let r := grow (np_random σ) n Xq in
                 (Ok r.1, mkState (heap σ) r.2)
  end.

Definition IsolationForest_score_samples (iso : Forest) (X : list (list value))
  : result (list Q) :=
  Xq ← check_array X; Ok (score_samples iso Xq).

(** ** [add_features] *)

Definition feat_cols : list string :=
  [ "attempts"; "fail_ratio"; "uniq_ips"; "uniq_devices"; "uniq_countries";
    "hour_sin"; "hour_cos";
    "secs_since_last_success";
    "rare_country_for_user"; "rare_device_for_user" ].

(** A function of the hour, cell by cell. *)
Definition on_hour (f : Q → Q) (s : Series) : result Series :=
  mapR (λ v, o ← pd.to_num v; Ok (from_option (λ q, VFloat (f q)) NaN o)) s.

(** [lambda s: 1 - s.mean()] *)
Definition one_minus_mean (s : Series) : result value :=
  m ← pd.mean s;
  match m with
  | VFloat q => Ok (VFloat (1 - q)%Q)
  | _ => Ok NaN
  end.

(** [out.groupby(["user", "minute"]).agg(...).reset_index()] *)
Definition minute_agg_names : list string :=
  [ "attempts"; "fail_ratio"; "uniq_ips"; "uniq_devices"; "uniq_countries" ].

Definition minute_agg (out : DataFrame) : result Table :=
  ks ← pd.keys2 out "user" "minute";
  success ← pd.getitem out "success";
  ip ← pd.getitem out "ip";
  device ← pd.getitem out "device";
  country ← pd.getitem out "country";
  pd.groupby_agg ks
    [ (λ k, Ok (pd.size (pd.group ks success k)));
      (λ k, one_minus_mean (pd.group ks success k));
      (λ k, Ok (pd.nunique (pd.group ks ip k)));
      (λ k, Ok (pd.nunique (pd.group ks device k)));
      (λ k, Ok (pd.nunique (pd.group ks country k))) ].

(** [out.groupby([a, b]).size()] *)
Definition group_sizes (out : DataFrame) (a b : string) : result Table :=
  ks ← pd.keys2 out a b;
  pd.groupby_agg ks [ (λ k, Ok (pd.size (pd.group ks ks k))) ].

(** [row["success"] == 1] *)
Definition eq_one (v : value) : bool :=
  match v with
  | VInt n => (n =? 1)%Z
  | VFloat q => Qeq_bool q 1
  | _ => false
  end.

(** The loop over [out.iterrows()]: [last_success] is the dictionary, the
    result is the list that the loop appends to. *)
Fixpoint cursor_loop (rows : list (value * Z * value)) (last_success : gmap value Z)
  : list Z :=
  match rows with
  | [] => []
  | (u, t, success) :: rows' =>
      let prev := last_success !! u in
      (match prev with None => 0 | Some p => t - p end)
      :: cursor_loop rows'
           (if eq_one success then <[u := t]> last_success else last_success)
  end.

Definition as_int (v : value) : result Z :=
  match v with VInt n => Ok n | _ => Raise TypeError end.

Definition secs_since_last_success (out : DataFrame) : result Series :=
  user ← pd.getitem out "user";
  ts_sec ← pd.getitem out "ts_sec";
  success ← pd.getitem out "success";
  t ← mapR as_int ts_sec;
  Ok ((λ d, VFloat (inject_Z d)) <$> cursor_loop (zip (zip user t) success) ∅).

Definition add_features (df : loc) : M (loc * list string) :=
  out ← copy df;
  assign out "minute" (λ F, ts ← pd.getitem F "ts"; pd.dt_floor_min ts);;
  assign out "hour" (λ F, ts ← pd.getitem F "ts"; pd.dt_hour ts);;
  assign out "hour_sin" (λ F, h ← pd.getitem F "hour"; on_hour sin_2pi_x_div_24 h);;
  assign out "hour_cos" (λ F, h ← pd.getitem F "hour"; on_hour cos_2pi_x_div_24 h);;
  agg ← read out minute_agg;
  out ← derive out (λ F, pd.merge_left F "user" "minute" agg minute_agg_names);
  assign out "ts_sec"
    (λ F, ts ← pd.getitem F "ts"; pd.view_int64_floordiv (10 ^ 9) ts);;
  secs ← read out secs_since_last_success;
  assign out "secs_since_last_success" (λ _, Ok secs);;
  uc ← read out (λ F, group_sizes F "user" "country");
  ud ← read out (λ F, group_sizes F "user" "device");
  out ← derive out (λ F, pd.join F "user" "country" uc "uc_count");
  out ← derive out (λ F, pd.join F "user" "device" ud "ud_count");
  assign_cols out ["uc_count"; "ud_count"] pd.fillna0;;
  assign out "rare_country_for_user"
    (λ F, c ← pd.getitem F "uc_count"; b ← pd.compare pd.Qlt_bool c 3; Ok (pd.astype_int b));;
  assign out "rare_device_for_user"
    (λ F, c ← pd.getitem F "ud_count"; b ← pd.compare pd.Qlt_bool c 3; Ok (pd.astype_int b));;
  assign_cols out feat_cols pd.fillna0;;
  mret (out, feat_cols).

(** ** [detect_anomalies] *)

(** [a | b] on integer columns *)
Definition bit_or (a b : Series) : result Series :=
  mapR (λ p : value * value,
          match p with
          | (VInt x, VInt y) => Ok (VInt (Z.lor x y))
          | _ => Raise TypeError
          end) (zip a b).

Definition Qge_bool (x y : Q) : bool := Qle_bool y x.
Definition Qgt_bool (x y : Q) : bool := pd.Qlt_bool y x.

(** [((df["fail_ratio"] > 0.8) & (df["uniq_ips"] >= 5)).astype(int)] *)
Definition rule_flag (F : DataFrame) : result Series :=
  fail_ratio ← pd.getitem F "fail_ratio";
  uniq_ips ← pd.getitem F "uniq_ips";
  a ← pd.compare Qgt_bool fail_ratio (8 # 10);
  b ← pd.compare Qge_bool uniq_ips 5;
  Ok (pd.astype_int (zip_with andb a b)).

Definition detect_anomalies (df_feat : loc) (feat_cols : list string)
    (contamination : Q) (seed : Z) : M loc :=
  X ← read df_feat (λ F, pd.values F feat_cols);
  iso ← IsolationForest_fit 300 contamination (Some seed) X;
  s ← lift (IsolationForest_score_samples iso X);
  let scores := Qopp <$> s in
  df_out ← copy df_feat;
  assign df_out "anomaly_score" (λ _, Ok (VFloat <$> scores));;
  thr ← lift (np.quantile scores (1 - contamination));
  assign df_out "ml_flag" (λ _, Ok (pd.astype_int (np.ge_scalar scores thr)));;
  assign df_out "rule_flag" rule_flag;;
  assign df_out "final_flag"
    (λ F, ml ← pd.getitem F "ml_flag"; rf ← pd.getitem F "rule_flag"; bit_or ml rf);;
  mret df_out.

End Program.

(** ** Batches of login events *)

(** One row of the login log: the columns written by the login endpoint.
    [ts] is in nanoseconds since the epoch, [success] is 1 or 0. *)
Record LoginEvent := mkLoginEvent {
  ts : Z;
  user : string;
  device : string;
  ip : string;
  country : string;
  success : Z;
}.

#[global] Instance LoginEvent_eq_dec : EqDecision LoginEvent.
Proof. solve_decision. Defined.

Definition frame_of_events (evs : list LoginEvent) : DataFrame :=
  mkDataFrame (length evs)
    [ ("ts", (λ e, VTime (ts e)) <$> evs);
      ("user", (λ e, VStr (user e)) <$> evs);
      ("device", (λ e, VStr (device e)) <$> evs);
      ("ip", (λ e, VStr (ip e)) <$> evs);
      ("country", (λ e, VStr (country e)) <$> evs);
      ("success", (λ e, VInt (success e)) <$> evs) ].

(** A small instance of the libraries, to run the functions on examples:
    a generator is a number, the forest grown from it remembers that
    number, and a row is the more anomalous the larger its first feature. *)
Definition demo_lib : Lib := {|
  sin_2pi_x_div_24 := λ _, 0%Q;
  cos_2pi_x_div_24 := λ _, 1%Q;
  RandomState := Z;
  seeded := λ s, s;
  Forest := Z;
  grow := λ g _ _, (g, g + 1);
  score_samples := λ f X,
    (λ r, let x := default 0 (head r) in
          - (1 - 1 / (2 + x * x + inject_Z f * inject_Z f)))%Q <$> X;
  score_samples_length := λ _ X, length_fmap _ X;
|}.

(** The two calls of the script's main block, on a log that is already
    in the heap. *)
Section Main.
Context `{Lib}.

Definition main (raw : loc) (contamination : Q) (seed : Z) : M loc :=
  r ← add_features raw;
  detect_anomalies r.1 r.2 contamination seed.

End Main.

(** * Describing the results

    The definitions below are not part of the program: they name what the
    program computes on a batch of events, for the statements further
    down. *)

(** ** The feature frame of a batch, column by column *)

Definition minute_key (e : LoginEvent) : key :=
  (VStr (user e), VTime (pd.floor_min (ts e))).
Definition country_key (e : LoginEvent) : key := (VStr (user e), VStr (country e)).
Definition device_key (e : LoginEvent) : key := (VStr (user e), VStr (device e)).

(** The events of the batch in the (user, minute) window of [e]. *)
Definition window (evs : list LoginEvent) (e : LoginEvent) : list LoginEvent :=
  filter (λ e', user e' = user e ∧ pd.floor_min (ts e') = pd.floor_min (ts e)) evs.

Definition attempts_in (w : list LoginEvent) : Z := Z.of_nat (length w).
Definition fail_ratio_in (w : list LoginEvent) : Q :=
  (1 - pd.Qsum ((λ e, inject_Z (success e)) <$> w) / inject_Z (Z.of_nat (length w)))%Q.
Definition distinct_in (f : LoginEvent → string) (w : list LoginEvent) : Z :=
  Z.of_nat (length (remove_dups (f <$> w))).

(** Occurrences in the whole batch of the (user, country) and of the
    (user, device) pair of [e]. *)
Definition uc_count (evs : list LoginEvent) (e : LoginEvent) : Z :=
  Z.of_nat (length (filter (λ e', user e' = user e ∧ country e' = country e) evs)).
Definition ud_count (evs : list LoginEvent) (e : LoginEvent) : Z :=
  Z.of_nat (length (filter (λ e', user e' = user e ∧ device e' = device e) evs)).

(** The rows that the loop of [add_features] iterates over. *)
Definition cursor_rows (evs : list LoginEvent) : list (value * Z * value) :=
  (λ e, (VStr (user e), pd.sec_of (ts e), VInt (success e))) <$> evs.

Section Frames.
Context `{Lib}.

Definition base_cols (evs : list LoginEvent) : list (string * Series) :=
  columns (frame_of_events evs).

Definition clock_cols (evs : list LoginEvent) : list (string * Series) :=
  [ ("minute", (λ e, VTime (pd.floor_min (ts e))) <$> evs);
    ("hour", (λ e, VInt (pd.hour_of (ts e))) <$> evs);
    ("hour_sin", (λ e, VFloat (sin_2pi_x_div_24 (inject_Z (pd.hour_of (ts e))))) <$> evs);
    ("hour_cos", (λ e, VFloat (cos_2pi_x_div_24 (inject_Z (pd.hour_of (ts e))))) <$> evs) ].

Definition agg_cols (evs : list LoginEvent) : list (string * Series) :=
  [ ("attempts", (λ e, VInt (attempts_in (window evs e))) <$> evs);
    ("fail_ratio", (λ e, VFloat (fail_ratio_in (window evs e))) <$> evs);
    ("uniq_ips", (λ e, VInt (distinct_in ip (window evs e))) <$> evs);
    ("uniq_devices", (λ e, VInt (distinct_in device (window evs e))) <$> evs);
    ("uniq_countries", (λ e, VInt (distinct_in country (window evs e))) <$> evs) ].

Definition cursor_cols (evs : list LoginEvent) : list (string * Series) :=
  [ ("ts_sec", (λ e, VInt (pd.sec_of (ts e))) <$> evs);
    ("secs_since_last_success",
       (λ d, VFloat (inject_Z d)) <$> cursor_loop (cursor_rows evs) ∅) ].

Definition uc_col (evs : list LoginEvent) : string * Series :=
  ("uc_count", (λ e, VInt (uc_count evs e)) <$> evs).
Definition ud_col (evs : list LoginEvent) : string * Series :=
  ("ud_count", (λ e, VInt (ud_count evs e)) <$> evs).

Definition rare_cols (evs : list LoginEvent) : list (string * Series) :=
  [ ("rare_country_for_user", (λ e, VInt (if uc_count evs e <? 3 then 1 else 0)) <$> evs);
    ("rare_device_for_user", (λ e, VInt (if ud_count evs e <? 3 then 1 else 0)) <$> evs) ].

(** The objects that a call of [add_features] leaves in the heap: the
    copy with the clock columns, the merged frame, the frame joined with
    the country counts, and the returned frame. *)
Definition clocked (evs : list LoginEvent) : DataFrame :=
  mkDataFrame (length evs) (base_cols evs ++ clock_cols evs).
Definition merged (evs : list LoginEvent) : DataFrame :=
  mkDataFrame (length evs)
    (base_cols evs ++ clock_cols evs ++ agg_cols evs ++ cursor_cols evs).
Definition counted (evs : list LoginEvent) : DataFrame :=
  mkDataFrame (length evs)
    (base_cols evs ++ clock_cols evs ++ agg_cols evs ++ cursor_cols evs ++ [uc_col evs]).
Definition featured (evs : list LoginEvent) : DataFrame :=
  mkDataFrame (length evs)
    (base_cols evs ++ clock_cols evs ++ agg_cols evs ++ cursor_cols evs
     ++ [uc_col evs; ud_col evs] ++ rare_cols evs).

End Frames.

(** The events of the batch whose key is [k], and the tables of the
    groups: [table_of kf gs evs] has one row per key, with the cells that
    the aggregations [gs] give for the key. *)
Definition members (kf : LoginEvent → key) (evs : list LoginEvent) (k : key)
  : list LoginEvent :=
  filter (λ e, kf e = k) evs.

Definition minute_gs (evs : list LoginEvent) : list (key → value) :=
  [ (λ k, VInt (attempts_in (members minute_key evs k)));
    (λ k, VFloat (fail_ratio_in (members minute_key evs k)));
    (λ k, VInt (distinct_in ip (members minute_key evs k)));
    (λ k, VInt (distinct_in device (members minute_key evs k)));
    (λ k, VInt (distinct_in country (members minute_key evs k))) ].

Definition table_of (kf : LoginEvent → key) (gs : list (key → value))
    (evs : list LoginEvent) : Table :=
  (λ k, (k, (λ g, g k) <$> gs)) <$> pd.group_keys (kf <$> evs).

Definition size_gs (kf : LoginEvent → key) (evs : list LoginEvent) : list (key → value) :=
  [ (λ k, VInt (Z.of_nat (length (members kf evs k)))) ].

(** The seconds of the last success of user [u] among the first [i] rows. *)
Definition prior_success (evs : list LoginEvent) (i : nat) (u : string) : option Z :=
  last ((λ e, pd.sec_of (ts e)) <$>
        filter (λ e, user e = u ∧ success e = 1) (take i evs)).





(** A batch whose second row is earlier than its first, both successful
    logins of one user, and the same rows in order of time. *)
Definition late_first : list LoginEvent :=
  [ mkLoginEvent (120 * 10 ^ 9) "u1" "d1" "10.0.0.1" "DE" 1;
    mkLoginEvent (60 * 10 ^ 9) "u1" "d1" "10.0.0.1" "DE" 1 ].

Definition early_first : list LoginEvent :=
  [ mkLoginEvent (60 * 10 ^ 9) "u1" "d1" "10.0.0.1" "DE" 1;
    mkLoginEvent (120 * 10 ^ 9) "u1" "d1" "10.0.0.1" "DE" 1 ].

(** A login log for the examples: three logins of [u1], two of them in
    one minute, then six failed logins of [u2] from five addresses within
    one minute. *)
Definition demo_batch : list LoginEvent :=
  [ mkLoginEvent (120 * 10 ^ 9) "u1" "d1" "10.0.0.1" "DE" 1;
    mkLoginEvent (130 * 10 ^ 9) "u1" "d2" "10.0.0.2" "FR" 0;
    mkLoginEvent (200 * 10 ^ 9) "u1" "d1" "10.0.0.1" "DE" 1;
    mkLoginEvent (600 * 10 ^ 9) "u2" "d3" "10.1.0.1" "US" 0;
    mkLoginEvent (605 * 10 ^ 9) "u2" "d3" "10.1.0.2" "US" 0;
    mkLoginEvent (610 * 10 ^ 9) "u2" "d3" "10.1.0.3" "US" 0;
    mkLoginEvent (615 * 10 ^ 9) "u2" "d3" "10.1.0.4" "CN" 0;
    mkLoginEvent (620 * 10 ^ 9) "u2" "d4" "10.1.0.5" "CN" 0;
    mkLoginEvent (625 * 10 ^ 9) "u2" "d4" "10.1.0.5" "CN" 0 ].

(** A starting state for the examples: the given frames, generator 0. *)
Definition demo_state (h : list DataFrame) : state (H := demo_lib) :=
  mkState (H := demo_lib) h (0 : Z).


(** A cell that is a number above, or at least, a bound; a missing cell
    is neither. *)
Definition exceeds (v : value) (k : Q) : Prop :=
  ∃ q, pd.to_num v = Ok (Some q) ∧ (k < q)%Q.
Definition reaches (v : value) (k : Q) : Prop :=
  ∃ q, pd.to_num v = Ok (Some q) ∧ (k <= q)%Q.

Definition is_number (v : value) : Prop :=
  match v with VInt _ | VFloat _ => True | _ => False end.

(** The heaps of the examples: the raw log, and its feature frame. *)
Definition demo_raw : state (H := demo_lib) := demo_state [frame_of_events demo_batch].
Definition demo_feat : state (H := demo_lib) :=
  demo_state [featured (H := demo_lib) demo_batch].

(** Another heap holding the same feature frame, at another place and
    with the global generator in another state. *)
Definition demo_feat_later : state (H := demo_lib) :=
  mkState (H := demo_lib)
    [frame_of_events late_first; featured (H := demo_lib) demo_batch] (5 : Z).

Section Results.
Context `{Lib}.

(** [add_features(df)], called in state [σ], returns the feature columns
    and a reference to the frame [F]. *)
Definition returns_features (σ : state) (df : loc) (F : DataFrame) : Prop :=
  ∃ out σ', add_features df σ = (Ok (out, feat_cols), σ') ∧ heap σ' !! out = Some F.

(** [detect_anomalies(df, cols, c, seed)], called in state [σ], returns a
    reference to the frame [G]. *)
Definition returns_flags (σ : state) (df : loc) (cols : list string) (c : Q)
    (seed : Z) (G : DataFrame) : Prop :=
  ∃ out σ', detect_anomalies df cols c seed σ = (Ok out, σ') ∧ heap σ' !! out = Some G.

(** The anomaly scores: the estimator, seeded by [seed], is fitted on the
    feature rows and scores them; the sign is flipped. *)
Definition scores_of (F : DataFrame) (cols : list string) (c : Q) (seed : Z)
  : result (list Q) :=
  X ← pd.values F cols;
  _ ← check_contamination c;
  Xq ← check_array X;
  s ← IsolationForest_score_samples (grow (seeded seed) 300 Xq).1 X;
  Ok (fmap (M := list) Qopp s).

(** The frame that [detect_anomalies] returns for the frame [F]. *)
Definition flagged (F : DataFrame) (cols : list string) (c : Q) (seed : Z)
  : result DataFrame :=
  scores ← scores_of F cols c seed;
  F1 ← pd.setitem F "anomaly_score" (VFloat <$> scores);
  thr ← np.quantile scores (1 - c);
  F2 ← pd.setitem F1 "ml_flag" (pd.astype_int (np.ge_scalar scores thr));
  rf ← rule_flag F2;
  F3 ← pd.setitem F2 "rule_flag" rf;
  fl ← (ml ← pd.getitem F3 "ml_flag"; rf ← pd.getitem F3 "rule_flag"; bit_or ml rf);
  pd.setitem F3 "final_flag" fl.

(** The feature columns of a feature frame. *)
Definition feature_series (evs : list LoginEvent) : list Series :=
  [ (λ e, VInt (attempts_in (window evs e))) <$> evs;
    (λ e, VFloat (fail_ratio_in (window evs e))) <$> evs;
    (λ e, VInt (distinct_in ip (window evs e))) <$> evs;
    (λ e, VInt (distinct_in device (window evs e))) <$> evs;
    (λ e, VInt (distinct_in country (window evs e))) <$> evs;
    (λ e, VFloat (sin_2pi_x_div_24 (inject_Z (pd.hour_of (ts e))))) <$> evs;
    (λ e, VFloat (cos_2pi_x_div_24 (inject_Z (pd.hour_of (ts e))))) <$> evs;
    (λ d, VFloat (inject_Z d)) <$> cursor_loop (cursor_rows evs) ∅;
    (λ e, VInt (if uc_count evs e <? 3 then 1 else 0)) <$> evs;
    (λ e, VInt (if ud_count evs e <? 3 then 1 else 0)) <$> evs ].

(** [keeps n m Q]: run in a heap of at least [n] objects, [m] leaves the
    first [n] objects and numpy's global generator as they are, whether it
    returns or raises, and a returned value satisfies [Q]. *)
Definition keeps {A} (n : nat) (m : M A) (Q : A → Prop) : Prop :=
  ∀ σ, (n ≤ length (heap σ))%nat →
    take n (heap (m σ).2) = take n (heap σ) ∧
    (n ≤ length (heap (m σ).2))%nat ∧
    np_random (m σ).2 = np_random σ ∧
    ∀ a, (m σ).1 = Ok a → Q a.

End Results.

(** * The isolation forest engine of the specification *)

Module Engine.
Import Stdlib.Reals.Reals.
Local Open Scope R_scope.

(** Modelled from the spec: the scoring operation of the Isolation Forest
    Engine.  The source delegates it to scikit-learn's [IsolationForest],
    whose code is not part of the repository; the definitions below follow
    the specification of the engine, over the real numbers. *)
Inductive IsolationTree :=
| Leaf (size : nat)
| Node (feature : nat) (threshold : R) (left_child right_child : IsolationTree).

Record IsolationForest := mkForest {
  trees : list IsolationTree;
  subsample_size : nat;
}.

(** Modelled from the spec: the [i]-th harmonic number, [ln i + 0.5772]
    for [i > 0] and 0 for [i = 0]. *)
Definition H (i : nat) : R :=
  match i with
  | O => 0
  | _ => ln (INR i) + 5772 / 10000
  end.

(** Modelled from the spec: [c(m) = 2 H(m - 1) - 2 (m - 1) / m] for
    [m > 1], and 0 for [m <= 1]. *)
Definition c (m : nat) : R :=
  if (1 <? m)%nat then 2 * H (m - 1) - 2 * (INR m - 1) / INR m else 0.

(** Modelled from the spec: the number of edges down to the leaf that the
    point falls into (left when the value is below the threshold), plus
    the correction [c(leaf size)] when the leaf holds more than one point. *)
Fixpoint path_length (x : list R) (t : IsolationTree) : R :=
  match t with
  | Leaf size => if (1 <? size)%nat then c size else 0
  | Node feature threshold left_child right_child =>
      if Rlt_dec (nth feature x 0) threshold
      then 1 + path_length x left_child
      else 1 + path_length x right_child
  end.

Definition Rsum (l : list R) : R := foldr Rplus 0 l.

(** Modelled from the spec: the average path length across all trees, and
    the score [2 ^ (- avg_path_length / c(subsample_size))]. *)
Definition avg_path_length (forest : IsolationForest) (x : list R) : R :=
  Rsum (path_length x <$> trees forest) / INR (length (trees forest)).

Definition score_point (forest : IsolationForest) (x : list R) : R :=
  Rpower 2 (- avg_path_length forest x / c (subsample_size forest)).

Definition score (forest : IsolationForest) (vectors : list (list R)) : list R :=
  score_point forest <$> vectors.

(** A forest for the examples: two trees on a subsample of 4 points. *)
Definition demo_forest : IsolationForest :=
  mkForest [ Node 0 3 (Leaf 1) (Node 1 (1 / 2) (Leaf 2) (Leaf 1));
             Node 1 (9 / 10) (Leaf 3) (Leaf 1) ] 4.

End Engine.

(** ** Names of the columns *)

(** The columns of the login log, the columns that [add_features] adds to
    them, in the order in which it adds them, and the columns that
    [detect_anomalies] adds. *)
Definition log_cols : list string :=
  [ "ts"; "user"; "device"; "ip"; "country"; "success" ].

Definition derived_cols : list string :=
  [ "minute"; "hour"; "hour_sin"; "hour_cos";
    "attempts"; "fail_ratio"; "uniq_ips"; "uniq_devices"; "uniq_countries";
    "ts_sec"; "secs_since_last_success";
    "uc_count"; "ud_count";
    "rare_country_for_user"; "rare_device_for_user" ].

Definition flag_cols : list string :=
  [ "anomaly_score"; "ml_flag"; "rule_flag"; "final_flag" ].






(** * The rest of the script: the toy log and the report *)

(** ** pandas: selecting, sorting and cutting rows *)

Module rows.

(** [np.nonzero(mask)]: the positions of the true cells. *)
Fixpoint nonzero_from (i : nat) (mask : list bool) : list nat :=
  match mask with
  | [] => []
  | b :: mask' =>
      if b then i :: nonzero_from (S i) mask' else nonzero_from (S i) mask'
  end.

Definition nonzero (mask : list bool) : list nat := nonzero_from 0 mask.

(** [df.take(idx)]: the rows at the positions [idx], in that order. *)
Definition take_rows (idx : list nat) (F : DataFrame) : DataFrame :=
  mkDataFrame (length idx)
    ((λ cs : string * Series, (cs.1, (λ i, default NaN (cs.2 !! i)) <$> idx))
       <$> columns F).

(** [df.loc[df[c] == 1, cols]]: the rows whose cell in column [c] equals
    1, and of these the columns [cols], in the order of [cols]. *)
Definition loc_eq_one (F : DataFrame) (c : string) (cols : list string)
  : result DataFrame :=
  s ← pd.getitem F c;
  ss ← mapR (pd.getitem F) cols;
  Ok (take_rows (nonzero (eq_one <$> s)) (mkDataFrame (nrows F) (zip cols ss))).

(** [df.head(n)] *)
Definition head_rows (n : nat) (F : DataFrame) : DataFrame :=
  mkDataFrame (Nat.min n (nrows F))
    ((λ cs : string * Series, (cs.1, take n cs.2)) <$> columns F).

(** [df.loc[idx, c] = vals] on the cells of column [c]: the [k]-th value
    goes to the row [idx[k]]. *)
Definition loc_set (idx : list nat) (vals : list value) (s : Series) : Series :=
  foldl (λ acc iv, <[iv.1 := iv.2]> acc) s (zip idx vals).

(** *** Sorting *)

Definition isna (v : value) : bool :=
  match v with NaN => true | _ => false end.

(** Cells of one kind can be compared with each other; comparing a text
    with a number or a timestamp is a TypeError. *)
Inductive kind := KTime | KNumber | KText.

#[global] Instance kind_eq_dec : EqDecision kind.
Proof. solve_decision. Defined.

Definition kind_of (v : value) : option kind :=
  match v with
  | VTime _ => Some KTime
  | VInt _ | VFloat _ => Some KNumber
  | VStr _ => Some KText
  | NaN => None
  end.

Definition same_kind (s : Series) : bool :=
  match omap kind_of s with
  | [] => true
  | k :: ks => forallb (λ k', bool_decide (k' = k)) ks
  end.

(** The order of timestamps and of numbers. *)
Definition sort_key (v : value) : Q :=
  match v with
  | VTime ns => inject_Z ns
  | VInt n => inject_Z n
  | VFloat q => q
  | _ => 0
  end.

Definition is_time (v : value) : Prop :=
  match v with VTime _ => True | _ => False end.

(** Timestamps and numbers are ordered by [sort_key]. *)
Definition ordered_kind (k : kind) : Prop := k = KTime ∨ k = KNumber.

End rows.

(** numpy's [argsort] with the default [kind="quicksort"]: the positions
    of the array in ascending order of the cells.  The order of equal
    cells is not specified, so the function is taken as given, with what
    the library promises: a permutation of the positions, along which
    timestamps, and numbers, ascend. *)
Class Sorter := {
  argsort : Series → list nat;
  argsort_perm : ∀ a, argsort a ≡ₚ seq 0 (length a);
  argsort_sorted : ∀ a,
    Forall rows.is_time a ∨ Forall is_number a →
    StronglySorted
      (λ i j, ∀ x y, a !! i = Some x → a !! j = Some y →
                     (rows.sort_key x <= rows.sort_key y)%Q)
      (argsort a);
}.

Section Sorting.
Context `{Sorter}.

(** pandas' [nargsort(items, kind="quicksort", ascending, na_position="last")]:
    the missing cells are set aside; for a descending sort the others are
    reversed before [argsort] and the positions reversed after it; the
    missing cells come last. *)
Definition nargsort (ascending : bool) (items : Series) : result (list nat) :=
  if rows.same_kind items then
    let non_nans := filter (λ v, rows.isna v = false) items in
    let non_nan_idx := rows.nonzero ((λ v, negb (rows.isna v)) <$> items) in
    let nan_idx := rows.nonzero (rows.isna <$> items) in
    let non_nans' := if ascending then non_nans else reverse non_nans in
    let non_nan_idx' := if ascending then non_nan_idx else reverse non_nan_idx in
    let indexer := (λ i, default 0%nat (non_nan_idx' !! i)) <$> argsort non_nans' in
    let indexer' := if ascending then indexer else reverse indexer in
    Ok (indexer' ++ nan_idx)%list
  else Raise TypeError.

(** [df.sort_values(c, ascending=ascending)] *)
Definition sort_values (F : DataFrame) (c : string) (ascending : bool)
  : result DataFrame :=
  s ← pd.getitem F c;
  idx ← nargsort ascending s;
  Ok (rows.take_rows idx F).

End Sorting.

(** ** numpy: the generator of the toy log *)

(** [np.random.default_rng(seed)] and the draws that the script makes
    from it.  A draw returns its values and the next state of the
    generator; the values are taken as given, within the ranges and with
    the sizes that numpy documents.  [rng_choice n k] stands for
    [rng.choice(a, k)] on a population of [n] elements and returns
    positions in [a]; likewise [rng_choice_p] for a choice with
    probabilities [p] and [rng_choice_norepl] for [replace=False]. *)
Class Rng := {
  BitGenerator : Type;
  default_rng : Z → BitGenerator;
  rng_integers : Z → Z → nat → BitGenerator → list Z * BitGenerator;
  rng_integer : Z → Z → BitGenerator → Z * BitGenerator;
  rng_choice : nat → nat → BitGenerator → list nat * BitGenerator;
  rng_choice_p : list Q → nat → BitGenerator → list nat * BitGenerator;
  rng_choice_norepl : nat → nat → BitGenerator → list nat * BitGenerator;
  rng_random : nat → BitGenerator → list Q * BitGenerator;
  rng_integers_spec : ∀ lo hi k g,
    lo < hi →
    length (rng_integers lo hi k g).1 = k ∧
    Forall (λ x, lo ≤ x < hi) (rng_integers lo hi k g).1;
  rng_integer_spec : ∀ lo hi g,
    lo < hi → lo ≤ (rng_integer lo hi g).1 < hi;
  rng_choice_spec : ∀ n k g,
    (0 < n)%nat →
    length (rng_choice n k g).1 = k ∧
    Forall (λ i, (i < n)%nat) (rng_choice n k g).1;
  rng_choice_p_spec : ∀ p k g,
    p ≠ [] →
    length (rng_choice_p p k g).1 = k ∧
    Forall (λ i, (i < length p)%nat) (rng_choice_p p k g).1;
  rng_choice_norepl_spec : ∀ n k g,
    (k ≤ n)%nat →
    length (rng_choice_norepl n k g).1 = k ∧
    NoDup (rng_choice_norepl n k g).1 ∧
    Forall (λ i, (i < n)%nat) (rng_choice_norepl n k g).1;
  rng_random_spec : ∀ k g,
    length (rng_random k g).1 = k ∧
    Forall (λ x, (0 <= x)%Q ∧ (x < 1)%Q) (rng_random k g).1;
}.

(** ** [make_toy_login_log] *)

Definition users : list string := (λ i : nat, "user_" +:+ pretty i) <$> seq 0 50.
Definition devices : list string := (λ i : nat, "dev_" +:+ pretty i) <$> seq 0 40.
Definition countries : list string := [ "DE"; "NL"; "FR"; "ES"; "US"; "CN" ].
Definition country_weights : list Q :=
  [ 35 # 100; 10 # 100; 20 # 100; 10 # 100; 20 # 100; 5 # 100 ].

(** [pd.Timestamp("2023-04-13 00:00:00")], in nanoseconds. *)
Definition base_time : Z := 1681344000 * 10 ^ 9.

(** The elements of [a] at the chosen positions, as a column of text. *)
Definition pick (a : list string) (idx : list nat) : Series :=
  (λ i, VStr (default "" (a !! i))) <$> idx.

Section Toy.
Context `{Lib} `{Rng} `{Sorter}.

(** [[f"192.168.{rng.integers(0,256)}.{rng.integers(1,255)}" for _ in range(n)]] *)
Fixpoint local_ips (n : nat) (rng : BitGenerator) : list string * BitGenerator :=
  match n with
  | O => ([], rng)
  | S n' =>
      let '(a, rng) := rng_integer 0 256 rng in
      let '(b, rng) := rng_integer 1 255 rng in
      let '(rest, rng) := local_ips n' rng in
      (("192.168." +:+ pretty a +:+ "." +:+ pretty b) :: rest, rng)
  end.

(** [[f"10.{rng.integers(0,256)}.{rng.integers(0,256)}.{rng.integers(1,255)}"
      for _ in range(n)]] *)
Fixpoint foreign_ips (n : nat) (rng : BitGenerator) : list string * BitGenerator :=
  match n with
  | O => ([], rng)
  | S n' =>
      let '(a, rng) := rng_integer 0 256 rng in
      let '(b, rng) := rng_integer 0 256 rng in
      let '(c, rng) := rng_integer 1 255 rng in
      let '(rest, rng) := foreign_ips n' rng in
      (("10." +:+ pretty a +:+ "." +:+ pretty b +:+ "." +:+ pretty c) :: rest, rng)
  end.

(** The generator [rng] is a local object of the call: its state is
    threaded through the draws, in the order in which the source makes
    them.  A negative seed is refused by [default_rng], a negative size by
    the first draw, and 80 rows cannot be chosen without replacement among
    fewer. *)
Definition make_toy_login_log (n_rows seed : Z) : M loc :=
  if (seed <? 0) || (n_rows <? 0) then lift (Raise ValueError) else
  let n := Z.to_nat n_rows in
  let rng := default_rng seed in
  let '(minutes, rng) := rng_integers 0 (60 * 24 * 10) n rng in
  let ts := (λ m, VTime (base_time + m * pd.ns_per_min)) <$> minutes in
  let '(us, rng) := rng_choice (length users) n rng in
  let '(ds, rng) := rng_choice (length devices) n rng in
  let '(ips, rng) := local_ips n rng in
  let '(cs, rng) := rng_choice_p country_weights n rng in
  let '(rs, rng) := rng_random n rng in
  df ← alloc (mkDataFrame n
                [ ("ts", ts);
                  ("user", pick users us);
                  ("device", pick devices ds);
                  ("ip", VStr <$> ips);
                  ("country", pick countries cs);
                  ("success", (λ r, VInt (if Qgt_bool r (12 # 100) then 1 else 0)) <$> rs) ]);
  if (n <? 80)%nat then lift (Raise ValueError) else
  let '(anom_idx, rng) := rng_choice_norepl n 80 rng in
  assign df "success"
    (λ F, s ← pd.getitem F "success";
          Ok (rows.loc_set anom_idx (replicate (length anom_idx) (VInt 0)) s));;
  let '(ips', rng) := foreign_ips (length anom_idx) rng in
  assign df "ip"
    (λ F, s ← pd.getitem F "ip"; Ok (rows.loc_set anom_idx (VStr <$> ips') s));;
  let '(cs', rng) := rng_choice 2 (length anom_idx) rng in
  assign df "country"
    (λ F, s ← pd.getitem F "country";
          Ok (rows.loc_set anom_idx (pick ["US"; "CN"] cs') s));;
  sorted ← derive df (λ F, sort_values F "ts" true);
  derive sorted (λ F, Ok F).

(** *** The toy log as a batch of events *)

(** The events that a frame with the six columns of the log holds, row
    by row. *)
Definition time_at (s : Series) (i : nat) : Z :=
  match s !! i with Some (VTime ns) => ns | _ => 0 end.
Definition text_at (s : Series) (i : nat) : string :=
  match s !! i with Some (VStr x) => x | _ => "" end.
Definition int_at (s : Series) (i : nat) : Z :=
  match s !! i with Some (VInt n) => n | _ => 0 end.

Definition event_at (F : DataFrame) (i : nat) : LoginEvent :=
  let col c := default [] (pd.lookup_col c (columns F)) in
  mkLoginEvent (time_at (col "ts") i) (text_at (col "user") i)
    (text_at (col "device") i) (text_at (col "ip") i)
    (text_at (col "country") i) (int_at (col "success") i).

Definition events_of (F : DataFrame) : list LoginEvent :=
  event_at F <$> seq 0 (nrows F).

Definition is_text (v : value) : Prop :=
  match v with VStr _ => True | _ => False end.
Definition is_int (v : value) : Prop :=
  match v with VInt _ => True | _ => False end.

(** An event as the generator draws it, and an event as the injected
    anomalies are: a failure from an address [10.a.b.c] in the US or CN. *)
Definition toy_event (e : LoginEvent) : Prop :=
  (∃ m, 0 ≤ m < 60 * 24 * 10 ∧ ts e = base_time + m * pd.ns_per_min) ∧
  user e ∈ users ∧ device e ∈ devices ∧ country e ∈ countries ∧
  (success e = 0 ∨ success e = 1).

Definition injected (e : LoginEvent) : Prop :=
  success e = 0 ∧ String.prefix "10." (ip e) = true ∧
  (country e = "US" ∨ country e = "CN").

#[global] Instance injected_dec e : Decision (injected e).
Proof. unfold injected. apply _. Defined.

(** ** The script's main block *)

Definition review_cols : list string :=
  [ "ts"; "user"; "device"; "ip"; "country"; "success";
    "attempts"; "fail_ratio"; "uniq_ips"; "uniq_devices";
    "secs_since_last_success"; "anomaly_score"; "ml_flag"; "rule_flag"; "final_flag" ].

(** The frame that the script prints: the flagged rows, the review
    columns, by descending score, the first 20. *)
Definition report (flagged : loc) : M loc :=
  picked ← derive flagged (λ F, rows.loc_eq_one F "final_flag" review_cols);
  sorted ← derive picked (λ F, sort_values F "anomaly_score" false);
  derive sorted (λ F, Ok (rows.head_rows 20 F)).

Definition script : M loc :=
  raw ← make_toy_login_log 6000 42;
  flagged ← main raw (2 # 100) 0;
  report flagged.

End Toy.

(** A row of a flagged frame that the report selects: its [final_flag]
    equals 1. *)
Definition is_flagged (G : DataFrame) (p : nat) : Prop :=
  ∃ v, pd.cell G "final_flag" p = Some v ∧ eq_one v = true.

(** * The login endpoint

    A shallow embedding of [login.py]: the handler of [POST /login], the
    helper [client_ip] and the creation of the log file when the module is
    loaded.  Text is modelled by strings, one character each of code at
    most 255.  The request, the clock and the content of the log file are
    arguments of the handler; the handler returns its response and the
    new content of the file. *)

Module login.

(** ** Python strings *)

Definition comma : Ascii.ascii := Ascii.ascii_of_nat 44.

(** [str.isspace] on one character: the white space of the range. *)
Definition isspace (c : Ascii.ascii) : bool :=
  let n := Ascii.nat_of_ascii c in
  ((9 <=? n) && (n <=? 13) || (28 <=? n) && (n <=? 32) || (n =? 133) || (n =? 160))%nat.

Fixpoint lstrip (s : string) : string :=
  match s with
  | "" => ""
  | String c s' => if isspace c then lstrip s' else s
  end.

Fixpoint rstrip (s : string) : string :=
  match s with
  | "" => ""
  | String c s' =>
      match rstrip s' with
      | "" => if isspace c then "" else String c ""
      | r => String c r
      end
  end.

(** [s.strip()] *)
Definition strip (s : string) : string := rstrip (lstrip s).

(** [s.split(",")[0]]: the text before the first comma. *)
Fixpoint first_item (s : string) : string :=
  match s with
  | "" => ""
  | String c s' => if Ascii.eqb c comma then "" else String c (first_item s')
  end.

(** The characters of a text. *)
Fixpoint chars (s : string) : list Ascii.ascii :=
  match s with
  | "" => []
  | String c s' => c :: chars s'
  end.

(** Texts without white space, and texts of white space only. *)
Definition no_space (s : string) : Prop := Forall (λ c, isspace c = false) (chars s).
Definition all_space (s : string) : Prop := Forall (λ c, isspace c = true) (chars s).

(** ** The request *)

(** A value of the JSON object of the request, as far as the handler
    looks at it: [None], a boolean, an integer, a text, or any other
    object (a float, a list, a nested object), given by its [str()] and
    its truth value. *)
Inductive jvalue :=
| JNull
| JBool (b : bool)
| JInt (n : Z)
| JStr (s : string)
| JOther (repr : string) (truthy : bool).

(** [str(v)] and [bool(v)] *)
Definition py_str (v : jvalue) : string :=
  match v with
  | JNull => "None"
  | JBool true => "True"
  | JBool false => "False"
  | JInt n => pretty n
  | JStr s => s
  | JOther repr _ => repr
  end.

Definition py_bool (v : jvalue) : bool :=
  match v with
  | JNull => false
  | JBool b => b
  | JInt n => negb (n =? 0)
  | JStr s => negb (String.eqb s "")
  | JOther _ truthy => truthy
  end.

(** What [request.get_json(force=True, silent=True)] returns: [None] when
    the body does not parse, a dictionary for a JSON object, and something
    else, true or false, for any other JSON value. *)
Inductive body :=
| NoJson
| Object (items : list (string * jvalue))
| NotObject (truthy : bool).

Record request := mkRequest {
  forwarded_for : option string;   (* the header X-Forwarded-For *)
  remote_addr : option string;
  json : body;
}.

(** The fields of [datetime.utcnow()] that the handler formats. *)
Record datetime := mkDatetime {
  year : N; month : N; day : N; hour : N; minute : N; second : N;
}.

Definition pad2 (n : N) : string :=
  if (n <? 10)%N then "0" +:+ pretty n else pretty n.

(** [now.strftime("%Y-%m-%d %H:%M:%S")] *)
Definition strftime (now : datetime) : string :=
  pretty (year now) +:+ "-" +:+ pad2 (month now) +:+ "-" +:+ pad2 (day now) +:+ " "
  +:+ pad2 (hour now) +:+ ":" +:+ pad2 (minute now) +:+ ":" +:+ pad2 (second now).

(** ** The log file *)

Definition quote : Ascii.ascii := Ascii.ascii_of_nat 34.
Definition CR : Ascii.ascii := Ascii.ascii_of_nat 13.
Definition LF : Ascii.ascii := Ascii.ascii_of_nat 10.

(** [csv.writer] with the default dialect: a field that holds the
    delimiter, the quote character or a character of the line terminator
    is put between quotes, its quotes doubled. *)
Definition special (c : Ascii.ascii) : bool :=
  Ascii.eqb c comma || Ascii.eqb c quote || Ascii.eqb c CR || Ascii.eqb c LF.

Fixpoint needs_quotes (s : string) : bool :=
  match s with
  | "" => false
  | String c s' => special c || needs_quotes s'
  end.

Fixpoint double_quotes (s : string) : string :=
  match s with
  | "" => ""
  | String c s' =>
      if Ascii.eqb c quote then String quote (String quote (double_quotes s'))
      else String c (double_quotes s')
  end.

Definition csv_field (s : string) : string :=
  if needs_quotes s
  then String quote (double_quotes s +:+ String quote "")
  else s.

Fixpoint join_fields (fields : list string) : string :=
  match fields with
  | [] => ""
  | [x] => x
  | x :: rest => x +:+ String comma (join_fields rest)
  end.

(** [writer.writerow(fields)]: the line ends with CR LF. *)
Definition writerow (fields : list string) : string :=
  join_fields (csv_field <$> fields) +:+ String CR (String LF "").

Definition FIELDNAMES : list string :=
  [ "ts"; "user"; "device"; "ip"; "country"; "success" ].

Record Row := mkRow {
  row_ts : string;
  row_user : string;
  row_device : string;
  row_ip : string;
  row_country : string;
  row_success : Z;
}.

(** [DictWriter(f, fieldnames=FIELDNAMES).writerow(row)] *)
Definition write_row (r : Row) : string :=
  writerow [ row_ts r; row_user r; row_device r; row_ip r; row_country r;
             pretty (row_success r) ].

(** The file [login_log.csv]: [None] when it does not exist.  When the
    module is loaded, a missing file is created with the header line. *)
Definition init_log (log : option string) : option string :=
  match log with
  | None => Some (writerow FIELDNAMES)
  | Some _ => log
  end.

(** [open(LOG_FILE, "a")] and a write: the text is appended, the file is
    created if it is missing. *)
Definition append (log : option string) (text : string) : option string :=
  Some (default "" log +:+ text).

(** ** The handler *)

Definition client_ip (req : request) : string :=
  match forwarded_for req with
  | Some (String c fwd) => strip (first_item (String c fwd))
  | _ =>
      match remote_addr req with
      | Some (String c addr) => String c addr
      | _ => "127.0.0.1"
      end
  end.

(** [d.get(k, default)] *)
Fixpoint dict_get (k : string) (items : list (string * jvalue)) : option jvalue :=
  match items with
  | [] => None
  | (k', v) :: items' => if String.eqb k k' then Some v else dict_get k items'
  end.

Definition get (items : list (string * jvalue)) (k : string) (d : jvalue) : jvalue :=
  default d (dict_get k items).

(** The two responses: 400 with an error, and 200 with the logged row. *)
Inductive response :=
| BadRequest
| Logged (row : Row).

(** [data = request.get_json(force=True, silent=True) or {}]: a false
    value gives the empty dictionary; any other value that is not a
    dictionary has no [get], and the handler raises AttributeError. *)
Definition data_of (b : body) : result (list (string * jvalue)) :=
  match b with
  | NoJson => Ok []
  | Object items => Ok items
  | NotObject truthy => if truthy then Raise AttributeError else Ok []
  end.

Definition login (req : request) (now : datetime) (log : option string)
  : result response * option string :=
  match data_of (json req) with
  | Raise e => (Raise e, log)
  | Ok data =>
      let user := strip (py_str (get data "user" (JStr ""))) in
      let device := strip (py_str (get data "device" (JStr ""))) in
      let country := strip (py_str (get data "country" (JStr "DE"))) in
      let success := if py_bool (get data "success" (JInt 1)) then 1 else 0 in
      if String.eqb user "" || String.eqb device "" then (Ok BadRequest, log)
      else
        let row := mkRow (strftime now) user device (client_ip req) country success in
        (Ok (Logged row), append log (write_row row))
  end.

(** The requests of a run of the server, handled one after the other. *)
Fixpoint serve (reqs : list (request * datetime)) (log : option string)
  : list (result response) * option string :=
  match reqs with
  | [] => ([], log)
  | (req, now) :: reqs' =>
      let '(r, log') := login req now log in
      let '(rs, log'') := serve reqs' log' in
      (r :: rs, log'')
  end.

(** The values that are neither texts nor containers: [None], booleans
    and integers. *)
Definition scalar (v : jvalue) : Prop :=
  match v with JNull | JBool _ | JInt _ => True | _ => False end.

(** The rows that a run has logged, in order. *)
Definition logged_rows (rs : list (result response)) : list Row :=
  omap (λ r, match r with Ok (Logged row) => Some row | _ => None end) rs.

(** The lines of the rows, one after the other. *)
Definition lines (rows : list Row) : string :=
  foldr (λ r acc, write_row r +:+ acc) "" rows.

End login.

(** ** Instances for the examples *)

(** An [argsort] to run the examples: a stable insertion sort of the
    positions by the key of their cells. *)
Definition key_at (a : Series) (i : nat) : Q :=
  rows.sort_key (default NaN (a !! i)).

Fixpoint insert_by (a : Series) (i : nat) (l : list nat) : list nat :=
  match l with
  | [] => [i]
  | j :: l' =>
      if Qle_bool (key_at a i) (key_at a j) then i :: l else j :: insert_by a i l'
  end.

Definition demo_argsort (a : Series) : list nat :=
  foldr (insert_by a) [] (seq 0 (length a)).

(** A generator to run the examples: its state is a counter, and the
    [i]-th value of a draw is the counter plus [i], reduced to the range;
    a choice without replacement takes the last positions, backwards. *)
Definition demo_integers (lo hi : Z) (k : nat) (g : Z) : list Z * Z :=
  ((λ i : nat, lo + (g + Z.of_nat i) `mod` (hi - lo)) <$> seq 0 k, g + Z.of_nat k).

Definition demo_choice (n k : nat) (g : Z) : list nat * Z :=
  ((λ i : nat, Z.to_nat ((g + Z.of_nat i) `mod` Z.of_nat n)) <$> seq 0 k, g + Z.of_nat k).

Definition demo_choice_norepl (n k : nat) (g : Z) : list nat * Z :=
  (reverse (seq (n - k) k), g + Z.of_nat k).

Definition demo_random (k : nat) (g : Z) : list Q * Z :=
  ((λ i : nat, inject_Z ((g + Z.of_nat i) `mod` 100) / 100)%Q <$> seq 0 k, g + Z.of_nat k).


(** A request for the examples: a login of user 7 on device 3, through
    a proxy. *)
Definition demo_request : login.request :=
  login.mkRequest (Some "203.0.113.9, 10.0.0.1") (Some "10.0.0.1")
    (login.Object [ ("user", login.JInt 7); ("device", login.JInt 3) ]).

Definition demo_now : login.datetime := login.mkDatetime 2023 4 13 9 5 0.

(** A flagged frame for the examples, with the review columns: three
    rows, the last two flagged. *)
Definition demo_flagged : DataFrame :=
  mkDataFrame 3
    [ ("ts", [VTime 0; VTime (60 * 10 ^ 9); VTime (120 * 10 ^ 9)]);
      ("user", [VStr "u1"; VStr "u2"; VStr "u2"]);
      ("device", [VStr "d1"; VStr "d2"; VStr "d2"]);
      ("ip", [VStr "10.0.0.1"; VStr "10.0.0.2"; VStr "10.0.0.3"]);
      ("country", [VStr "DE"; VStr "US"; VStr "CN"]);
      ("success", [VInt 1; VInt 0; VInt 0]);
      ("attempts", [VInt 1; VInt 1; VInt 1]);
      ("fail_ratio", [VFloat 0; VFloat 1; VFloat 1]);
      ("uniq_ips", [VInt 1; VInt 1; VInt 1]);
      ("uniq_devices", [VInt 1; VInt 1; VInt 1]);
      ("secs_since_last_success", [VFloat 0; VFloat 0; VFloat 60]);
      ("anomaly_score", [VFloat (2 # 5); VFloat (1 # 2); VFloat (3 # 5)]);
      ("ml_flag", [VInt 0; VInt 0; VInt 1]);
      ("rule_flag", [VInt 0; VInt 1; VInt 0]);
      ("final_flag", [VInt 0; VInt 1; VInt 1]) ].

(** * Properties *)

(** ** Results and columns *)

Lemma mapR_fmap_ok {A B C} (f : B → result C) (g : A → B) (h : A → C) (l : list A) :
  (∀ x, x ∈ l → f (g x) = Ok (h x)) → mapR f (g <$> l) = Ok (h <$> l).
Proof.
  induction l as [|x l IH]; intros Hfg; [reflexivity|].
  cbn. rewrite Hfg by left. rewrite IH; [reflexivity|].
  intros y Hy. apply Hfg. by right.
Qed.

Lemma mapR_length {A B} (f : A → result B) l l' :
  mapR f l = Ok l' → length l' = length l.
Proof.
  revert l'. induction l as [|x l IH]; intros l'; cbn.
  - by intros [= <-].
  - destruct (f x); [|done]. destruct (mapR f l); [|done].
    intros [= <-]. cbn. f_equal. by apply IH.
Qed.

Lemma mapR_lookup {A B} (f : A → result B) l l' i x :
  mapR f l = Ok l' → l !! i = Some x → ∃ y, l' !! i = Some y ∧ f x = Ok y.
Proof.
  revert l' i. induction l as [|a l IH]; intros l' i; cbn; [done|].
  destruct (f a) as [b|] eqn:Hfa; [|done].
  destruct (mapR f l) as [bs|]; [|done].
  intros [= <-]. destruct i as [|i]; cbn.
  - intros [= ->]. eauto.
  - intros Hi. by apply IH.
Qed.

Module pd_facts.
Import pd.

Lemma lookup_replace_eq c s cols : lookup_col c (replace_col c s cols) = Some s.
Proof.
  induction cols as [|[c' s'] cols IH]; cbn.
  - by rewrite String.eqb_refl.
  - destruct (String.eqb c c') eqn:E; cbn; rewrite ?String.eqb_refl, ?E; done.
Qed.

Lemma lookup_replace_ne c c' s cols :
  c ≠ c' → lookup_col c' (replace_col c s cols) = lookup_col c' cols.
Proof.
  intros Hne. induction cols as [|[d s'] cols IH]; cbn.
  - destruct (String.eqb c' c) eqn:E; [|done].
    apply String.eqb_eq in E. congruence.
  - destruct (String.eqb c d) eqn:E; cbn.
    + apply String.eqb_eq in E. subst d.
      destruct (String.eqb c' c) eqn:E'; [|done].
      apply String.eqb_eq in E'. congruence.
    + by rewrite IH.
Qed.

Lemma setitem_ok df c s :
  length s = nrows df →
  setitem df c s = Ok (mkDataFrame (nrows df) (replace_col c s (columns df))).
Proof. intros Hlen. unfold setitem. by rewrite Hlen, Nat.eqb_refl. Qed.

Lemma setitem_inv df c s df' :
  setitem df c s = Ok df' →
  length s = nrows df ∧ df' = mkDataFrame (nrows df) (replace_col c s (columns df)).
Proof.
  unfold setitem. destruct (Nat.eqb (length s) (nrows df)) eqn:E; [|done].
  apply Nat.eqb_eq in E. by intros [= <-].
Qed.

Lemma cell_setitem_eq df c s df' i :
  setitem df c s = Ok df' → cell df' c i = s !! i.
Proof.
  intros [_ ->]%setitem_inv. unfold cell. cbn. by rewrite lookup_replace_eq.
Qed.

Lemma cell_setitem_ne df c c' s df' i :
  c ≠ c' → setitem df c s = Ok df' → cell df' c' i = cell df c' i.
Proof.
  intros Hne [_ ->]%setitem_inv. unfold cell. cbn. by rewrite lookup_replace_ne.
Qed.

Lemma getitem_setitem_eq df c s df' :
  setitem df c s = Ok df' → getitem df' c = Ok s.
Proof.
  intros [_ ->]%setitem_inv. unfold getitem. cbn. by rewrite lookup_replace_eq.
Qed.

Lemma getitem_setitem_ne df c c' s df' :
  c ≠ c' → setitem df c s = Ok df' → getitem df' c' = getitem df c'.
Proof.
  intros Hne [_ ->]%setitem_inv. unfold getitem. cbn. by rewrite lookup_replace_ne.
Qed.

Lemma nrows_setitem df c s df' : setitem df c s = Ok df' → nrows df' = nrows df.
Proof. by intros [_ ->]%setitem_inv. Qed.

End pd_facts.

(** ** Running statements *)

Section Steps.
Context `{Lib}.

Lemma bind_ok {A B} (m : M A) (f : A → M B) σ a σ' :
  m σ = (Ok a, σ') → (m ≫= f) σ = f a σ'.
Proof. intros Hm. unfold mbind, M_bind. by rewrite Hm. Qed.

Lemma bind_raise {A B} (m : M A) (f : A → M B) σ e σ' :
  m σ = (Raise e, σ') → (m ≫= f) σ = (Raise e, σ').
Proof. intros Hm. unfold mbind, M_bind. by rewrite Hm. Qed.

Lemma bind_inv {A B} (m : M A) (f : A → M B) σ b σ'' :
  (m ≫= f) σ = (Ok b, σ'') → ∃ a σ', m σ = (Ok a, σ') ∧ f a σ' = (Ok b, σ'').
Proof.
  unfold mbind, M_bind. destruct (m σ) as [[a|e] σ']; [eauto|done].
Qed.

(** The objects created by the running call sit at the end of the heap:
    the heap is [h ++ t], with [h] the caller's objects. *)
Lemma alloc_app h t g F :
  alloc F (mkState (h ++ t) g)
  = (Ok (length h + length t)%nat, mkState (h ++ (t ++ [F])) g).
Proof. unfold alloc. cbn. by rewrite length_app, app_assoc. Qed.

Lemma load_old h t g l F :
  h !! l = Some F → load l (mkState (h ++ t) g) = (Ok F, mkState (h ++ t) g).
Proof. intros Hl. unfold load. cbn. by rewrite lookup_app_l_Some with (x := F). Qed.

Lemma load_app h t g l k F :
  l = (length h + k)%nat → t !! k = Some F →
  load l (mkState (h ++ t) g) = (Ok F, mkState (h ++ t) g).
Proof. intros -> Hk. unfold load. cbn. by rewrite lookup_app_r, Nat.add_comm, Nat.add_sub, Hk by lia. Qed.

Lemma store_app h t g l k F :
  l = (length h + k)%nat →
  store l F (mkState (h ++ t) g) = (Ok (), mkState (h ++ <[k:=F]> t) g).
Proof. intros ->. unfold store. cbn. by rewrite insert_app_r. Qed.

Lemma copy_old h t g df F :
  h !! df = Some F →
  copy df (mkState (h ++ t) g)
  = (Ok (length h + length t)%nat, mkState (h ++ (t ++ [F])) g).
Proof.
  intros Hdf. unfold copy. rewrite (bind_ok _ _ _ _ _ (load_old _ _ _ _ _ Hdf)).
  apply alloc_app.
Qed.

Lemma copy_app h t g l k F :
  l = (length h + k)%nat → t !! k = Some F →
  copy l (mkState (h ++ t) g)
  = (Ok (length h + length t)%nat, mkState (h ++ (t ++ [F])) g).
Proof.
  intros Hl Hk. unfold copy. rewrite (bind_ok _ _ _ _ _ (load_app _ _ _ _ _ _ Hl Hk)).
  apply alloc_app.
Qed.

Lemma read_app {A} h t g l k F (f : DataFrame → result A) a :
  l = (length h + k)%nat → t !! k = Some F → f F = Ok a →
  read l f (mkState (h ++ t) g) = (Ok a, mkState (h ++ t) g).
Proof.
  intros Hl Hk Hf. unfold read. rewrite (bind_ok _ _ _ _ _ (load_app _ _ _ _ _ _ Hl Hk)).
  unfold lift. by rewrite Hf.
Qed.

Lemma assign_app h t g l k F c f s :
  l = (length h + k)%nat → t !! k = Some F → f F = Ok s → length s = nrows F →
  assign l c f (mkState (h ++ t) g)
  = (Ok (), mkState (h ++ <[k := mkDataFrame (nrows F) (pd.replace_col c s (columns F))]> t) g).
Proof.
  intros Hl Hk Hf Hlen. unfold assign.
  rewrite (bind_ok _ _ _ _ _ (load_app _ _ _ _ _ _ Hl Hk)).
  rewrite (bind_ok (lift (f F)) _ _ s (mkState (h ++ t) g)) by (unfold lift; by rewrite Hf).
  rewrite (bind_ok (lift (pd.setitem F c s)) _ _ _ (mkState (h ++ t) g))
    by (unfold lift; by rewrite pd_facts.setitem_ok).
  by apply store_app.
Qed.

Lemma derive_app h t g l k F f F' :
  l = (length h + k)%nat → t !! k = Some F → f F = Ok F' →
  derive l f (mkState (h ++ t) g)
  = (Ok (length h + length t)%nat, mkState (h ++ (t ++ [F'])) g).
Proof.
  intros Hl Hk Hf. unfold derive.
  rewrite (bind_ok _ _ _ _ _ (load_app _ _ _ _ _ _ Hl Hk)).
  rewrite (bind_ok (lift (f F)) _ _ F' (mkState (h ++ t) g)) by (unfold lift; by rewrite Hf).
  apply alloc_app.
Qed.

Lemma assign_cols_app h t g l k F cs f ss F' :
  l = (length h + k)%nat → t !! k = Some F →
  mapR (pd.getitem F) cs = Ok ss →
  foldl (λ acc cs, F' ← acc; pd.setitem F' cs.1 (f cs.2)) (Ok F) (zip cs ss) = Ok F' →
  assign_cols l cs f (mkState (h ++ t) g) = (Ok (), mkState (h ++ <[k := F']> t) g).
Proof.
  intros Hl Hk Hss HF'. unfold assign_cols.
  rewrite (bind_ok _ _ _ _ _ (load_app _ _ _ _ _ _ Hl Hk)).
  rewrite (bind_ok (lift (mapR (pd.getitem F) cs)) _ _ ss (mkState (h ++ t) g))
    by (unfold lift; by rewrite Hss).
  rewrite (bind_ok (lift _) _ _ F' (mkState (h ++ t) g)) by (unfold lift; by rewrite HF').
  by apply store_app.
Qed.

End Steps.

(** ** Grouping and joining *)

Module group_facts.
Import pd.

Lemma zip_fmap_same {A B C} (f : A → B) (g : A → C) (l : list A) :
  zip (f <$> l) (g <$> l) = (λ x, (f x, g x)) <$> l.
Proof. induction l as [|x l IH]; cbn; [done|]. by rewrite IH. Qed.

Lemma filter_fmap {A B} (f : A → B) (P : B → Prop) `{!∀ y, Decision (P y)} (l : list A) :
  filter P (f <$> l) = f <$> filter (λ x, P (f x)) l.
Proof.
  induction l as [|x l IH]; [done|].
  rewrite fmap_cons, !filter_cons.
  destruct (decide (P (f x))); rewrite ?fmap_cons, IH; done.
Qed.

(** The group of key [k] in columns computed row by row. *)
Lemma group_fmap {A B} (kf : A → key) (g : A → B) (l : list A) (k : key) :
  group (kf <$> l) (g <$> l) k = g <$> filter (λ x, kf x = k) l.
Proof.
  unfold group. rewrite zip_fmap_same.
  rewrite (filter_fmap (λ x, (kf x, g x)) (λ p, p.1 = k)).
  by rewrite <- list_fmap_compose.
Qed.

Lemma mapR_id_ok {A B} (f : A → result B) (h : A → B) (l : list A) :
  (∀ x, x ∈ l → f x = Ok (h x)) → mapR f l = Ok (h <$> l).
Proof.
  intros Hf. rewrite <- (list_fmap_id l) at 1. by apply mapR_fmap_ok.
Qed.

(** Aggregations that succeed on every key of the batch give a table with
    one row per group key. *)
Lemma groupby_agg_ok ks (aggs : list (key → result value)) (gs : list (key → value)) :
  Forall2 (λ f g, ∀ k, k ∈ ks → f k = Ok (g k)) aggs gs →
  groupby_agg ks aggs = Ok ((λ k, (k, (λ g, g k) <$> gs)) <$> group_keys ks).
Proof.
  intros Hfg. unfold groupby_agg. apply mapR_id_ok.
  intros k Hk. unfold group_keys in Hk.
  apply elem_of_remove_dups, list_elem_of_filter in Hk as [_ Hk].
  assert (mapR (λ f, f k) aggs = Ok ((λ g, g k) <$> gs)) as ->; [|done].
  induction Hfg as [|f g aggs gs Hf _ IH]; [done|].
  cbn. by rewrite (Hf k Hk), IH.
Qed.

Lemma lookup_key_fmap (gf : key → list value) (keys : list key) (k : key) :
  k ∈ keys → lookup_key k ((λ k, (k, gf k)) <$> keys) = Some (gf k).
Proof.
  induction keys as [|k' keys IH]; [by intros ?%elem_of_nil|].
  intros Hk. cbn. destruct (decide (k = k')) as [->|Hne]; [done|].
  apply IH. apply elem_of_cons in Hk as [?|?]; [done|done].
Qed.

Lemma joined_fmap {A} (kf : A → key) (gs : list (key → value)) (l : list A) j g :
  (∀ x, no_nan (kf x) = true) → gs !! j = Some g →
  joined (kf <$> l) ((λ k, (k, (λ g, g k) <$> gs)) <$> group_keys (kf <$> l)) j
  = (λ x, g (kf x)) <$> l.
Proof.
  intros Hnn Hj. unfold joined. rewrite <- list_fmap_compose.
  apply list_fmap_ext. intros i x Hx. cbn.
  rewrite lookup_key_fmap.
  - by rewrite list_lookup_fmap, Hj.
  - unfold group_keys. apply elem_of_remove_dups, list_elem_of_filter.
    split; [apply Hnn|]. apply list_elem_of_fmap. exists x. split; [done|].
    by eapply list_elem_of_lookup_2.
Qed.

Lemma remove_dups_fmap_inj {A B} `{EqDecision A, EqDecision B} (f : A → B) (l : list A) :
  Inj (=) (=) f → remove_dups (f <$> l) = f <$> remove_dups l.
Proof.
  intros Hinj. induction l as [|x l IH]; [done|]. cbn.
  destruct (decide_rel elem_of x l) as [Hx|Hx];
    destruct (decide_rel elem_of (f x) (f <$> l)) as [Hfx|Hfx].
  - done.
  - destruct Hfx. apply list_elem_of_fmap. eauto.
  - destruct Hx. apply list_elem_of_fmap in Hfx as (y & Hy & ?).
    by rewrite (Hinj _ _ Hy).
  - cbn. by rewrite IH.
Qed.

Lemma filter_all {A} (P : A → Prop) `{!∀ x, Decision (P x)} (l : list A) :
  (∀ x, x ∈ l → P x) → filter P l = l.
Proof.
  induction l as [|x l IH]; intros HP; [done|].
  rewrite filter_cons. destruct (decide (P x)) as [|Hn].
  - rewrite IH; [done|]. intros y Hy. apply HP. by right.
  - destruct Hn. apply HP. by left.
Qed.

Lemma filter_none {A} (P : A → Prop) `{!∀ x, Decision (P x)} (l : list A) :
  (∀ x, x ∈ l → ¬ P x) → filter P l = [].
Proof.
  induction l as [|x l IH]; intros HP; [done|].
  rewrite filter_cons_False by (apply HP; by left).
  apply IH. intros y Hy. apply HP. by right.
Qed.

End group_facts.

(** ** Column computations on a batch *)

Section Typed.
Context `{Lib}.
Import pd group_facts.

Lemma window_members evs e : members minute_key evs (minute_key e) = window evs e.
Proof.
  apply list_filter_iff. intros e'. unfold minute_key. split.
  - by intros [= -> ->].
  - by intros [-> ->].
Qed.

Lemma uc_members evs e :
  Z.of_nat (length (members country_key evs (country_key e))) = uc_count evs e.
Proof.
  unfold uc_count, members. do 2 f_equal.
  apply list_filter_iff. intros e'. unfold country_key. split.
  - by intros [= -> ->].
  - by intros [-> ->].
Qed.

Lemma ud_members evs e :
  Z.of_nat (length (members device_key evs (device_key e))) = ud_count evs e.
Proof.
  unfold ud_count, members. do 2 f_equal.
  apply list_filter_iff. intros e'. unfold device_key. split.
  - by intros [= -> ->].
  - by intros [-> ->].
Qed.

Lemma members_nonempty kf evs k : k ∈ kf <$> evs → members kf evs k ≠ [].
Proof.
  intros (e & -> & He)%list_elem_of_fmap Hnil.
  assert (e ∈ members kf evs (kf e)) as Hin by by apply list_elem_of_filter.
  rewrite Hnil in Hin. by apply elem_of_nil in Hin.
Qed.

Lemma dt_fmap {A} (f : Z → value) (g : A → Z) (l : list A) :
  dt f ((λ x, VTime (g x)) <$> l) = Ok ((λ x, f (g x)) <$> l).
Proof. unfold dt. by apply (mapR_fmap_ok _ (λ x, VTime (g x)) (λ x, f (g x))). Qed.

Lemma view_fmap {A} d (g : A → Z) (l : list A) :
  view_int64_floordiv d ((λ x, VTime (g x)) <$> l) = Ok ((λ x, VInt (g x / d)) <$> l).
Proof.
  unfold view_int64_floordiv.
  by apply (mapR_fmap_ok _ (λ x, VTime (g x)) (λ x, VInt (g x / d))).
Qed.

Lemma on_hour_fmap {A} (f : Q → Q) (g : A → Z) (l : list A) :
  on_hour f ((λ x, VInt (g x)) <$> l) = Ok ((λ x, VFloat (f (inject_Z (g x)))) <$> l).
Proof.
  unfold on_hour.
  by apply (mapR_fmap_ok _ (λ x, VInt (g x)) (λ x, VFloat (f (inject_Z (g x))))).
Qed.

Lemma as_int_fmap {A} (g : A → Z) (l : list A) :
  mapR as_int ((λ x, VInt (g x)) <$> l) = Ok (g <$> l).
Proof. by apply (mapR_fmap_ok _ (λ x, VInt (g x)) g). Qed.

Lemma compare_fmap {A} op (g : A → Z) (l : list A) k :
  compare op ((λ x, VInt (g x)) <$> l) k = Ok ((λ x, op (inject_Z (g x)) k) <$> l).
Proof.
  unfold compare.
  by apply (mapR_fmap_ok _ (λ x, VInt (g x)) (λ x, op (inject_Z (g x)) k)).
Qed.

Lemma Qlt_bool_Z (a b : Z) : Qlt_bool (inject_Z a) (inject_Z b) = (a <? b).
Proof.
  unfold Qlt_bool, Qle_bool, inject_Z. cbn. rewrite !Z.mul_1_r.
  by rewrite Z.ltb_antisym.
Qed.

Lemma mean_success (w : list LoginEvent) :
  w ≠ [] →
  one_minus_mean ((λ e, VInt (success e)) <$> w) = Ok (VFloat (fail_ratio_in w)).
Proof.
  intros Hw. unfold one_minus_mean, mean.
  rewrite (mapR_fmap_ok _ (λ e, VInt (success e)) (λ e, Some (inject_Z (success e))))
    by done.
  cbn [mbind result_bind].
  assert (omap id ((λ e, Some (inject_Z (success e))) <$> w)
          = (λ e, inject_Z (success e)) <$> w) as ->.
  { clear Hw. induction w as [|e w IH]; [done|]. cbn. by rewrite IH. }
  destruct w as [|e w]; [done|].
  rewrite fmap_cons. unfold fail_ratio_in. rewrite fmap_cons.
  cbn [length]. by rewrite length_fmap.
Qed.

Lemma nunique_strings (f : LoginEvent → string) (w : list LoginEvent) :
  nunique ((λ e, VStr (f e)) <$> w) = VInt (distinct_in f w).
Proof.
  unfold nunique, distinct_in. do 2 f_equal.
  rewrite (filter_all (λ v, v ≠ NaN)).
  - rewrite (list_fmap_compose f VStr).
    rewrite remove_dups_fmap_inj by (by intros ?? [=]).
    by rewrite length_fmap.
  - by intros v (e & -> & _)%list_elem_of_fmap.
Qed.

(** *** The (user, minute) table and its join *)

Lemma minute_agg_typed F evs :
  lookup_col "user" (columns F) = Some ((λ e, VStr (user e)) <$> evs) →
  lookup_col "minute" (columns F) = Some ((λ e, VTime (floor_min (ts e))) <$> evs) →
  lookup_col "success" (columns F) = Some ((λ e, VInt (success e)) <$> evs) →
  lookup_col "ip" (columns F) = Some ((λ e, VStr (ip e)) <$> evs) →
  lookup_col "device" (columns F) = Some ((λ e, VStr (device e)) <$> evs) →
  lookup_col "country" (columns F) = Some ((λ e, VStr (country e)) <$> evs) →
  minute_agg F = Ok (table_of minute_key (minute_gs evs) evs).
Proof.
  intros Hu Hm Hs Hi Hd Hc. unfold minute_agg, keys2, getitem.
  rewrite Hu, Hm, Hs, Hi, Hd, Hc. cbn [mbind result_bind].
  rewrite zip_fmap_same. change (λ x, (VStr (user x), VTime (floor_min (ts x)))) with minute_key.
  apply groupby_agg_ok. unfold minute_gs.
  repeat apply Forall2_cons_2; try apply Forall2_nil_2; intros k Hk; rewrite group_fmap;
    fold (members minute_key evs k).
  - unfold size, attempts_in. by rewrite length_fmap.
  - apply mean_success. by apply members_nonempty.
  - by rewrite nunique_strings.
  - by rewrite nunique_strings.
  - by rewrite nunique_strings.
Qed.

Lemma key_no_nan_minute e : no_nan (minute_key e) = true.
Proof. done. Qed.
Lemma key_no_nan_country e : no_nan (country_key e) = true.
Proof. done. Qed.
Lemma key_no_nan_device e : no_nan (device_key e) = true.
Proof. done. Qed.

Lemma joined_minute evs :
  joined_cols (minute_key <$> evs) (table_of minute_key (minute_gs evs) evs)
    minute_agg_names
  = agg_cols evs.
Proof.
  unfold joined_cols, minute_agg_names, agg_cols, table_of.
  cbn [imap]. unfold compose. cbn beta.
  repeat f_equal;
    (erewrite joined_fmap; [|apply key_no_nan_minute|reflexivity]);
    apply list_fmap_ext; intros i e _; cbn beta; by rewrite window_members.
Qed.

(** *** The count tables and their joins *)

Lemma group_sizes_typed F evs a b (fa fb : LoginEvent → value) :
  lookup_col a (columns F) = Some (fa <$> evs) →
  lookup_col b (columns F) = Some (fb <$> evs) →
  group_sizes F a b = Ok (table_of (λ e, (fa e, fb e)) (size_gs (λ e, (fa e, fb e)) evs) evs).
Proof.
  intros Ha Hb. unfold group_sizes, keys2, getitem. rewrite Ha, Hb.
  cbn [mbind result_bind]. rewrite zip_fmap_same.
  apply groupby_agg_ok. unfold size_gs.
  repeat apply Forall2_cons_2; try apply Forall2_nil_2; intros k Hk.
  rewrite group_fmap. unfold size, members. by rewrite length_fmap.
Qed.

Lemma joined_uc evs c :
  joined_cols (country_key <$> evs) (table_of country_key (size_gs country_key evs) evs) [c]
  = [(c, (λ e, VInt (uc_count evs e)) <$> evs)].
Proof.
  unfold joined_cols, table_of. cbn [imap].
  repeat f_equal.
  erewrite joined_fmap; [|apply key_no_nan_country|reflexivity].
  apply list_fmap_ext; intros i e _; cbn beta. by rewrite uc_members.
Qed.

Lemma joined_ud evs c :
  joined_cols (device_key <$> evs) (table_of device_key (size_gs device_key evs) evs) [c]
  = [(c, (λ e, VInt (ud_count evs e)) <$> evs)].
Proof.
  unfold joined_cols, table_of. cbn [imap].
  repeat f_equal.
  erewrite joined_fmap; [|apply key_no_nan_device|reflexivity].
  apply list_fmap_ext; intros i e _; cbn beta. by rewrite ud_members.
Qed.

End Typed.

(** ** [add_features] on a batch *)

Section AddFeatures.
Context `{Lib}.
Import pd group_facts.

Lemma getitem_then {A} F c s (k : Series → result A) r :
  lookup_col c (columns F) = Some s → k s = Ok r →
  (x ← getitem F c; k x) = Ok r.
Proof. intros Hc Hk. unfold getitem. by rewrite Hc. Qed.

Lemma cursor_loop_length rows m : length (cursor_loop rows m) = length rows.
Proof.
  revert m. induction rows as [|[[u t] s] rows IH]; intros m; [done|].
  cbn. by rewrite IH.
Qed.

Lemma fillna0_length s : length (fillna0 s) = length s.
Proof. apply length_fmap. Qed.

Lemma fillna0_fmap {A} (f : A → value) (l : list A) :
  (∀ x, f x ≠ NaN) → fillna0 (f <$> l) = f <$> l.
Proof.
  intros Hf. unfold fillna0. rewrite <- list_fmap_compose.
  apply list_fmap_ext. intros i x _. cbn. specialize (Hf x). by destruct (f x).
Qed.

(** Column-wise assignment of equally long columns succeeds. *)
Lemma foldl_setitem_ok (f : Series → Series) (cs : list (string * Series)) F :
  (∀ s, length (f s) = length s) →
  Forall (λ cs, length cs.2 = nrows F) cs →
  foldl (λ acc cs, F' ← acc; setitem F' cs.1 (f cs.2)) (Ok F) cs
  = Ok (mkDataFrame (nrows F)
          (foldl (λ cols cs, replace_col cs.1 (f cs.2) cols) (columns F) cs)).
Proof.
  intros Hf. revert F. induction cs as [|[c s] cs IH]; intros F Hlen.
  - by destruct F.
  - apply Forall_cons in Hlen as [Hs Hlen]. cbn [foldl mbind result_bind fst snd].
    rewrite pd_facts.setitem_ok by (by rewrite Hf).
    rewrite IH; [done|]. done.
Qed.

Lemma secs_typed F evs :
  lookup_col "user" (columns F) = Some ((λ e, VStr (user e)) <$> evs) →
  lookup_col "ts_sec" (columns F) = Some ((λ e, VInt (sec_of (ts e))) <$> evs) →
  lookup_col "success" (columns F) = Some ((λ e, VInt (success e)) <$> evs) →
  secs_since_last_success F
  = Ok ((λ d, VFloat (inject_Z d)) <$> cursor_loop (cursor_rows evs) ∅).
Proof.
  intros Hu Ht Hs. unfold secs_since_last_success, getitem. rewrite Hu, Ht, Hs.
  cbn [mbind result_bind]. rewrite as_int_fmap. cbn [mbind result_bind].
  by rewrite !zip_fmap_same.
Qed.

Lemma rare_typed F evs c (cnt : LoginEvent → Z) :
  lookup_col c (columns F) = Some ((λ e, VInt (cnt e)) <$> evs) →
  (s ← getitem F c; b ← compare Qlt_bool s 3; Ok (astype_int b))
  = Ok ((λ e, VInt (if cnt e <? 3 then 1 else 0)) <$> evs).
Proof.
  intros Hc. eapply getitem_then; [done|]. rewrite compare_fmap.
  cbn [mbind result_bind]. f_equal. unfold astype_int. rewrite <- list_fmap_compose.
  apply list_fmap_ext. intros i e _. cbn. by rewrite (Qlt_bool_Z _ 3).
Qed.

Lemma merge_minute_typed evs :
  merge_left (clocked evs) "user" "minute"
    (table_of minute_key (minute_gs evs) evs) minute_agg_names
  = Ok (mkDataFrame (length evs) (base_cols evs ++ clock_cols evs ++ agg_cols evs)).
Proof.
  unfold merge_left, keys2.
  rewrite (getitem_then (clocked evs) "user" _ (λ ka, kb ← getitem (clocked evs) "minute"; Ok (zip ka kb))
             (minute_key <$> evs) eq_refl).
  2:{ eapply getitem_then; [reflexivity|]. by rewrite zip_fmap_same. }
  cbn [mbind result_bind]. rewrite joined_minute. reflexivity.
Qed.

Lemma join_typed F evs a b (fa fb : LoginEvent → value) gs c col :
  nrows F = length evs →
  lookup_col a (columns F) = Some (fa <$> evs) →
  lookup_col b (columns F) = Some (fb <$> evs) →
  has_col F c = false →
  joined_cols ((λ e, (fa e, fb e)) <$> evs) (table_of (λ e, (fa e, fb e)) gs evs) [c]
  = [(c, col)] →
  join F a b (table_of (λ e, (fa e, fb e)) gs evs) c
  = Ok (mkDataFrame (length evs) (columns F ++ [(c, col)])).
Proof.
  intros Hn Ha Hb Hc Hj. unfold join, keys2, getitem. rewrite Ha, Hb.
  cbn [mbind result_bind]. rewrite zip_fmap_same, Hc, Hj. by rewrite Hn.
Qed.

Ltac norm :=
  unfold base_cols, clock_cols, agg_cols;
  cbn [app length insert list_insert nrows columns replace_col foldl zip zip_with
       fst snd String.eqb Ascii.eqb Bool.eqb andb frame_of_events].

Ltac lens := by rewrite ?fillna0_length, ?length_fmap, ?cursor_loop_length, ?length_fmap.

Lemma add_features_run h g df evs :
  h !! df = Some (frame_of_events evs) →
  add_features df (mkState h g)
  = (Ok ((length h + 3)%nat, feat_cols),
     mkState (h ++ [clocked evs; merged evs; counted evs; featured evs]) g).
Proof.
  intros Hdf. unfold add_features.
  replace (mkState h g) with (mkState (h ++ []) g) by (by rewrite app_nil_r).
  rewrite (bind_ok _ _ _ _ _ (copy_old h [] g df _ Hdf)).
  (* minute, hour, hour_sin, hour_cos *)
  erewrite bind_ok;
    [| eapply assign_app;
       [reflexivity | reflexivity
       | eapply getitem_then; [reflexivity | apply dt_fmap] | lens ] ].
  norm.
  erewrite bind_ok;
    [| eapply assign_app;
       [reflexivity | reflexivity
       | eapply getitem_then; [reflexivity | apply dt_fmap] | lens ] ].
  norm.
  erewrite bind_ok;
    [| eapply assign_app;
       [reflexivity | reflexivity
       | eapply getitem_then; [reflexivity | apply on_hour_fmap] | lens ] ].
  norm.
  erewrite bind_ok;
    [| eapply assign_app;
       [reflexivity | reflexivity
       | eapply getitem_then; [reflexivity | apply on_hour_fmap] | lens ] ].
  norm.
  (* the minute table and the merge *)
  erewrite bind_ok;
    [| eapply read_app; [reflexivity | reflexivity
                        | apply (minute_agg_typed _ evs); reflexivity ] ].
  erewrite bind_ok;
    [| eapply derive_app; [reflexivity | reflexivity | apply merge_minute_typed ] ].
  norm.
  (* ts_sec and the cursor *)
  erewrite bind_ok;
    [| eapply assign_app;
       [reflexivity | reflexivity
       | eapply getitem_then; [reflexivity | apply view_fmap] | lens ] ].
  norm.
  erewrite bind_ok;
    [| eapply read_app; [reflexivity | reflexivity
                        | apply (secs_typed _ evs); reflexivity ] ].
  erewrite bind_ok;
    [| eapply assign_app;
       [reflexivity | reflexivity | reflexivity
       | unfold cursor_rows; lens ] ].
  norm.
  (* the count tables and their joins *)
  erewrite bind_ok;
    [| eapply read_app;
       [reflexivity | reflexivity
       | apply (group_sizes_typed _ evs _ _ (λ e, VStr (user e)) (λ e, VStr (country e)));
         reflexivity ] ].
  erewrite bind_ok;
    [| eapply read_app;
       [reflexivity | reflexivity
       | apply (group_sizes_typed _ evs _ _ (λ e, VStr (user e)) (λ e, VStr (device e)));
         reflexivity ] ].
  erewrite bind_ok;
    [| eapply derive_app;
       [reflexivity | reflexivity
       | apply (join_typed _ evs _ _ (λ e, VStr (user e)) (λ e, VStr (country e)));
         [reflexivity | reflexivity | reflexivity | reflexivity | apply joined_uc ] ] ].
  norm.
  erewrite bind_ok;
    [| eapply derive_app;
       [reflexivity | reflexivity
       | apply (join_typed _ evs _ _ (λ e, VStr (user e)) (λ e, VStr (device e)));
         [reflexivity | reflexivity | reflexivity | reflexivity | apply joined_ud ] ] ].
  norm.
  (* missing counts, rarity flags, missing features *)
  erewrite bind_ok;
    [| eapply assign_cols_app;
       [reflexivity | reflexivity | reflexivity
       | rewrite foldl_setitem_ok;
         [reflexivity | apply fillna0_length
         | cbn [zip zip_with]; repeat apply Forall_cons_2; try apply Forall_nil_2;
           cbn [fst snd nrows]; lens ] ] ].
  norm. rewrite !fillna0_fmap by done.
  erewrite bind_ok;
    [| eapply assign_app;
       [reflexivity | reflexivity
       | apply (rare_typed _ evs); reflexivity | lens ] ].
  norm.
  erewrite bind_ok;
    [| eapply assign_app;
       [reflexivity | reflexivity
       | apply (rare_typed _ evs); reflexivity | lens ] ].
  norm.
  erewrite bind_ok;
    [| eapply assign_cols_app;
       [reflexivity | reflexivity | reflexivity
       | rewrite foldl_setitem_ok;
         [reflexivity | apply fillna0_length
         | cbn [zip zip_with feat_cols]; repeat apply Forall_cons_2; try apply Forall_nil_2;
           cbn [fst snd nrows]; unfold cursor_rows; lens ] ] ].
  unfold feat_cols. norm.
  rewrite !fillna0_fmap by done.
  reflexivity.
Qed.

End AddFeatures.

(** ** The success cursor *)

Section Cursor.
Context `{Lib}.

Lemma last_cons_default {A} (x : A) l :
  last (x :: l) = Some (default x (last l)).
Proof. rewrite last_cons. by destruct (last l). Qed.

(** What the loop appends at row [i], for any contents of the dictionary
    when the loop starts. *)
Lemma cursor_loop_lookup evs (m : gmap value Z) i :
  cursor_loop (cursor_rows evs) m !! i
  = (λ e, match prior_success evs i (user e) with
          | Some p => pd.sec_of (ts e) - p
          | None => match m !! VStr (user e) with
                    | Some p => pd.sec_of (ts e) - p
                    | None => 0
                    end
          end) <$> evs !! i.
Proof.
  revert m i. induction evs as [|e0 evs IH]; intros m i; [done|].
  unfold cursor_rows. rewrite fmap_cons. fold (cursor_rows evs).
  cbn [cursor_loop]. destruct i as [|i]; [done|].
  cbn [lookup list_lookup]. rewrite IH. clear IH.
  destruct (evs !! i) as [e|]; [|done]. cbn [fmap option_fmap option_map]. f_equal.
  unfold prior_success. rewrite firstn_cons.
  destruct (decide (user e0 = user e ∧ success e0 = 1)) as [[Hu Hs]|Hn].
  - rewrite filter_cons_True by done. rewrite fmap_cons, last_cons_default.
    cbn [eq_one]. rewrite Hs, Z.eqb_refl, Hu, lookup_insert_eq.
    by destruct (last _).
  - rewrite filter_cons_False by done.
    destruct (last _); [done|]. cbn [eq_one].
    destruct (Z.eqb_spec (success e0) 1) as [Hs|_]; [|done].
    rewrite lookup_insert_ne; [done|]. intros [= Hu]. by destruct Hn.
Qed.

Lemma prior_success_none evs i u :
  (∀ j e', (j < i)%nat → evs !! j = Some e' → user e' = u → success e' ≠ 1) →
  prior_success evs i u = None.
Proof.
  intros Hno. unfold prior_success.
  assert (filter (λ e, user e = u ∧ success e = 1) (take i evs) = []) as ->; [|done].
  apply group_facts.filter_none. intros e' He' [Hu Hs].
  apply elem_of_take in He' as (j & Hj & Hlt). by eapply Hno.
Qed.

Lemma prior_success_last evs i u j e' :
  (j < i)%nat → evs !! j = Some e' → user e' = u → success e' = 1 →
  (∀ k e'', (j < k < i)%nat → evs !! k = Some e'' → user e'' = u → success e'' ≠ 1) →
  prior_success evs i u = Some (pd.sec_of (ts e')).
Proof.
  intros Hji Hj Hu Hs Hbetween. unfold prior_success.
  rewrite <- (take_drop (S j) (take i evs)), take_take, filter_app.
  replace (S j `min` i)%nat with (S j) by lia.
  rewrite (take_S_r _ _ _ Hj), filter_app, filter_cons_True, filter_nil by done.
  assert (filter (λ e, user e = u ∧ success e = 1) (drop (S j) (take i evs)) = [])
    as ->.
  { apply group_facts.filter_none. intros e'' He'' [Hu' Hs'].
    apply list_elem_of_lookup in He'' as (k & Hk).
    rewrite lookup_drop in Hk. apply lookup_take_Some in Hk as [Hk Hlt].
    eapply (Hbetween (S j + k)%nat); [lia|done..]. }
  rewrite app_nil_r, fmap_app. apply last_snoc.
Qed.

End Cursor.

(** ** What [add_features] returns on a batch *)

Section FeatureFrame.
Context `{Lib}.

Lemma add_features_returns σ df evs :
  heap σ !! df = Some (frame_of_events evs) →
  returns_features σ df (featured evs).
Proof.
  destruct σ as [h g]. cbn [heap]. intros Hdf.
  exists (length h + 3)%nat, (mkState (h ++ [clocked evs; merged evs; counted evs; featured evs]) g).
  split; [by apply add_features_run|].
  cbn [heap]. by rewrite lookup_app_r, Nat.add_comm, Nat.add_sub by lia.
Qed.

Lemma cell_lookup F c s i :
  pd.lookup_col c (columns F) = Some s → pd.cell F c i = s !! i.
Proof. intros Hc. unfold pd.cell. by rewrite Hc. Qed.

Lemma cell_fmap F c {A} (f : A → value) (l : list A) i x :
  pd.lookup_col c (columns F) = Some (f <$> l) → l !! i = Some x →
  pd.cell F c i = Some (f x).
Proof.
  intros Hc Hi. unfold pd.cell. rewrite Hc. cbn beta iota.
  by rewrite list_lookup_fmap, Hi.
Qed.



(** C6. On every batch and for every event, [rare_country_for_user] is 1
    exactly when the (user, country) pair of the event occurs fewer than
    3 times in the whole batch, and 0 otherwise; likewise
    [rare_device_for_user] with the (user, device) pair. *)
Theorem rarity_flags σ df evs :
  heap σ !! df = Some (frame_of_events evs) →
  ∃ F, returns_features σ df F ∧
    ∀ i e, evs !! i = Some e →
      let uc := length (filter (λ e', user e' = user e ∧ country e' = country e) evs) in
      let ud := length (filter (λ e', user e' = user e ∧ device e' = device e) evs) in
      pd.cell F "rare_country_for_user" i
        = Some (VInt (if decide (uc < 3)%nat then 1 else 0)) ∧
      pd.cell F "rare_device_for_user" i
        = Some (VInt (if decide (ud < 3)%nat then 1 else 0)).
Proof.
  intros Hdf. exists (featured evs). split; [by apply add_features_returns|].
  intros i e Hi uc ud. split.
  - rewrite (cell_fmap _ _ (λ e, VInt (if uc_count evs e <? 3 then 1 else 0)) evs i e)
      by done.
    unfold uc_count. fold uc. do 2 f_equal.
    destruct (Z.ltb_spec (Z.of_nat uc) 3), (decide (uc < 3)%nat); (done || lia).
  - rewrite (cell_fmap _ _ (λ e, VInt (if ud_count evs e <? 3 then 1 else 0)) evs i e)
      by done.
    unfold ud_count. fold ud. do 2 f_equal.
    destruct (Z.ltb_spec (Z.of_nat ud) 3), (decide (ud < 3)%nat); (done || lia).
Qed.

(** C5. The loop runs over the rows in frame order.  A row whose user has
    no successful row before it gets 0; otherwise it gets its own time
    minus the time of the last successful row of the same user before it
    (times in whole seconds); a row updates the cursor of its user exactly
    when its [success] is 1. *)
Theorem cursor_values σ df evs :
  heap σ !! df = Some (frame_of_events evs) →
  ∃ F, returns_features σ df F ∧
    ∀ i e, evs !! i = Some e →
      ∃ d, pd.cell F "secs_since_last_success" i = Some (VFloat (inject_Z d)) ∧
        ((∀ j e', (j < i)%nat → evs !! j = Some e' →
                  user e' = user e → success e' ≠ 1) → d = 0) ∧
        (∀ j e', (j < i)%nat → evs !! j = Some e' →
                 user e' = user e → success e' = 1 →
                 (∀ k e'', (j < k < i)%nat → evs !! k = Some e'' →
                           user e'' = user e → success e'' ≠ 1) →
                 d = pd.sec_of (ts e) - pd.sec_of (ts e')).
Proof.
  intros Hdf. exists (featured evs). split; [by apply add_features_returns|].
  intros i e Hi.
  pose proof (cursor_loop_lookup evs ∅ i) as Hloop. rewrite Hi in Hloop.
  cbn [fmap option_fmap option_map] in Hloop. rewrite lookup_empty in Hloop.
  eexists. split; [|split].
  - rewrite (cell_lookup (featured evs) "secs_since_last_success"
               ((λ d, VFloat (inject_Z d)) <$> cursor_loop (cursor_rows evs) ∅))
      by done.
    by rewrite list_lookup_fmap, Hloop.
  - intros Hno. by rewrite (prior_success_none evs i (user e) Hno).
  - intros j e' Hji Hj Hu Hs Hbetween.
    by rewrite (prior_success_last evs i (user e) j e' Hji Hj Hu Hs Hbetween).
Qed.

End FeatureFrame.

(** ** The cursor and the order of the rows *)

Section Order.
Context `{Lib}.






End Order.

(** ** [detect_anomalies] as a function of the frame *)

Section Detect.
Context `{Lib}.

Lemma bind_run {A B} (m : M A) (f : A → M B) σ :
  (m ≫= f) σ = match m σ with
               | (Ok a, σ') => f a σ'
               | (Raise e, σ') => (Raise e, σ')
               end.
Proof. reflexivity. Qed.

Lemma read_old_run {A} h t g l F (f : DataFrame → result A) :
  h !! l = Some F → read l f (mkState (h ++ t) g) = (f F, mkState (h ++ t) g).
Proof.
  intros Hl. unfold read. by rewrite (bind_ok _ _ _ _ _ (load_old _ _ _ _ _ Hl)).
Qed.

Lemma assign_run h t g l k F c f :
  l = (length h + k)%nat → t !! k = Some F →
  assign l c f (mkState (h ++ t) g)
  = match s ← f F; pd.setitem F c s with
    | Ok F' => (Ok (), mkState (h ++ <[k := F']> t) g)
    | Raise e => (Raise e, mkState (h ++ t) g)
    end.
Proof.
  intros Hl Hk. unfold assign.
  rewrite (bind_ok _ _ _ _ _ (load_app _ _ _ _ _ _ Hl Hk)).
  rewrite bind_run. unfold lift at 1. destruct (f F) as [s|e]; [|done].
  cbn [mbind result_bind]. rewrite bind_run. unfold lift at 1.
  destruct (pd.setitem F c s) as [F'|e]; [|done].
  by apply store_app.
Qed.

Lemma lift_run {A} (r : result A) σ : lift r σ = (r, σ).
Proof. reflexivity. Qed.

Lemma fit_seeded_run n c seed X σ :
  IsolationForest_fit n c (Some seed) X σ
  = (_ ← check_contamination c; Xq ← check_array X; Ok (grow (seeded seed) n Xq).1, σ).
Proof.
  unfold IsolationForest_fit. rewrite bind_run, lift_run.
  destruct (check_contamination c) as [[]|e]; [|done].
  rewrite bind_run, lift_run. by destruct (check_array X).
Qed.

Lemma detect_anomalies_run h g df F cols c seed :
  h !! df = Some F →
  ∃ t, detect_anomalies df cols c seed (mkState h g)
       = ((λ _, length h) <$> flagged F cols c seed, mkState (h ++ t) g) ∧
       (∀ G, flagged F cols c seed = Ok G → t = [G]).
Proof.
  intros Hdf. unfold detect_anomalies, flagged, scores_of.
  replace (mkState h g) with (mkState (h ++ []) g) by (by rewrite app_nil_r).
  rewrite bind_run, (read_old_run _ _ _ _ _ _ Hdf).
  destruct (pd.values F cols) as [X|e]; [|by exists []].
  cbn [mbind result_bind]. rewrite bind_run, fit_seeded_run.
  destruct (check_contamination c) as [[]|e]; [|by exists []].
  cbn [mbind result_bind].
  destruct (check_array X) as [Xq|e] eqn:HX; [|by exists []].
  cbn [mbind result_bind]. rewrite bind_run, lift_run.
  unfold IsolationForest_score_samples. rewrite HX. cbn [mbind result_bind].
  set (scores := Qopp <$> score_samples (grow (seeded seed) 300 Xq).1 Xq).
  rewrite bind_run, (copy_old h [] g df _ Hdf). cbn [app length].
  rewrite bind_run, (assign_run h [F] g _ 0 F) by done.
  cbn [mbind result_bind].
  destruct (pd.setitem F "anomaly_score" (VFloat <$> scores)) as [F1|e];
    [|by exists [F]].
  cbn [insert list_insert]. rewrite bind_run, lift_run.
  destruct (np.quantile scores (1 - c)) as [thr|e]; [|by exists [F1]].
  cbn [mbind result_bind].
  rewrite bind_run, (assign_run h [F1] g _ 0 F1) by done.
  cbn [mbind result_bind].
  destruct (pd.setitem F1 "ml_flag" _) as [F2|e]; [|by exists [F1]].
  cbn [insert list_insert mbind result_bind].
  rewrite bind_run, (assign_run h [F2] g _ 0 F2) by done.
  destruct (rule_flag F2) as [rf|e]; [|by exists [F2]].
  cbn [mbind result_bind].
  destruct (pd.setitem F2 "rule_flag" rf) as [F3|e]; [|by exists [F2]].
  cbn [insert list_insert mbind result_bind].
  rewrite bind_run, (assign_run h [F3] g _ 0 F3) by done.
  destruct (ml ← pd.getitem F3 "ml_flag"; rf0 ← pd.getitem F3 "rule_flag"; bit_or ml rf0)
    as [fl|e]; [|by exists [F3]].
  cbn [mbind result_bind].
  destruct (pd.setitem F3 "final_flag" fl) as [F4|e]; [|by exists [F3]].
  cbn [insert list_insert fmap result_fmap mret M_ret mbind result_bind].
  rewrite Nat.add_0_r. exists [F4]. split; [done|]. by intros G [= ->].
Qed.

End Detect.

(** ** Which objects a call writes to *)

Section Footprint.
Context `{Lib}.

Lemma keeps_ret {A} n (a : A) (Q : A → Prop) : Q a → keeps n (mret a) Q.
Proof. intros HQ σ Hn. cbn. repeat split; [done|]. by intros ? [= <-]. Qed.

Lemma keeps_lift {A} n (r : result A) : keeps n (lift r) (λ _, True).
Proof. intros σ Hn. by cbn. Qed.

Lemma keeps_bind {A B} n (m : M A) (f : A → M B) (P : A → Prop) (Q : B → Prop) :
  keeps n m P → (∀ a, P a → keeps n (f a) Q) → keeps n (m ≫= f) Q.
Proof.
  intros Hm Hf σ Hn. rewrite bind_run.
  destruct (Hm σ Hn) as (Ht & Hlen & Hg & HP).
  destruct (m σ) as [[a|e] σ'] eqn:E; cbn [fst snd] in *.
  - destruct (Hf a (HP a eq_refl) σ' Hlen) as (Ht' & Hlen' & Hg' & HQ).
    repeat split; [congruence|done|congruence|done].
  - repeat split; [done|done|done|]. by intros.
Qed.

Lemma keeps_load n l : keeps n (load l) (λ _, True).
Proof. intros σ Hn. unfold load. by destruct (heap σ !! l). Qed.

Lemma keeps_alloc n F : keeps n (alloc F) (λ l, (n ≤ l)%nat).
Proof.
  intros σ Hn. unfold alloc. cbn. repeat split.
  - by rewrite take_app_le.
  - rewrite length_app. lia.
  - by intros ? [= <-].
Qed.

Lemma keeps_store n l F : (n ≤ l)%nat → keeps n (store l F) (λ _, True).
Proof.
  intros Hl σ Hn. unfold store. cbn. repeat split.
  - by rewrite take_insert_ge.
  - by rewrite length_insert.
Qed.

Lemma keeps_copy n df : keeps n (copy df) (λ l, (n ≤ l)%nat).
Proof.
  unfold copy. eapply keeps_bind; [apply keeps_load|]. intros F _. apply keeps_alloc.
Qed.

Lemma keeps_read {A} n l (f : DataFrame → result A) : keeps n (read l f) (λ _, True).
Proof.
  unfold read. eapply keeps_bind; [apply keeps_load|]. intros F _. apply keeps_lift.
Qed.

Lemma keeps_assign n l c f : (n ≤ l)%nat → keeps n (assign l c f) (λ _, True).
Proof.
  intros Hl. unfold assign.
  eapply keeps_bind; [apply keeps_load|]. intros F _.
  eapply keeps_bind; [apply keeps_lift|]. intros s _.
  eapply keeps_bind; [apply keeps_lift|]. intros F' _.
  by apply keeps_store.
Qed.

Lemma keeps_assign_cols n l cs f : (n ≤ l)%nat → keeps n (assign_cols l cs f) (λ _, True).
Proof.
  intros Hl. unfold assign_cols.
  eapply keeps_bind; [apply keeps_load|]. intros F _.
  eapply keeps_bind; [apply keeps_lift|]. intros ss _.
  eapply keeps_bind; [apply keeps_lift|]. intros F' _.
  by apply keeps_store.
Qed.

Lemma keeps_derive n l f : keeps n (derive l f) (λ l', (n ≤ l')%nat).
Proof.
  unfold derive.
  eapply keeps_bind; [apply keeps_load|]. intros F _.
  eapply keeps_bind; [apply keeps_lift|]. intros F' _.
  apply keeps_alloc.
Qed.

(** A seeded fit leaves the global generator alone. *)
Lemma keeps_fit n k c seed X :
  keeps n (IsolationForest_fit k c (Some seed) X) (λ _, True).
Proof.
  unfold IsolationForest_fit.
  eapply keeps_bind; [apply keeps_lift|]. intros _ _.
  eapply keeps_bind; [apply keeps_lift|]. intros Xq _.
  by apply keeps_ret.
Qed.

Lemma keeps_add_features n df : keeps n (add_features df) (λ r, (n ≤ r.1)%nat).
Proof.
  unfold add_features.
  eapply keeps_bind; [apply keeps_copy|]. intros out Hout.
  do 4 (eapply keeps_bind; [by apply keeps_assign|]; intros _ _).
  eapply keeps_bind; [apply keeps_read|]. intros agg _.
  eapply keeps_bind; [apply keeps_derive|]. clear out Hout. intros out Hout.
  eapply keeps_bind; [by apply keeps_assign|]. intros _ _.
  eapply keeps_bind; [apply keeps_read|]. intros secs _.
  eapply keeps_bind; [by apply keeps_assign|]. intros _ _.
  eapply keeps_bind; [apply keeps_read|]. intros uc _.
  eapply keeps_bind; [apply keeps_read|]. intros ud _.
  eapply keeps_bind; [apply keeps_derive|]. clear out Hout. intros out Hout.
  eapply keeps_bind; [apply keeps_derive|]. clear out Hout. intros out Hout.
  eapply keeps_bind; [by apply keeps_assign_cols|]. intros _ _.
  do 2 (eapply keeps_bind; [by apply keeps_assign|]; intros _ _).
  eapply keeps_bind; [by apply keeps_assign_cols|]. intros _ _.
  by apply keeps_ret.
Qed.

Lemma keeps_detect_anomalies n df cols c seed :
  keeps n (detect_anomalies df cols c seed) (λ out, (n ≤ out)%nat).
Proof.
  unfold detect_anomalies.
  eapply keeps_bind; [apply keeps_read|]. intros X _.
  eapply keeps_bind; [apply keeps_fit|]. intros iso _.
  eapply keeps_bind; [apply keeps_lift|]. intros s _.
  eapply keeps_bind; [apply keeps_copy|]. intros out Hout.
  eapply keeps_bind; [by apply keeps_assign|]. intros _ _.
  eapply keeps_bind; [apply keeps_lift|]. intros thr _.
  do 3 (eapply keeps_bind; [by apply keeps_assign|]; intros _ _).
  by apply keeps_ret.
Qed.

Lemma keeps_lookup {A} (m : M A) Q σ l F :
  keeps (length (heap σ)) m Q → heap σ !! l = Some F → heap (m σ).2 !! l = Some F.
Proof.
  intros Hm Hl. destruct (Hm σ (le_n _)) as (Ht & _ & _).
  pose proof (lookup_lt_Some _ _ _ Hl) as Hlt.
  rewrite <- (lookup_take_lt _ (length (heap σ))) by done.
  rewrite Ht. by rewrite lookup_take_lt.
Qed.

(** C10. Neither function writes to the frame it is given, nor to any
    other object of the caller, nor to numpy's global generator: whatever
    frame [F] a reference holds before the call, it holds the same [F]
    after [add_features] and after [detect_anomalies], whether the call
    returns or raises; the enriched frame that a call returns is a new
    object. *)
Theorem caller_frames_unchanged σ l F :
  heap σ !! l = Some F →
  (∀ df, heap (add_features df σ).2 !! l = Some F ∧
         np_random (add_features df σ).2 = np_random σ ∧
         ∀ out cols, (add_features df σ).1 = Ok (out, cols) → out ≠ l) ∧
  (∀ df cols c seed,
         heap (detect_anomalies df cols c seed σ).2 !! l = Some F ∧
         np_random (detect_anomalies df cols c seed σ).2 = np_random σ ∧
         ∀ out, (detect_anomalies df cols c seed σ).1 = Ok out → out ≠ l).
Proof.
  intros Hl. pose proof (lookup_lt_Some _ _ _ Hl) as Hlt. split.
  - intros df.
    destruct (keeps_add_features (length (heap σ)) df σ (le_n _)) as (_ & _ & Hg & Hfresh).
    split; [eapply keeps_lookup; [apply keeps_add_features|done]|].
    split; [done|].
    intros out cols Hout. specialize (Hfresh _ Hout). cbn in Hfresh. lia.
  - intros df cols c seed.
    destruct (keeps_detect_anomalies (length (heap σ)) df cols c seed σ (le_n _))
      as (_ & _ & Hg & Hfresh).
    split; [eapply keeps_lookup; [apply keeps_detect_anomalies|done]|].
    split; [done|].
    intros out Hout. specialize (Hfresh _ Hout). cbn in Hfresh. lia.
Qed.

End Footprint.

(** ** Sorting and the quantile *)

Module np_facts.
Import np.

Lemma insert_sorted_perm x l : Permutation (insert_sorted x l) (x :: l).
Proof.
  induction l as [|y l IH]; [done|]. cbn.
  destruct (Qle_bool x y); [done|].
  rewrite IH. apply perm_swap.
Qed.

Lemma sort_perm l : Permutation (sort l) l.
Proof.
  induction l as [|x l IH]; [done|]. cbn [sort foldr]. fold (sort l).
  by rewrite insert_sorted_perm, IH.
Qed.

Lemma insert_sorted_sorted x l :
  StronglySorted Qle l → StronglySorted Qle (insert_sorted x l).
Proof.
  induction 1 as [|y l Hl IH Hy]; [repeat constructor|]. cbn.
  destruct (Qle_bool x y) eqn:E.
  - apply Qle_bool_iff in E. constructor; [by constructor|].
    constructor; [done|]. eapply Forall_impl; [done|].
    intros z Hz. cbn in Hz. by eapply Qle_trans.
  - assert (y <= x)%Q as Hyx.
    { apply Qlt_le_weak, Qnot_le_lt. intros Hle. apply Qle_bool_iff in Hle. congruence. }
    constructor; [done|].
    eapply Permutation_Forall; [symmetry; apply insert_sorted_perm|].
    by constructor.
Qed.

Lemma sort_sorted l : StronglySorted Qle (sort l).
Proof.
  induction l as [|x l IH]; [constructor|]. cbn [sort foldr]. fold (sort l).
  by apply insert_sorted_sorted.
Qed.

Lemma sort_length l : length (sort l) = length l.
Proof. apply Permutation_length, sort_perm. Qed.

Lemma ge_scalar_length a thr : length (ge_scalar a thr) = length a.
Proof. apply length_fmap. Qed.

(** On a non-empty array and a level in [0, 1] the quantile is a number:
    the interpolation between two neighbours of the sorted array. *)
Lemma quantile_value a q :
  a ≠ [] → (0 <= q)%Q → (q <= 1)%Q →
  np.quantile a q
  = Ok (VFloat (let s := sort a in
                let n := Z.of_nat (length a) in
                let h := (inject_Z (n - 1) * q)%Q in
                let lo := Qfloor h in
                let hi := Z.min (lo + 1) (n - 1) in
                (nth (Z.to_nat lo) s 0 + (nth (Z.to_nat hi) s 0 - nth (Z.to_nat lo) s 0)
                                         * (h - inject_Z lo))%Q)).
Proof.
  intros Ha H0 H1. unfold quantile.
  rewrite (proj2 (Qle_bool_iff 0 q) H0), (proj2 (Qle_bool_iff q 1) H1).
  cbn [andb negb]. by destruct a.
Qed.

End np_facts.

(** ** What [detect_anomalies] returns *)

Section FlagColumns.
Context `{Lib}.

Lemma returns_flags_iff σ df F cols c seed G :
  heap σ !! df = Some F →
  returns_flags σ df cols c seed G ↔ flagged F cols c seed = Ok G.
Proof.
  destruct σ as [h g]. cbn [heap]. intros Hdf.
  destruct (detect_anomalies_run h g df F cols c seed Hdf) as (t & Hrun & Ht).
  split.
  - intros (out & σ' & Hout & HG). rewrite Hrun in Hout.
    destruct (flagged F cols c seed) as [G'|e]; [|done].
    cbn in Hout. injection Hout as <- <-. rewrite (Ht G' eq_refl) in HG.
    cbn in HG. rewrite lookup_app_r, Nat.sub_diag in HG by done. by injection HG as ->.
  - intros HG. rewrite HG in Hrun. rewrite (Ht G HG) in Hrun.
    eexists _, _. split; [done|]. cbn. by rewrite lookup_app_r, Nat.sub_diag.
Qed.

Lemma scores_of_inv F cols c seed scores :
  scores_of F cols c seed = Ok scores →
  check_contamination c = Ok () ∧
  ∃ X Xq, pd.values F cols = Ok X ∧ check_array X = Ok Xq ∧ Xq ≠ [] ∧
          scores = Qopp <$> score_samples (grow (seeded seed) 300 Xq).1 Xq.
Proof.
  unfold scores_of, IsolationForest_score_samples.
  destruct (pd.values F cols) as [X|]; [|done]. cbn [mbind result_bind].
  destruct (check_contamination c) as [[]|]; [|done]. cbn [mbind result_bind].
  destruct (check_array X) as [Xq|] eqn:HX; [|done]. cbn [mbind result_bind].
  intros [= <-]. split; [done|]. exists X, Xq. repeat split; try done.
  intros ->. unfold check_array in HX.
  destruct (mapR (mapR to_float) X) as [[|[|]]|]; done.
Qed.

Lemma check_contamination_inv c :
  check_contamination c = Ok () ↔ (0 < c)%Q ∧ (c <= 1 # 2)%Q.
Proof.
  unfold check_contamination, pd.Qlt_bool.
  destruct (Qle_bool c 0) eqn:E0, (Qle_bool c (1 # 2)) eqn:E1; cbn;
    (split; [try done|intros [H0 H1]]).
  - apply Qle_bool_iff in E0. by apply Qlt_not_le in H0.
  - apply Qle_bool_iff in E0. by apply Qlt_not_le in H0.
  - intros _. split; [|by apply Qle_bool_iff].
    apply Qnot_le_lt. intros Hle. apply Qle_bool_iff in Hle. congruence.
  - done.
  - apply Qle_bool_iff in H1. congruence.
Qed.

Lemma flagged_inv F cols c seed G :
  flagged F cols c seed = Ok G →
  ∃ scores thr F1 F2 rf F3 fl,
    scores_of F cols c seed = Ok scores ∧
    pd.setitem F "anomaly_score" (VFloat <$> scores) = Ok F1 ∧
    np.quantile scores (1 - c) = Ok thr ∧
    pd.setitem F1 "ml_flag" (pd.astype_int (np.ge_scalar scores thr)) = Ok F2 ∧
    rule_flag F2 = Ok rf ∧
    pd.setitem F2 "rule_flag" rf = Ok F3 ∧
    bit_or (pd.astype_int (np.ge_scalar scores thr)) rf = Ok fl ∧
    pd.setitem F3 "final_flag" fl = Ok G.
Proof.
  unfold flagged.
  destruct (scores_of F cols c seed) as [scores|]; [|done]. cbn [mbind result_bind].
  destruct (pd.setitem F "anomaly_score" _) as [F1|] eqn:H1; [|done].
  cbn [mbind result_bind].
  destruct (np.quantile scores (1 - c)) as [thr|] eqn:Hthr; [|done].
  cbn [mbind result_bind].
  destruct (pd.setitem F1 "ml_flag" _) as [F2|] eqn:H2; [|done]. cbn [mbind result_bind].
  destruct (rule_flag F2) as [rf|] eqn:Hrf; [|done]. cbn [mbind result_bind].
  destruct (pd.setitem F2 "rule_flag" rf) as [F3|] eqn:H3; [|done].
  cbn [mbind result_bind].
  rewrite (pd_facts.getitem_setitem_ne F2 "rule_flag" "ml_flag" rf F3 ltac:(discriminate) H3).
  rewrite (pd_facts.getitem_setitem_eq _ _ _ _ H2), (pd_facts.getitem_setitem_eq _ _ _ _ H3).
  cbn [mbind result_bind].
  destruct (bit_or _ rf) as [fl|] eqn:Hfl; [|done]. cbn [mbind result_bind].
  intros HG. exists scores, thr, F1, F2, rf, F3, fl. by repeat split.
Qed.

Lemma compare_lookup op s k bs i v :
  pd.compare op s k = Ok bs → s !! i = Some v →
  ∃ o, pd.to_num v = Ok o ∧ bs !! i = Some (from_option (λ q, op q k) false o).
Proof.
  intros Hc Hi. destruct (mapR_lookup _ _ _ _ _ Hc Hi) as (y & Hy & Hv).
  destruct (pd.to_num v) as [o|]; [|done]. injection Hv as <-. eauto.
Qed.

Lemma exceeds_iff v k o :
  pd.to_num v = Ok o →
  from_option (λ q, Qgt_bool q k) false o = true ↔ exceeds v k.
Proof.
  intros Hv. unfold exceeds. rewrite Hv. destruct o as [q|]; cbn.
  - unfold Qgt_bool, pd.Qlt_bool. rewrite negb_true_iff. split.
    + intros E. exists q. split; [done|]. apply Qnot_le_lt.
      intros Hle. apply Qle_bool_iff in Hle. congruence.
    + intros (q' & [= <-] & Hlt). destruct (Qle_bool q k) eqn:E; [|done].
      apply Qle_bool_iff in E. by apply Qlt_not_le in Hlt.
  - split; [done|]. by intros (q & ? & _).
Qed.

Lemma reaches_iff v k o :
  pd.to_num v = Ok o →
  from_option (λ q, Qge_bool q k) false o = true ↔ reaches v k.
Proof.
  intros Hv. unfold reaches. rewrite Hv. destruct o as [q|]; cbn.
  - unfold Qge_bool. rewrite Qle_bool_iff. split.
    + intros Hle. by exists q.
    + by intros (q' & [= <-] & Hle).
  - split; [done|]. by intros (q & ? & _).
Qed.

(** The rule column, row by row. *)
Lemma rule_flag_lookup F rf i :
  rule_flag F = Ok rf → (i < length rf)%nat →
  ∃ fr ips (p q : bool),
    pd.cell F "fail_ratio" i = Some fr ∧ pd.cell F "uniq_ips" i = Some ips ∧
    rf !! i = Some (VInt (Z.b2z (p && q))) ∧
    (p = true ↔ exceeds fr (8 # 10)) ∧ (q = true ↔ reaches ips 5).
Proof.
  unfold rule_flag, pd.getitem, pd.cell.
  destruct (pd.lookup_col "fail_ratio" (columns F)) as [s1|]; [|done].
  destruct (pd.lookup_col "uniq_ips" (columns F)) as [s2|]; [|done].
  cbn [mbind result_bind].
  destruct (pd.compare Qgt_bool s1 (8 # 10)) as [a|] eqn:Ha; [|done].
  cbn [mbind result_bind].
  destruct (pd.compare Qge_bool s2 5) as [b|] eqn:Hb; [|done].
  cbn [mbind result_bind]. intros [= <-] Hi.
  unfold pd.astype_int in *. rewrite length_fmap, length_zip_with in Hi.
  pose proof (mapR_length _ _ _ Ha) as Hla. pose proof (mapR_length _ _ _ Hb) as Hlb.
  destruct (lookup_lt_is_Some_2 s1 i) as [fr Hfr]; [lia|].
  destruct (lookup_lt_is_Some_2 s2 i) as [ips Hips]; [lia|].
  destruct (compare_lookup _ _ _ _ _ _ Ha Hfr) as (o1 & Ho1 & Hp).
  destruct (compare_lookup _ _ _ _ _ _ Hb Hips) as (o2 & Ho2 & Hq).
  exists fr, ips, (from_option (λ q, Qgt_bool q (8 # 10)) false o1),
    (from_option (λ q, Qge_bool q 5) false o2).
  repeat split; try done.
  - rewrite list_lookup_fmap, lookup_zip_with, Hp, Hq. cbn. by destruct (_ && _).
  - by apply exceeds_iff.
  - by apply exceeds_iff.
  - by apply reaches_iff.
  - by apply reaches_iff.
Qed.

Lemma rule_flag_ext F F' :
  pd.getitem F' "fail_ratio" = pd.getitem F "fail_ratio" →
  pd.getitem F' "uniq_ips" = pd.getitem F "uniq_ips" →
  rule_flag F' = rule_flag F.
Proof. intros H1 H2. unfold rule_flag. by rewrite H1, H2. Qed.

Lemma cell_getitem F F' c i :
  pd.getitem F' c = pd.getitem F c → pd.cell F' c i = pd.cell F c i.
Proof.
  unfold pd.getitem, pd.cell.
  destruct (pd.lookup_col c (columns F')), (pd.lookup_col c (columns F)); try done.
  by intros [= ->].
Qed.

End FlagColumns.

Section FlagTheorems.
Context `{Lib}.

Lemma cell_of_getitem F c s i : pd.getitem F c = Ok s → pd.cell F c i = s !! i.
Proof.
  unfold pd.getitem, pd.cell. destruct (pd.lookup_col c (columns F)); [|done].
  by intros [= ->].
Qed.

(** The four columns that [detect_anomalies] adds. *)
Lemma flagged_columns F cols c seed G :
  flagged F cols c seed = Ok G →
  ∃ scores thr rf fl,
    scores_of F cols c seed = Ok scores ∧
    np.quantile scores (1 - c) = Ok thr ∧
    rule_flag F = Ok rf ∧
    bit_or (pd.astype_int (np.ge_scalar scores thr)) rf = Ok fl ∧
    nrows G = nrows F ∧ length scores = nrows F ∧ length rf = nrows F ∧
    pd.getitem G "anomaly_score" = Ok (VFloat <$> scores) ∧
    pd.getitem G "ml_flag" = Ok (pd.astype_int (np.ge_scalar scores thr)) ∧
    pd.getitem G "rule_flag" = Ok rf ∧
    pd.getitem G "final_flag" = Ok fl.
Proof.
  intros (scores & thr & F1 & F2 & rf & F3 & fl & Hs & H1 & Hthr & H2 & Hrf & H3 & Hfl & H4)
    %flagged_inv.
  exists scores, thr, rf, fl.
  pose proof (pd_facts.setitem_inv _ _ _ _ H1) as [Hl1 _].
  pose proof (pd_facts.setitem_inv _ _ _ _ H3) as [Hl3 _].
  pose proof (pd_facts.nrows_setitem _ _ _ _ H1) as Hn1.
  pose proof (pd_facts.nrows_setitem _ _ _ _ H2) as Hn2.
  pose proof (pd_facts.nrows_setitem _ _ _ _ H3) as Hn3.
  pose proof (pd_facts.nrows_setitem _ _ _ _ H4) as Hn4.
  rewrite length_fmap in Hl1.
  assert (rule_flag F2 = rule_flag F) as Hext.
  { apply rule_flag_ext.
    - rewrite (pd_facts.getitem_setitem_ne _ "ml_flag" "fail_ratio" _ _
                 ltac:(discriminate) H2).
      by rewrite (pd_facts.getitem_setitem_ne _ "anomaly_score" "fail_ratio" _ _
                    ltac:(discriminate) H1).
    - rewrite (pd_facts.getitem_setitem_ne _ "ml_flag" "uniq_ips" _ _
                 ltac:(discriminate) H2).
      by rewrite (pd_facts.getitem_setitem_ne _ "anomaly_score" "uniq_ips" _ _
                    ltac:(discriminate) H1). }
  repeat split; try done; try congruence.
  - rewrite (pd_facts.getitem_setitem_ne _ "final_flag" "anomaly_score" _ _
               ltac:(discriminate) H4).
    rewrite (pd_facts.getitem_setitem_ne _ "rule_flag" "anomaly_score" _ _
               ltac:(discriminate) H3).
    rewrite (pd_facts.getitem_setitem_ne _ "ml_flag" "anomaly_score" _ _
               ltac:(discriminate) H2).
    by rewrite (pd_facts.getitem_setitem_eq _ _ _ _ H1).
  - rewrite (pd_facts.getitem_setitem_ne _ "final_flag" "ml_flag" _ _
               ltac:(discriminate) H4).
    rewrite (pd_facts.getitem_setitem_ne _ "rule_flag" "ml_flag" _ _
               ltac:(discriminate) H3).
    by rewrite (pd_facts.getitem_setitem_eq _ _ _ _ H2).
  - rewrite (pd_facts.getitem_setitem_ne _ "final_flag" "rule_flag" _ _
               ltac:(discriminate) H4).
    by rewrite (pd_facts.getitem_setitem_eq _ _ _ _ H3).
  - by rewrite (pd_facts.getitem_setitem_eq _ _ _ _ H4).
Qed.


Lemma bit_or_lookup a b fl i (x y : bool) :
  bit_or a b = Ok fl →
  a !! i = Some (VInt (Z.b2z x)) → b !! i = Some (VInt (Z.b2z y)) →
  fl !! i = Some (VInt (Z.b2z (x || y))).
Proof.
  intros Hfl Ha Hb. unfold bit_or in Hfl.
  assert (zip a b !! i = Some (VInt (Z.b2z x), VInt (Z.b2z y))) as Hz.
  { rewrite lookup_zip_with. by rewrite Ha, Hb. }
  destruct (mapR_lookup _ _ _ _ _ Hfl Hz) as (v & -> & [= <-]).
  by destruct x, y.
Qed.


(** C8. The frame that [detect_anomalies] returns is a function of the
    frame it is given, the feature columns, the contamination rate and the
    seed: two calls that agree on these return frames with identical
    scores and flags (or raise the same exception), whatever else the two
    heaps hold and whatever the states of numpy's global generator. *)
Theorem same_seed_same_flags σ1 σ2 df1 df2 F cols c seed :
  heap σ1 !! df1 = Some F →
  heap σ2 !! df2 = Some F →
  match (detect_anomalies df1 cols c seed σ1).1,
        (detect_anomalies df2 cols c seed σ2).1 with
  | Ok out1, Ok out2 =>
      ∃ G, heap (detect_anomalies df1 cols c seed σ1).2 !! out1 = Some G ∧
           heap (detect_anomalies df2 cols c seed σ2).2 !! out2 = Some G
  | Raise e1, Raise e2 => e1 = e2
  | _, _ => False
  end.
Proof.
  destruct σ1 as [h1 g1], σ2 as [h2 g2]. cbn [heap]. intros H1 H2.
  destruct (detect_anomalies_run h1 g1 df1 F cols c seed H1) as (t1 & -> & Ht1).
  destruct (detect_anomalies_run h2 g2 df2 F cols c seed H2) as (t2 & -> & Ht2).
  destruct (flagged F cols c seed) as [G|e]; cbn; [|done].
  rewrite (Ht1 G eq_refl), (Ht2 G eq_refl). exists G.
  by rewrite !lookup_app_r, !Nat.sub_diag.
Qed.

End FlagTheorems.

(** ** When [detect_anomalies] raises *)

Section Validation.
Context `{Lib}.

Lemma mapR_numbers l :
  Forall is_number l → ∃ r, mapR to_float l = Ok r.
Proof.
  induction 1 as [|v l Hv _ [r IH]]; [by exists []|].
  cbn. rewrite IH. destruct v; try done; eauto.
Qed.

(** The rows of numeric columns of equal length pass [check_array]'s
    conversion to floats. *)
Lemma transpose_numbers n ss :
  Forall (λ s, length s = n ∧ Forall is_number s) ss →
  ∃ Xq, mapR (mapR to_float) (pd.transpose n ss) = Ok Xq ∧
        length Xq = n ∧ Forall (λ r, length r = length ss) Xq.
Proof.
  revert ss. induction n as [|n IH]; intros ss Hss; [by exists []|].
  cbn [pd.transpose mapR].
  destruct (mapR_numbers ((λ s, default NaN (head s)) <$> ss)) as [r Hr].
  { apply Forall_fmap. eapply Forall_impl; [done|]. cbn.
    intros [|v s] [Hlen Hnum]; [done|]. by apply Forall_cons in Hnum as [? _]. }
  destruct (IH (tail <$> ss)) as (Xq & HXq & Hlen & Hrows).
  { apply Forall_fmap. eapply Forall_impl; [done|]. cbn.
    intros [|v s] [Hlen Hnum]; [done|]. cbn in *.
    split; [lia|]. by apply Forall_cons in Hnum as [_ ?]. }
  rewrite Hr, HXq. exists (r :: Xq). repeat split; [by cbn; rewrite Hlen|].
  constructor.
  - apply mapR_length in Hr. by rewrite length_fmap in Hr.
  - by rewrite length_fmap in Hrows.
Qed.

Lemma numbers_fmap {A} (f : A → value) (l : list A) :
  (∀ x, is_number (f x)) → Forall is_number (f <$> l).
Proof. intros Hf. apply Forall_fmap, Forall_forall. intros x _. apply Hf. Qed.

Lemma values_featured evs :
  pd.values (featured evs) feat_cols
  = Ok (pd.transpose (length evs) (feature_series evs)).
Proof. reflexivity. Qed.

Lemma check_array_featured evs :
  evs ≠ [] →
  ∃ Xq, check_array (pd.transpose (length evs) (feature_series evs)) = Ok Xq ∧
        length Xq = length evs.
Proof.
  intros Hne.
  destruct (transpose_numbers (length evs) (feature_series evs)) as (Xq & HXq & Hlen & Hrows).
  { unfold feature_series. repeat apply Forall_cons_2; try apply Forall_nil_2;
      (split; [by rewrite ?length_fmap, ?cursor_loop_length; unfold cursor_rows;
                  rewrite ?length_fmap
              |by apply numbers_fmap]). }
  exists Xq. split; [|done]. unfold check_array. rewrite HXq. cbn [mbind result_bind].
  destruct Xq as [|r Xq]; [by destruct evs|].
  apply Forall_cons in Hrows as [Hr _]. by destruct r.
Qed.


Lemma compare_fmap_float {A} op (g : A → Q) (l : list A) k :
  pd.compare op ((λ x, VFloat (g x)) <$> l) k = Ok ((λ x, op (g x) k) <$> l).
Proof.
  unfold pd.compare.
  by apply (mapR_fmap_ok _ (λ x, VFloat (g x)) (λ x, op (g x) k)).
Qed.

Lemma rule_flag_featured evs :
  ∃ rf, rule_flag (featured evs) = Ok (pd.astype_int rf) ∧ length rf = length evs.
Proof.
  eexists. split.
  - unfold rule_flag.
    eapply getitem_then; [reflexivity|].
    eapply getitem_then; [reflexivity|].
    rewrite compare_fmap_float. cbn [mbind result_bind].
    rewrite compare_fmap. cbn [mbind result_bind]. reflexivity.
  - by rewrite length_zip_with, !length_fmap, Nat.min_id.
Qed.

Lemma bit_or_astype (a b : list bool) :
  bit_or (pd.astype_int a) (pd.astype_int b) = Ok (pd.astype_int (zip_with orb a b)).
Proof.
  unfold bit_or. revert b. induction a as [|x a IH]; intros [|y b]; try done.
  cbn. specialize (IH b). unfold pd.astype_int in IH. rewrite IH. by destruct x, y.
Qed.

(** On the feature frame of a non-empty batch and a contamination rate in
    (0, 0.5], every step succeeds. *)
Lemma flagged_featured evs c seed :
  evs ≠ [] → (0 < c)%Q → (c <= 1 # 2)%Q →
  ∃ G, flagged (featured evs) feat_cols c seed = Ok G.
Proof.
  intros Hne Hc0 Hc1.
  destruct (check_array_featured evs Hne) as (Xq & HXq & HlenX).
  set (scores := Qopp <$> score_samples (grow (seeded seed) 300 Xq).1 Xq).
  assert (length scores = length evs) as Hls.
  { unfold scores. by rewrite length_fmap, score_samples_length. }
  assert (scores_of (featured evs) feat_cols c seed = Ok scores) as Hs.
  { unfold scores_of, IsolationForest_score_samples. rewrite values_featured.
    cbn [mbind result_bind].
    rewrite (proj2 (check_contamination_inv c) (conj Hc0 Hc1)).
    cbn [mbind result_bind]. by rewrite HXq. }
  assert (scores ≠ []) as Hsne.
  { intros Hnil. rewrite Hnil in Hls. by destruct evs. }
  pose proof (np_facts.quantile_value scores (1 - c) Hsne
                ltac:(Lqa.lra) ltac:(Lqa.lra)) as Hthr.
  match type of Hthr with _ = Ok ?t => set (thr := t) in * end.
  destruct (rule_flag_featured evs) as (rf & Hrf & Hlrf).
  set (ml := np.ge_scalar scores thr).
  pose proof (pd_facts.setitem_ok (featured evs) "anomaly_score" (VFloat <$> scores)
                ltac:(by rewrite length_fmap)) as H1.
  match type of H1 with _ = Ok ?F => set (F1 := F) in * end.
  pose proof (pd_facts.setitem_ok F1 "ml_flag" (pd.astype_int ml)
                ltac:(by unfold pd.astype_int, ml; rewrite length_fmap,
                           np_facts.ge_scalar_length)) as H2.
  match type of H2 with _ = Ok ?F => set (F2 := F) in * end.
  assert (rule_flag F2 = Ok (pd.astype_int rf)) as Hrf2.
  { rewrite <- Hrf. apply rule_flag_ext.
    - rewrite (pd_facts.getitem_setitem_ne _ "ml_flag" "fail_ratio" _ _
                 ltac:(discriminate) H2).
      by rewrite (pd_facts.getitem_setitem_ne _ "anomaly_score" "fail_ratio" _ _
                    ltac:(discriminate) H1).
    - rewrite (pd_facts.getitem_setitem_ne _ "ml_flag" "uniq_ips" _ _
                 ltac:(discriminate) H2).
      by rewrite (pd_facts.getitem_setitem_ne _ "anomaly_score" "uniq_ips" _ _
                    ltac:(discriminate) H1). }
  pose proof (pd_facts.setitem_ok F2 "rule_flag" (pd.astype_int rf)
                ltac:(by unfold pd.astype_int; rewrite length_fmap)) as H3.
  match type of H3 with _ = Ok ?F => set (F3 := F) in * end.
  pose proof (pd_facts.setitem_ok F3 "final_flag" (pd.astype_int (zip_with orb ml rf))
                ltac:(by unfold pd.astype_int, ml;
                         rewrite length_fmap, length_zip_with,
                           np_facts.ge_scalar_length, Hlrf, Hls, Nat.min_id)) as H4.
  eexists. unfold flagged. rewrite Hs. cbn [mbind result_bind].
  rewrite H1. cbn [mbind result_bind]. rewrite Hthr. cbn [mbind result_bind].
  fold ml. rewrite H2. cbn [mbind result_bind]. rewrite Hrf2. cbn [mbind result_bind].
  rewrite H3. cbn [mbind result_bind].
  rewrite (pd_facts.getitem_setitem_ne _ "rule_flag" "ml_flag" _ _ ltac:(discriminate) H3).
  rewrite (pd_facts.getitem_setitem_eq _ _ _ _ H2), (pd_facts.getitem_setitem_eq _ _ _ _ H3).
  cbn [mbind result_bind]. rewrite bit_or_astype. cbn [mbind result_bind].
  exact H4.
Qed.


End Validation.

(** ** The engine's scores *)

Module Engine_facts.
Import Stdlib.Reals.Reals.
Import Stdlib.micromega.Lra.
Import Engine.
Local Open Scope R_scope.

Lemma H_pos i : (1 ≤ i)%nat → 5772 / 10000 <= H i.
Proof.
  intros Hi. destruct i as [|i]; [lia|]. cbn [H].
  assert (0 <= ln (INR (S i))) as Hln.
  { rewrite <- ln_1. destruct (Req_dec 1 (INR (S i))) as [<-|Hne]; [lra|].
    apply Rlt_le, ln_increasing; [lra|].
    assert (1 <= INR (S i)) by (change 1 with (INR 1); apply le_INR; lia). lra. }
  Lra.lra.
Qed.

Lemma c_pos m : (2 ≤ m)%nat → 0 < c m.
Proof.
  intros Hm. unfold c. rewrite (proj2 (Nat.ltb_lt 1 m)) by lia.
  assert (2 <= INR m) as Hm2 by (change 2 with (INR 2); apply le_INR; lia).
  assert (2 * (INR m - 1) / INR m = 2 - 2 / INR m) as -> by (field; lra).
  destruct (decide (m = 2%nat)) as [->|Hne].
  - cbn [Nat.sub H INR]. rewrite ln_1. lra.
  - assert (3 ≤ m)%nat as Hm3 by lia.
    assert (H (m - 1) = ln (INR (m - 1)) + 5772 / 10000) as ->.
    { destruct (m - 1)%nat eqn:E; [lia|done]. }
    assert (ln 2 <= ln (INR (m - 1))) as Hln.
    { assert (2 <= INR (m - 1)) as H2 by (change 2 with (INR 2); apply le_INR; lia).
      destruct (Req_dec 2 (INR (m - 1))) as [<-|Hne2]; [lra|].
      apply Rlt_le, ln_increasing; lra. }
    pose proof ln_lt_2 as Hln2.
    assert (0 < 2 / INR m) by (apply Rdiv_lt_0_compat; lra).
    lra.
Qed.

Lemma c_nonneg m : 0 <= c m.
Proof.
  destruct (decide (2 ≤ m)%nat) as [Hm|Hm]; [by apply Rlt_le, c_pos|].
  unfold c. rewrite (proj2 (Nat.ltb_ge 1 m)) by lia. lra.
Qed.

Lemma path_length_nonneg x t : 0 <= path_length x t.
Proof.
  induction t as [size|f thr l IHl r IHr]; cbn [path_length].
  - destruct (1 <? size)%nat; [apply c_nonneg|lra].
  - destruct (Rlt_dec _ _); lra.
Qed.

Lemma Rsum_nonneg l : Forall (λ y, 0 <= y) l → 0 <= Rsum l.
Proof. unfold Rsum. induction 1 as [|y l Hy _ IH]; cbn [foldr]; lra. Qed.

Lemma avg_path_length_nonneg forest x :
  (1 ≤ length (trees forest))%nat → 0 <= avg_path_length forest x.
Proof.
  intros Hn. unfold avg_path_length.
  assert (1 <= INR (length (trees forest))) as Hlen
    by (change 1 with (INR 1); by apply le_INR).
  apply Rmult_le_pos.
  - apply Rsum_nonneg, Forall_fmap, Forall_forall. intros t _. apply path_length_nonneg.
  - apply Rlt_le, Rinv_0_lt_compat. lra.
Qed.

Lemma Rpower_2_nonpos y : y <= 0 → 0 < Rpower 2 y <= 1.
Proof.
  intros Hy. unfold Rpower. split; [apply exp_pos|].
  pose proof ln_lt_2 as Hln2.
  assert (y * ln 2 <= 0) as Hle.
  { replace 0 with (0 * ln 2) by lra. apply Rmult_le_compat_r; lra. }
  rewrite <- exp_0. destruct (Req_dec (y * ln 2) 0) as [->|Hne]; [lra|].
  apply Rlt_le, exp_increasing. lra.
Qed.

(** C9. For every forest of at least one tree built on subsamples of at
    least two points, and every batch of vectors, scoring returns one
    score per vector, in the order of the vectors; the score of a vector
    is [2 ^ (- avg_path_length / c(subsample_size))] and lies in (0, 1]. *)
Theorem scores_in_unit_interval forest (vectors : list (list R)) :
  (1 ≤ length (trees forest))%nat →
  (2 ≤ subsample_size forest)%nat →
  length (score forest vectors) = length vectors ∧
  ∀ i x, vectors !! i = Some x →
    score forest vectors !! i
    = Some (Rpower 2 (- avg_path_length forest x / c (subsample_size forest))) ∧
    0 < Rpower 2 (- avg_path_length forest x / c (subsample_size forest)) <= 1.
Proof.
  intros Htrees Hsub. unfold score. split; [apply length_fmap|].
  intros i x Hi. split; [by rewrite list_lookup_fmap, Hi|].
  apply Rpower_2_nonpos.
  pose proof (avg_path_length_nonneg forest x Htrees) as Havg.
  pose proof (c_pos _ Hsub) as Hc.
  assert (0 <= avg_path_length forest x / c (subsample_size forest)).
  { apply Rmult_le_pos; [done|]. by apply Rlt_le, Rinv_0_lt_compat. }
  lra.
Qed.

Lemma scores_in_unit_interval_witness :
  length (score demo_forest [[1; 0]; [5; 2]]) = 2%nat ∧
  ∀ i x, [[1; 0]; [5; 2]] !! i = Some x →
    score demo_forest [[1; 0]; [5; 2]] !! i
    = Some (Rpower 2 (- avg_path_length demo_forest x / c 4)) ∧
    0 < Rpower 2 (- avg_path_length demo_forest x / c 4) <= 1.
Proof.
  apply (scores_in_unit_interval demo_forest [[1; 0]; [5; 2]]); cbn; lia.
Defined.

End Engine_facts.

(** ** The layout of the feature frame *)

Section Layout.
Context `{Lib}.

(** X1. On every log, [add_features] returns a frame with one row per event,
    in the order of the log: the six columns of the log are unchanged, the
    fifteen derived columns follow them in a fixed order, and every
    feature column holds a number in every row, never a missing value. *)
Theorem feature_frame_layout σ df evs :
  heap σ !! df = Some (frame_of_events evs) →
  ∃ F, returns_features σ df F ∧
    nrows F = length evs ∧
    (columns F).*1 = (log_cols ++ derived_cols)%list ∧
    Forall (λ c, pd.getitem F c = pd.getitem (frame_of_events evs) c) log_cols ∧
    Forall (λ c, ∃ s, pd.getitem F c = Ok s ∧ length s = length evs ∧
                      Forall is_number s) feat_cols.
Proof.
  intros Hdf. exists (featured evs). split; [by apply add_features_returns|].
  split; [done|]. split; [done|]. split.
  - unfold log_cols. by repeat apply Forall_cons_2; try apply Forall_nil_2.
  - unfold feat_cols.
    repeat apply Forall_cons_2; try apply Forall_nil_2;
      (eexists; split; [reflexivity|]; split;
       [ by rewrite ?length_fmap, ?cursor_loop_length; unfold cursor_rows;
            rewrite ?length_fmap
       | by apply numbers_fmap ]).
Qed.

End Layout.

(** ** Bounds on the counts of a feature frame *)

Section Bounds.
Context `{Lib}.









Lemma pair_count_bounds (P : LoginEvent → Prop) `{∀ e, Decision (P e)} evs e :
  e ∈ evs → P e → 1 ≤ Z.of_nat (length (filter P evs)) ≤ Z.of_nat (length evs).
Proof.
  intros He HP. pose proof (length_filter P evs) as Hle.
  assert (e ∈ filter P evs) as Hin by (by apply list_elem_of_filter).
  destruct (filter P evs); [by apply elem_of_nil in Hin|]. cbn [length] in *. lia.
Qed.

(** X3. The (user, country) and (user, device) counts of a row are at least 1,
    the row itself, and at most the size of the log: the left joins always
    find their group, no count is missing, and a rarity flag is 1 exactly
    for the counts 1 and 2. *)
Theorem pair_counts_bounds σ df evs :
  heap σ !! df = Some (frame_of_events evs) →
  ∃ F, returns_features σ df F ∧
    ∀ i e, evs !! i = Some e →
      ∃ uc ud,
        pd.cell F "uc_count" i = Some (VInt uc) ∧
        pd.cell F "ud_count" i = Some (VInt ud) ∧
        1 ≤ uc ≤ Z.of_nat (length evs) ∧ 1 ≤ ud ≤ Z.of_nat (length evs) ∧
        pd.cell F "rare_country_for_user" i
          = Some (VInt (if decide (uc = 1 ∨ uc = 2) then 1 else 0)) ∧
        pd.cell F "rare_device_for_user" i
          = Some (VInt (if decide (ud = 1 ∨ ud = 2) then 1 else 0)).
Proof.
  intros Hdf. exists (featured evs). split; [by apply add_features_returns|].
  intros i e Hi.
  assert (e ∈ evs) as He by (by eapply list_elem_of_lookup_2).
  assert (1 ≤ uc_count evs e ≤ Z.of_nat (length evs)) as Huc
    by (by apply (pair_count_bounds _ evs e)).
  assert (1 ≤ ud_count evs e ≤ Z.of_nat (length evs)) as Hud
    by (by apply (pair_count_bounds _ evs e)).
  exists (uc_count evs e), (ud_count evs e).
  split; [by apply (cell_fmap _ _ (λ e, VInt (uc_count evs e)) evs)|].
  split; [by apply (cell_fmap _ _ (λ e, VInt (ud_count evs e)) evs)|].
  split; [done|]. split; [done|]. split.
  - rewrite (cell_fmap _ _ (λ e, VInt (if uc_count evs e <? 3 then 1 else 0)) evs i e)
      by done.
    do 2 f_equal. destruct (Z.ltb_spec (uc_count evs e) 3), (decide _); (done || lia).
  - rewrite (cell_fmap _ _ (λ e, VInt (if ud_count evs e <? 3 then 1 else 0)) evs i e)
      by done.
    do 2 f_equal. destruct (Z.ltb_spec (ud_count evs e) 3), (decide _); (done || lia).
Qed.

Lemma sec_of_mono a b : a ≤ b → pd.sec_of a ≤ pd.sec_of b.
Proof. intros Hab. unfold pd.sec_of, pd.ns_per_sec. by apply Z.div_le_mono. Qed.

Lemma prior_success_before evs i u p :
  prior_success evs i u = Some p →
  ∃ j e', (j < i)%nat ∧ evs !! j = Some e' ∧ p = pd.sec_of (ts e').
Proof.
  unfold prior_success. intros Hlast.
  assert (p ∈ (λ e, pd.sec_of (ts e)) <$>
                filter (λ e, user e = u ∧ success e = 1) (take i evs)) as Hin.
  { apply last_Some in Hlast as [l' ->]. apply elem_of_app. right. left. }
  apply list_elem_of_fmap in Hin as (e' & -> & Hin).
  apply list_elem_of_filter in Hin as [_ Hin].
  apply list_elem_of_lookup in Hin as [j Hj].
  exists j, e'. apply lookup_take_Some in Hj as [Hj Hlt]. done.
Qed.

Lemma cursor_loop_nonneg evs :
  (∀ i j e e', (i ≤ j)%nat → evs !! i = Some e → evs !! j = Some e' → ts e ≤ ts e') →
  Forall (λ d, 0 ≤ d) (cursor_loop (cursor_rows evs) ∅).
Proof.
  intros Hsorted. apply Forall_lookup. intros i d Hd.
  pose proof (cursor_loop_lookup evs ∅ i) as Hloop. rewrite Hd in Hloop.
  destruct (evs !! i) as [e|] eqn:He; [|done].
  cbn [fmap option_fmap option_map] in Hloop. rewrite lookup_empty in Hloop.
  injection Hloop as ->.
  destruct (prior_success evs i (user e)) as [p|] eqn:Hp; [|done].
  apply prior_success_before in Hp as (j & e' & Hji & Hj & ->).
  pose proof (sec_of_mono (ts e') (ts e) (Hsorted j i e' e ltac:(lia) Hj He)). lia.
Qed.

(** X4. On a log whose rows are in ascending order of time, no
    [secs_since_last_success] is negative. *)
Theorem cursor_nonnegative_on_sorted σ df evs :
  heap σ !! df = Some (frame_of_events evs) →
  (∀ i j e e', (i ≤ j)%nat → evs !! i = Some e → evs !! j = Some e' → ts e ≤ ts e') →
  ∃ F, returns_features σ df F ∧
    ∀ i, (i < length evs)%nat →
      ∃ d, pd.cell F "secs_since_last_success" i = Some (VFloat (inject_Z d)) ∧ 0 ≤ d.
Proof.
  intros Hdf Hsorted. exists (featured evs). split; [by apply add_features_returns|].
  intros i Hi.
  destruct (lookup_lt_is_Some_2 (cursor_loop (cursor_rows evs) ∅) i) as [d Hd].
  { unfold cursor_rows. by rewrite cursor_loop_length, length_fmap. }
  exists d. split.
  - rewrite (cell_lookup (featured evs) "secs_since_last_success"
               ((λ d, VFloat (inject_Z d)) <$> cursor_loop (cursor_rows evs) ∅))
      by done.
    by rewrite list_lookup_fmap, Hd.
  - by eapply Forall_lookup_1 in Hd; [|by apply cursor_loop_nonneg].
Qed.

End Bounds.

(** ** Frames that [add_features] refuses *)

Section Refused.
Context `{Lib}.
Import pd.

Lemma assign_then {B} h t g l k F c f (rest : unit → M B) :
  l = (length h + k)%nat → t !! k = Some F →
  (assign l c f ≫= rest) (mkState (h ++ t) g)
  = match s ← f F; setitem F c s with
    | Ok F' => rest () (mkState (h ++ <[k := F']> t) g)
    | Raise e => (Raise e, mkState (h ++ t) g)
    end.
Proof.
  intros Hl Hk. rewrite bind_run, (assign_run h t g l k F c f Hl Hk).
  by destruct (s ← f F; setitem F c s).
Qed.

Lemma read_then {A B} h t g l k F (f : DataFrame → result A) (rest : A → M B) :
  l = (length h + k)%nat → t !! k = Some F →
  (read l f ≫= rest) (mkState (h ++ t) g)
  = match f F with
    | Ok a => rest a (mkState (h ++ t) g)
    | Raise e => (Raise e, mkState (h ++ t) g)
    end.
Proof.
  intros Hl Hk. rewrite bind_run. unfold read.
  rewrite (bind_ok _ _ _ _ _ (load_app _ _ _ _ _ _ Hl Hk)). unfold lift.
  by destruct (f F).
Qed.

Lemma derive_raise h t g l k F f e :
  l = (length h + k)%nat → t !! k = Some F → f F = Raise e →
  derive l f (mkState (h ++ t) g) = (Raise e, mkState (h ++ t) g).
Proof.
  intros Hl Hk Hf. unfold derive.
  rewrite (bind_ok _ _ _ _ _ (load_app _ _ _ _ _ _ Hl Hk)).
  apply bind_raise. unfold lift. by rewrite Hf.
Qed.

(** Assigning a column leaves the other columns where they are. *)
Lemma assigned_other F c (r : result Series) F' c0 :
  (s ← r; setitem F c s) = Ok F' → c0 ≠ c →
  lookup_col c0 (columns F') = lookup_col c0 (columns F).
Proof.
  intros HF' Hne. destruct r as [s|]; [|done]. cbn in HF'.
  apply pd_facts.setitem_inv in HF' as [_ ->]. cbn [columns].
  by apply pd_facts.lookup_replace_ne.
Qed.

Lemma minute_agg_needs F c :
  c ∈ ["user"; "device"; "ip"; "country"; "success"] →
  lookup_col c (columns F) = None → ∃ e, minute_agg F = Raise e.
Proof.
  intros Hc Hnone. unfold minute_agg, keys2, getitem.
  repeat (apply elem_of_cons in Hc as [->|Hc]); [..|by apply elem_of_nil in Hc];
    rewrite ?Hnone;
    repeat (match goal with
            | |- context [lookup_col ?c ?cols] => destruct (lookup_col c cols)
            end; cbn [mbind result_bind]; try by eexists).
Qed.

(** X5. [add_features] needs the six columns of the log: on a frame that
    lacks one of them it raises, a KeyError when the column is [ts],
    and returns no frame. *)
Theorem add_features_needs_log_columns σ df F c :
  heap σ !! df = Some F →
  c ∈ log_cols →
  lookup_col c (columns F) = None →
  ∃ e σ', add_features df σ = (Raise e, σ') ∧ (c = "ts" → e = KeyError).
Proof.
  intros Hdf Hc Hnone. destruct σ as [h g]. cbn [heap] in Hdf.
  unfold add_features.
  replace (mkState h g) with (mkState (h ++ []) g) by (by rewrite app_nil_r).
  rewrite (bind_ok _ _ _ _ _ (copy_old h [] g df _ Hdf)).
  cbn [app length]. rewrite (assign_then h [F] g _ 0 F) by done.
  apply elem_of_cons in Hc as [->|Hc].
  { unfold getitem at 1. rewrite Hnone. cbn [mbind result_bind]. by eexists _, _. }
  assert (c ≠ "ts") as Hts.
  { intros ->. repeat (apply elem_of_cons in Hc as [?|Hc]; [done|]).
    by apply elem_of_nil in Hc. }
  assert (∀ (e' : exn) (σ' : state),
            ∃ e σ'', (Raise e' : result (nat * list string), σ') = (Raise e, σ'') ∧
                     (c = "ts" → e = KeyError)) as Hraise
    by (intros e' σ'; by exists e', σ').
  destruct (s ← _; setitem F "minute" s) as [F1|e1] eqn:E1; [|apply Hraise].
  cbn [insert list_insert]. rewrite (assign_then h [F1] g _ 0 F1) by done.
  destruct (s ← _; setitem F1 "hour" s) as [F2|e2] eqn:E2; [|apply Hraise].
  cbn [insert list_insert]. rewrite (assign_then h [F2] g _ 0 F2) by done.
  destruct (s ← _; setitem F2 "hour_sin" s) as [F3|e3] eqn:E3; [|apply Hraise].
  cbn [insert list_insert]. rewrite (assign_then h [F3] g _ 0 F3) by done.
  destruct (s ← _; setitem F3 "hour_cos" s) as [F4|e4] eqn:E4; [|apply Hraise].
  cbn [insert list_insert]. rewrite (read_then h [F4] g _ 0 F4) by done.
  assert (lookup_col c (columns F4) = None) as Hnone4.
  { assert (c ≠ "minute" ∧ c ≠ "hour" ∧ c ≠ "hour_sin" ∧ c ≠ "hour_cos") as (?&?&?&?).
    { repeat (apply elem_of_cons in Hc as [->|Hc]; [done|]).
      by apply elem_of_nil in Hc. }
    rewrite (assigned_other _ _ _ _ c E4), (assigned_other _ _ _ _ c E3),
      (assigned_other _ _ _ _ c E2), (assigned_other _ _ _ _ c E1); done. }
  destruct (minute_agg_needs F4 c) as [e He]; [set_solver|done|].
  rewrite He. apply Hraise.
Qed.

End Refused.

(** ** [add_features] on its own result *)

Section Twice.
Context `{Lib}.
Import pd group_facts.

Lemma merge_left_cols F a b ka kb t names :
  lookup_col a (columns F) = Some ka → lookup_col b (columns F) = Some kb →
  merge_left F a b t names
  = Ok (mkDataFrame (nrows F)
          (((λ cs : string * Series,
               (if bool_decide (cs.1 ∈ names) then cs.1 +:+ "_x" else cs.1, cs.2))
              <$> columns F)
           ++ ((λ cs : string * Series,
                  (if has_col F cs.1 then cs.1 +:+ "_y" else cs.1, cs.2))
                 <$> joined_cols (zip ka kb) t names))).
Proof. intros Ha Hb. unfold merge_left, keys2, getitem. by rewrite Ha, Hb. Qed.

Lemma join_clash F a b ka kb t c :
  lookup_col a (columns F) = Some ka → lookup_col b (columns F) = Some kb →
  has_col F c = true → join F a b t c = Raise ValueError.
Proof.
  intros Ha Hb Hc. unfold join, keys2, getitem. rewrite Ha, Hb.
  cbn [mbind result_bind]. by rewrite Hc.
Qed.

Ltac norm2 :=
  unfold featured, base_cols, clock_cols, agg_cols, cursor_cols, uc_col, ud_col, rare_cols;
  cbn [app length insert list_insert nrows columns replace_col foldl zip zip_with
       fst snd String.eqb Ascii.eqb Bool.eqb andb frame_of_events fmap list_fmap].

Ltac lens2 := by rewrite ?length_fmap, ?cursor_loop_length, ?length_fmap.

(** The feature frame of a log, run through [add_features] again. *)
Lemma add_features_featured h g df evs :
  h !! df = Some (featured evs) →
  ∃ σ', add_features df (mkState h g) = (Raise ValueError, σ').
Proof.
  intros Hdf. unfold add_features.
  replace (mkState h g) with (mkState (h ++ []) g) by (by rewrite app_nil_r).
  rewrite (bind_ok _ _ _ _ _ (copy_old h [] g df _ Hdf)).
  erewrite bind_ok;
    [| eapply assign_app;
       [reflexivity | reflexivity
       | eapply getitem_then; [reflexivity | apply dt_fmap] | lens2 ] ].
  norm2.
  erewrite bind_ok;
    [| eapply assign_app;
       [reflexivity | reflexivity
       | eapply getitem_then; [reflexivity | apply dt_fmap] | lens2 ] ].
  norm2.
  erewrite bind_ok;
    [| eapply assign_app;
       [reflexivity | reflexivity
       | eapply getitem_then; [reflexivity | apply on_hour_fmap] | lens2 ] ].
  norm2.
  erewrite bind_ok;
    [| eapply assign_app;
       [reflexivity | reflexivity
       | eapply getitem_then; [reflexivity | apply on_hour_fmap] | lens2 ] ].
  norm2.
  erewrite bind_ok;
    [| eapply read_app; [reflexivity | reflexivity
                        | apply (minute_agg_typed _ evs); reflexivity ] ].
  erewrite bind_ok;
    [| eapply derive_app;
       [reflexivity | reflexivity | eapply merge_left_cols; reflexivity ] ].
  norm2.
  erewrite bind_ok;
    [| eapply assign_app;
       [reflexivity | reflexivity
       | eapply getitem_then; [reflexivity | apply view_fmap] | lens2 ] ].
  norm2.
  erewrite bind_ok;
    [| eapply read_app; [reflexivity | reflexivity
                        | apply (secs_typed _ evs); reflexivity ] ].
  erewrite bind_ok;
    [| eapply assign_app;
       [reflexivity | reflexivity | reflexivity
       | unfold cursor_rows; lens2 ] ].
  norm2.
  erewrite bind_ok;
    [| eapply read_app;
       [reflexivity | reflexivity
       | apply (group_sizes_typed _ evs _ _ (λ e, VStr (user e)) (λ e, VStr (country e)));
         reflexivity ] ].
  erewrite bind_ok;
    [| eapply read_app;
       [reflexivity | reflexivity
       | apply (group_sizes_typed _ evs _ _ (λ e, VStr (user e)) (λ e, VStr (device e)));
         reflexivity ] ].
  eexists. apply bind_raise.
  eapply derive_raise; [reflexivity | reflexivity |].
  eapply join_clash; reflexivity.
Qed.

(** X6. [add_features] cannot be applied to the frame it returned: the join
    of the (user, country) counts refuses the [uc_count] column that is
    already there, and the second call raises ValueError. *)
Theorem add_features_twice_fails σ df evs :
  heap σ !! df = Some (frame_of_events evs) →
  ∃ out cols σ1 σ2,
    add_features df σ = (Ok (out, cols), σ1) ∧
    add_features out σ1 = (Raise ValueError, σ2).
Proof.
  destruct σ as [h g]. cbn [heap]. intros Hdf.
  destruct (add_features_featured
              (h ++ [clocked evs; merged evs; counted evs; featured evs]) g
              (length h + 3)%nat evs) as [σ2 H2].
  { by rewrite lookup_app_r, Nat.add_comm, Nat.add_sub by lia. }
  eexists _, _, _, σ2. split; [by apply add_features_run|done].
Qed.

End Twice.

(** ** How many rows the threshold flags *)

Module count_facts.
Import np group_facts.

Lemma sorted_lookup_le s i j x y :
  StronglySorted Qle s → (i ≤ j)%nat → s !! i = Some x → s !! j = Some y → (x <= y)%Q.
Proof.
  intros Hs. revert i j. induction Hs as [|a s Hs IH Ha]; intros i j Hij Hi Hj; [done|].
  destruct i as [|i], j as [|j]; cbn in *; try lia.
  - injection Hi as <-. injection Hj as <-. apply Qle_refl.
  - injection Hi as <-. eapply Forall_forall in Ha; [done|]. by eapply list_elem_of_lookup_2.
  - eapply (IH i j); [lia|done..].
Qed.

Lemma filter_length_perm {A} (P : A → Prop) `{!∀ x, Decision (P x)} l l' :
  l ≡ₚ l' → length (filter P l) = length (filter P l').
Proof. intros Hp. by rewrite Hp. Qed.





(** The threshold lies between its two neighbours of the sorted scores. *)
Lemma quantile_between a q :
  a ≠ [] → (0 <= q)%Q → (q <= 1)%Q →
  ∃ T lo hi ylo yhi,
    quantile a q = Ok (VFloat T) ∧
    lo = Z.to_nat (Qfloor (inject_Z (Z.of_nat (length a) - 1) * q)) ∧
    (lo ≤ hi ≤ lo + 1)%nat ∧ (hi < length a)%nat ∧
    sort a !! lo = Some ylo ∧ sort a !! hi = Some yhi ∧
    (ylo <= T)%Q ∧ (T <= yhi)%Q.
Proof.
  intros Ha H0 H1. rewrite (np_facts.quantile_value a q Ha H0 H1). cbn zeta.
  remember (Z.of_nat (length a)) as n eqn:Hndef.
  set (h := (inject_Z (n - 1) * q)%Q).
  assert (1 ≤ n) as Hn by (subst n; destruct a; [done|cbn [length]; lia]).
  assert (0 <= inject_Z (n - 1))%Q as Hn1.
  { change 0%Q with (inject_Z 0). rewrite <- Zle_Qle. lia. }
  assert (0 <= h)%Q as Hh0 by (by apply Qmult_le_0_compat).
  assert (h <= inject_Z (n - 1))%Q as Hh1.
  { pose proof (Qmult_le_0_compat (inject_Z (n - 1)) (1 - q) Hn1 ltac:(Lqa.lra)).
    unfold h. Lqa.lra. }
  assert (0 ≤ Qfloor h ≤ n - 1) as Hlo.
  { split.
    - rewrite <- (Qfloor_Z 0). by apply Qfloor_resp_le.
    - rewrite <- (Qfloor_Z (n - 1)). by apply Qfloor_resp_le. }
  set (lo := Qfloor h) in *.
  set (hi := Z.min (lo + 1) (n - 1)).
  assert (lo ≤ hi ≤ lo + 1 ∧ hi ≤ n - 1) as Hhi by (unfold hi; lia).
  pose proof (np_facts.sort_length a) as Hlen.
  destruct (lookup_lt_is_Some_2 (sort a) (Z.to_nat lo)) as [ylo Hylo]; [lia|].
  destruct (lookup_lt_is_Some_2 (sort a) (Z.to_nat hi)) as [yhi Hyhi]; [lia|].
  rewrite (nth_lookup_Some _ _ _ _ Hylo), (nth_lookup_Some _ _ _ _ Hyhi).
  pose proof (sorted_lookup_le (sort a) (Z.to_nat lo) (Z.to_nat hi) ylo yhi
                (np_facts.sort_sorted a) ltac:(lia) Hylo Hyhi) as Hle.
  pose proof (Qfloor_le h) as Hg0. fold lo in Hg0.
  pose proof (Qlt_floor h) as Hg1. fold lo in Hg1. rewrite inject_Z_plus in Hg1.
  eexists _, (Z.to_nat lo), (Z.to_nat hi), ylo, yhi.
  split; [reflexivity|]. split; [done|]. split; [lia|]. split; [lia|].
  split; [done|]. split; [done|].
  pose proof (Qmult_le_0_compat (yhi - ylo) (h - inject_Z lo)
                ltac:(Lqa.lra) ltac:(Lqa.lra)) as Hp1.
  pose proof (Qmult_le_0_compat (yhi - ylo) (inject_Z lo + 1 - h)
                ltac:(Lqa.lra) ltac:(change (inject_Z 1) with 1%Q in Hg1; Lqa.lra)) as Hp2.
  split; Lqa.lra.
Qed.

End count_facts.

Section FlagCounts.
Context `{Lib}.
Import count_facts.

Lemma flagged_scores F cols c seed G :
  flagged F cols c seed = Ok G →
  ∃ scores T rf fl,
    scores ≠ [] ∧ length scores = nrows F ∧ (0 < c)%Q ∧ (c <= 1 # 2)%Q ∧
    np.quantile scores (1 - c) = Ok (VFloat T) ∧
    rule_flag F = Ok rf ∧ length rf = nrows F ∧
    bit_or (pd.astype_int (np.ge_scalar scores (VFloat T))) rf = Ok fl ∧
    nrows G = nrows F ∧
    pd.getitem G "anomaly_score" = Ok (VFloat <$> scores) ∧
    pd.getitem G "ml_flag" = Ok (pd.astype_int (np.ge_scalar scores (VFloat T))) ∧
    pd.getitem G "rule_flag" = Ok rf ∧
    pd.getitem G "final_flag" = Ok fl.
Proof.
  intros HG.
  destruct (flagged_columns _ _ _ _ _ HG)
    as (scores & thr & rf & fl & Hs & Hthr & Hrf & Hfl & Hn & Hls & Hlrf
        & Hc1 & Hc2 & Hc3 & Hc4).
  destruct (scores_of_inv _ _ _ _ _ Hs) as (Hc & X & Xq & _ & _ & HXq & Hsc).
  apply check_contamination_inv in Hc as [Hc0 Hc1'].
  assert (scores ≠ []) as Hne.
  { intros Hnil. apply HXq. apply length_zero_iff_nil.
    rewrite <- (score_samples_length (grow (seeded seed) 300 Xq).1 Xq).
    rewrite <- (length_fmap Qopp), <- Hsc, Hnil. done. }
  destruct (quantile_between scores (1 - c) Hne ltac:(Lqa.lra) ltac:(Lqa.lra))
    as (T & _ & _ & _ & _ & HT & _).
  assert (thr = VFloat T) as -> by congruence.
  by exists scores, T, rf, fl.
Qed.




Lemma VFloat_fmap_inj (a b : list Q) : VFloat <$> a = VFloat <$> b → a = b.
Proof.
  revert b. induction a as [|x a IH]; intros [|y b]; try done.
  rewrite !fmap_cons. intros [= -> Hab]. f_equal. by apply IH.
Qed.


End FlagCounts.

(** ** What [detect_anomalies] asks of its arguments, and what it changes *)

Section Arguments.
Context `{Lib}.
Import pd.

Lemma getitem_raises F c e : getitem F c = Raise e → e = KeyError.
Proof. unfold getitem. destruct (lookup_col c (columns F)); [done|]. by intros [= <-]. Qed.

Lemma mapR_getitem_missing F cols col :
  col ∈ cols → lookup_col col (columns F) = None →
  mapR (getitem F) cols = Raise KeyError.
Proof.
  intros Hin Hnone. induction cols as [|c cols IH]; [by apply elem_of_nil in Hin|].
  cbn [mapR]. destruct (getitem F c) as [s|e] eqn:Hc.
  - apply elem_of_cons in Hin as [->|Hin].
    + unfold getitem in Hc. by rewrite Hnone in Hc.
    + by rewrite (IH Hin).
  - by rewrite (getitem_raises _ _ _ Hc).
Qed.

Lemma transpose_no_columns n : transpose n [] = replicate n [].
Proof. induction n as [|n IH]; [done|]. cbn. by rewrite IH. Qed.

Lemma check_array_no_columns n : check_array (replicate n []) = Raise ValueError.
Proof.
  unfold check_array.
  assert (mapR (mapR to_float) (replicate n []) = Ok (replicate n [])) as ->.
  { induction n as [|n IH]; [done|]. cbn. cbn in IH. by rewrite IH. }
  by destruct n.
Qed.

Lemma check_contamination_raises c e : check_contamination c = Raise e → e = ValueError.
Proof. unfold check_contamination. destruct (_ && _); [done|]. by intros [= <-]. Qed.

(** X9. The feature list is checked before anything is created: a name that
    is not a column of the frame raises KeyError, an empty list raises
    ValueError (the estimator refuses an array without columns); in both
    cases the heap is as before the call. *)
Theorem feature_list_checked σ df F c seed :
  heap σ !! df = Some F →
  (∀ cols col, col ∈ cols → lookup_col col (columns F) = None →
     detect_anomalies df cols c seed σ = (Raise KeyError, σ)) ∧
  detect_anomalies df [] c seed σ = (Raise ValueError, σ).
Proof.
  intros Hdf. destruct σ as [h g]. cbn [heap] in Hdf.
  replace (mkState h g) with (mkState (h ++ []) g) by (by rewrite app_nil_r).
  split.
  - intros cols col Hin Hnone. unfold detect_anomalies.
    rewrite bind_run, (read_old_run _ _ _ _ _ _ Hdf). unfold values.
    by rewrite (mapR_getitem_missing F cols col Hin Hnone).
  - unfold detect_anomalies.
    rewrite bind_run, (read_old_run _ _ _ _ _ _ Hdf). unfold values.
    cbn [mapR mbind result_bind]. rewrite bind_run, fit_seeded_run.
    rewrite transpose_no_columns, check_array_no_columns.
    destruct (check_contamination c) as [[]|e] eqn:Hc; [done|].
    by rewrite (check_contamination_raises _ _ Hc).
Qed.



End Arguments.

Section Columns.
Context `{Lib}.
Import pd.

Lemma replace_col_absent c s cols :
  lookup_col c cols = None → replace_col c s cols = (cols ++ [(c, s)])%list.
Proof.
  induction cols as [|[c' s'] cols IH]; [done|]. cbn.
  destruct (String.eqb c c'); [done|]. intros Hc. by rewrite IH.
Qed.

Lemma lookup_col_snoc c c' s cols :
  c' ≠ c → lookup_col c (cols ++ [(c', s)]) = lookup_col c cols.
Proof.
  intros Hne. induction cols as [|[d s'] cols IH]; cbn.
  - destruct (String.eqb c c') eqn:E; [|done]. apply String.eqb_eq in E. congruence.
  - by rewrite IH.
Qed.

Lemma replace_col_same c s cols :
  lookup_col c cols = Some s → replace_col c s cols = cols.
Proof.
  induction cols as [|[c' s'] cols IH]; [done|]. cbn.
  destruct (String.eqb c c') eqn:E.
  - apply String.eqb_eq in E as ->. by intros [= ->].
  - intros Hc. by rewrite IH.
Qed.

Lemma setitem_same F c s :
  getitem F c = Ok s → length s = nrows F → setitem F c s = Ok F.
Proof.
  intros Hc Hlen. rewrite pd_facts.setitem_ok by done.
  unfold getitem in Hc. destruct (lookup_col c (columns F)) as [s'|] eqn:E; [|done].
  injection Hc as ->. rewrite (replace_col_same _ _ _ E). by destruct F.
Qed.

Lemma not_flag_col col :
  col ∉ flag_cols →
  "anomaly_score" ≠ col ∧ "ml_flag" ≠ col ∧ "rule_flag" ≠ col ∧ "final_flag" ≠ col.
Proof.
  unfold flag_cols. rewrite !not_elem_of_cons. intros (?&?&?&?&_).
  repeat split; congruence.
Qed.

Lemma flagged_other F cols c seed G col :
  flagged F cols c seed = Ok G → col ∉ flag_cols →
  getitem G col = getitem F col.
Proof.
  intros (scores & thr & F1 & F2 & rf & F3 & fl & _ & H1 & _ & H2 & _ & H3 & _ & H4)
    %flagged_inv (Ha & Hb & Hc & Hd)%not_flag_col.
  rewrite (pd_facts.getitem_setitem_ne _ _ _ _ _ Hd H4).
  rewrite (pd_facts.getitem_setitem_ne _ _ _ _ _ Hc H3).
  rewrite (pd_facts.getitem_setitem_ne _ _ _ _ _ Hb H2).
  by rewrite (pd_facts.getitem_setitem_ne _ _ _ _ _ Ha H1).
Qed.

(** X11. [detect_anomalies] returns a frame with the rows of its argument:
    every column other than the four that it assigns is as in the
    argument, the four hold one cell per row, and when the argument has
    none of them they come last, in the order of the assignments. *)
Theorem detect_anomalies_adds_four σ df F cols c seed G :
  heap σ !! df = Some F →
  returns_flags σ df cols c seed G →
  nrows G = nrows F ∧
  (∀ col, col ∉ flag_cols → getitem G col = getitem F col) ∧
  Forall (λ col, ∃ s, getitem G col = Ok s ∧ length s = nrows F) flag_cols ∧
  (Forall (λ col, lookup_col col (columns F) = None) flag_cols →
   (columns G).*1 = ((columns F).*1 ++ flag_cols)%list).
Proof.
  intros Hdf HG. apply (returns_flags_iff _ _ _ _ _ _ _ Hdf) in HG.
  destruct (flagged_scores _ _ _ _ _ HG)
    as (scores & T & rf & fl & Hne & Hls & Hc0 & Hc1 & HT & Hrf & Hlrf & Hfl & Hn
        & Hsc & Hml & Hrule & Hfin).
  split; [done|]. split; [intros col; by eapply flagged_other|]. split.
  - unfold flag_cols. repeat apply Forall_cons_2; try apply Forall_nil_2.
    + eexists. split; [done|]. by rewrite length_fmap.
    + eexists. split; [done|]. unfold astype_int.
      by rewrite length_fmap, np_facts.ge_scalar_length.
    + by eexists.
    + eexists. split; [done|]. apply mapR_length in Hfl.
      rewrite length_zip_with in Hfl. unfold astype_int in Hfl.
      rewrite length_fmap, np_facts.ge_scalar_length in Hfl. lia.
  - intros Hnone. unfold flag_cols in Hnone.
    apply Forall_cons in Hnone as [Ha Hnone]. apply Forall_cons in Hnone as [Hb Hnone].
    apply Forall_cons in Hnone as [Hc Hnone]. apply Forall_cons in Hnone as [Hd _].
    apply flagged_inv in HG
      as (scores' & thr & F1 & F2 & rf' & F3 & fl' & _ & H1 & _ & H2 & _ & H3 & _ & H4).
    apply pd_facts.setitem_inv in H1 as [_ ->], H2 as [_ ->], H3 as [_ ->], H4 as [_ ->].
    cbn [columns].
    rewrite (replace_col_absent "anomaly_score") by done.
    rewrite (replace_col_absent "ml_flag") by (by rewrite lookup_col_snoc).
    rewrite (replace_col_absent "rule_flag") by (by rewrite !lookup_col_snoc).
    rewrite (replace_col_absent "final_flag") by (by rewrite !lookup_col_snoc).
    rewrite !fmap_app. cbn. by rewrite <- !app_assoc.
Qed.

End Columns.

(** ** Detection on an already flagged frame *)

Section Again.
Context `{Lib}.
Import pd.

Lemma mapR_ext {A B} (f g : A → result B) l :
  Forall (λ x, f x = g x) l → mapR f l = mapR g l.
Proof. induction 1 as [|x l Hx _ IH]; [done|]. cbn. by rewrite Hx, IH. Qed.

Lemma values_ext F G cols :
  nrows G = nrows F →
  Forall (λ col, getitem G col = getitem F col) cols →
  values G cols = values F cols.
Proof. intros Hn Hcols. unfold values. by rewrite Hn, (mapR_ext _ _ _ Hcols). Qed.

Lemma flagged_fixpoint F cols c seed G :
  Forall (λ col, col ∉ flag_cols) cols →
  flagged F cols c seed = Ok G → flagged G cols c seed = Ok G.
Proof.
  intros Hcols HG.
  destruct (flagged_scores _ _ _ _ _ HG)
    as (scores & T & rf & fl & Hne & Hls & Hc0 & Hc1 & HT & Hrf & Hlrf & Hfl & Hn
        & Hsc & Hml & Hrule & Hfin).
  destruct (flagged_columns _ _ _ _ _ HG) as (scores' & _ & _ & _ & Hs & _).
  assert (scores' = scores) as ->.
  { destruct (flagged_columns _ _ _ _ _ HG) as (s2 & ? & ? & ? & Hs2 & _ & _ & _ & _ & _ & _ & Hsc2 & _).
    rewrite Hs in Hs2. injection Hs2 as <-. rewrite Hsc in Hsc2.
    injection Hsc2 as Heq. by apply VFloat_fmap_inj in Heq. }
  assert (scores_of G cols c seed = Ok scores) as HsG.
  { rewrite <- Hs. unfold scores_of. rewrite (values_ext F G cols Hn); [done|].
    eapply Forall_impl; [done|]. intros col Hcol. by eapply flagged_other. }
  assert (rule_flag G = Ok rf) as HrfG.
  { rewrite <- Hrf.
    apply rule_flag_ext; eapply flagged_other; try done;
      unfold flag_cols; rewrite !not_elem_of_cons;
      repeat split; (discriminate || apply not_elem_of_nil). }
  unfold flagged. rewrite HsG. cbn [mbind result_bind].
  rewrite (setitem_same G "anomaly_score") by (done || by rewrite length_fmap, Hn).
  cbn [mbind result_bind]. rewrite HT. cbn [mbind result_bind].
  rewrite (setitem_same G "ml_flag")
    by (done || unfold astype_int; by rewrite length_fmap, np_facts.ge_scalar_length, Hn).
  cbn [mbind result_bind]. rewrite HrfG. cbn [mbind result_bind].
  rewrite (setitem_same G "rule_flag") by (done || by rewrite Hn).
  cbn [mbind result_bind]. rewrite Hml, Hrule. cbn [mbind result_bind].
  rewrite Hfl. cbn [mbind result_bind].
  apply setitem_same; [done|].
  apply mapR_length in Hfl. rewrite length_zip_with in Hfl. unfold astype_int in Hfl.
  rewrite length_fmap, np_facts.ge_scalar_length in Hfl. lia.
Qed.

(** X12. Detection can be repeated: called on the frame that it returned, with
    the same feature columns (none of them one of the four flag columns),
    contamination rate and seed, [detect_anomalies] overwrites the four
    columns with the same cells and returns a new frame equal to the
    first. *)
Theorem detect_anomalies_again σ df F cols c seed out σ1 :
  heap σ !! df = Some F →
  Forall (λ col, col ∉ flag_cols) cols →
  detect_anomalies df cols c seed σ = (Ok out, σ1) →
  ∃ G out2 σ2,
    heap σ1 !! out = Some G ∧
    detect_anomalies out cols c seed σ1 = (Ok out2, σ2) ∧
    heap σ2 !! out2 = Some G ∧ out2 ≠ out.
Proof.
  destruct σ as [h g]. cbn [heap]. intros Hdf Hcols Hrun.
  destruct (detect_anomalies_run h g df F cols c seed Hdf) as (t & Hrun' & Ht).
  rewrite Hrun' in Hrun.
  destruct (flagged F cols c seed) as [G|] eqn:HG; [|done].
  cbn in Hrun. injection Hrun as <- <-. rewrite (Ht G eq_refl).
  assert ((h ++ [G])%list !! length h = Some G) as Hout
    by (by rewrite lookup_app_r, Nat.sub_diag).
  destruct (detect_anomalies_run (h ++ [G]) g (length h) G cols c seed Hout)
    as (t2 & Hrun2 & Ht2).
  rewrite (flagged_fixpoint F cols c seed G Hcols HG) in Hrun2, Ht2.
  rewrite (Ht2 G eq_refl) in Hrun2. cbn in Hrun2.
  exists G, (length (h ++ [G])), (mkState ((h ++ [G]) ++ [G]) g).
  split; [done|]. split; [done|]. cbn [heap].
  split; [by rewrite lookup_app_r, Nat.sub_diag|].
  rewrite length_app. cbn. lia.
Qed.

End Again.

(** ** The rule flag in the script's pipeline *)

Section Pipeline.
Context `{Lib}.
Import pd.





Lemma main_run h g raw evs c seed :
  h !! raw = Some (frame_of_events evs) →
  evs ≠ [] → (0 < c)%Q → (c <= 1 # 2)%Q →
  ∃ G, flagged (featured evs) feat_cols c seed = Ok G ∧
    main raw c seed (mkState h g)
    = (Ok (length h + 4)%nat,
       mkState (h ++ [clocked evs; merged evs; counted evs; featured evs; G]) g).
Proof.
  intros Hraw Hne Hc0 Hc1.
  destruct (flagged_featured evs c seed Hne Hc0 Hc1) as [G HG].
  exists G. split; [done|]. unfold main.
  rewrite (bind_ok _ _ _ _ _ (add_features_run h g raw evs Hraw)). cbn [fst snd].
  destruct (detect_anomalies_run
              (h ++ [clocked evs; merged evs; counted evs; featured evs]) g
              (length h + 3)%nat (featured evs) feat_cols c seed) as (t & -> & Ht).
  { by rewrite lookup_app_r, Nat.add_comm, Nat.add_sub by lia. }
  rewrite HG, (Ht G HG). cbn [fmap result_fmap]. rewrite length_app. cbn [length].
  by rewrite <- app_assoc.
Qed.


End Pipeline.

(** ** Rows: selection, sorting, head *)

Module rows_facts.
Import pd rows.

Lemma lookup_col_fmap c (f : Series → Series) cols :
  lookup_col c ((λ cs : string * Series, (cs.1, f cs.2)) <$> cols)
  = f <$> lookup_col c cols.
Proof.
  induction cols as [|[c' s] cols IH]; [done|]. cbn.
  by destruct (String.eqb c c').
Qed.

Lemma getitem_take_rows idx F c s :
  getitem F c = Ok s →
  getitem (take_rows idx F) c = Ok ((λ i, default NaN (s !! i)) <$> idx).
Proof.
  unfold getitem, take_rows. cbn [columns].
  rewrite (lookup_col_fmap c (λ s, (λ i, default NaN (s !! i)) <$> idx)).
  destruct (lookup_col c (columns F)); [|done]. by intros [= ->].
Qed.

Lemma getitem_take_rows_raise idx F c e :
  getitem F c = Raise e → getitem (take_rows idx F) c = Raise e.
Proof.
  unfold getitem, take_rows. cbn [columns].
  rewrite (lookup_col_fmap c (λ s, (λ i, default NaN (s !! i)) <$> idx)).
  by destruct (lookup_col c (columns F)).
Qed.

Lemma names_take_rows idx F : (columns (take_rows idx F)).*1 = (columns F).*1.
Proof.
  unfold take_rows. cbn [columns]. rewrite <- list_fmap_compose.
  by apply list_fmap_ext.
Qed.

Lemma take_rows_take_rows idx idx' F :
  Forall (λ i, (i < length idx)%nat) idx' →
  take_rows idx' (take_rows idx F)
  = take_rows ((λ i, default 0%nat (idx !! i)) <$> idx') F.
Proof.
  intros Hidx. unfold take_rows. cbn [columns nrows]. rewrite length_fmap. f_equal.
  rewrite <- !list_fmap_compose. apply list_fmap_ext. intros k [c s] _. cbn.
  f_equal. rewrite <- list_fmap_compose. apply Forall_fmap_ext_1.
  eapply Forall_impl; [done|]. intros i Hi. cbn.
  rewrite list_lookup_fmap.
  destruct (lookup_lt_is_Some_2 idx i Hi) as [p ->]. done.
Qed.

Lemma head_take_rows n idx F :
  head_rows n (take_rows idx F) = take_rows (take n idx) F.
Proof.
  unfold head_rows, take_rows. cbn [columns nrows]. rewrite length_take. f_equal.
  rewrite <- list_fmap_compose. apply list_fmap_ext. intros k [c s] _. cbn.
  by rewrite fmap_take.
Qed.

(** *** Masks *)

Lemma nonzero_from_lookup i mask k p :
  nonzero_from i mask !! k = Some p →
  (i ≤ p)%nat ∧ mask !! (p - i)%nat = Some true.
Proof.
  revert i k. induction mask as [|b mask IH]; intros i k Hk; [done|].
  cbn in Hk. destruct b.
  - destruct k as [|k]; cbn in Hk.
    + injection Hk as <-. by rewrite Nat.sub_diag.
    + apply IH in Hk as [Hle Hk]. split; [lia|].
      by replace (p - i)%nat with (S (p - S i)) by lia.
  - apply IH in Hk as [Hle Hk]. split; [lia|].
    by replace (p - i)%nat with (S (p - S i)) by lia.
Qed.

Lemma nonzero_from_increasing i mask :
  StronglySorted lt (nonzero_from i mask).
Proof.
  revert i. induction mask as [|b mask IH]; intros i; [constructor|].
  cbn. destruct b; [|apply IH]. constructor; [apply IH|].
  apply Forall_forall. intros p [k Hk]%list_elem_of_lookup.
  apply nonzero_from_lookup in Hk as [Hle _]. lia.
Qed.

Lemma nonzero_from_elem i mask p :
  p ∈ nonzero_from i mask ↔ (i ≤ p)%nat ∧ mask !! (p - i)%nat = Some true.
Proof.
  split.
  - intros [k Hk]%list_elem_of_lookup. by eapply nonzero_from_lookup.
  - revert i. induction mask as [|b mask IH]; intros i [Hle Hp]; [done|].
    destruct (decide (p = i)) as [->|Hne].
    + rewrite Nat.sub_diag in Hp. injection Hp as ->. cbn. left.
    + replace (p - i)%nat with (S (p - S i)) in Hp by lia. cbn in Hp.
      assert (p ∈ nonzero_from (S i) mask) as Hin by (apply IH; split; [lia|done]).
      cbn. destruct b; [by right|done].
Qed.

Lemma nonzero_spec mask p : p ∈ nonzero mask ↔ mask !! p = Some true.
Proof.
  unfold nonzero. rewrite nonzero_from_elem, Nat.sub_0_r. split; [by intros [_ ?]|].
  intros ?. split; [lia|done].
Qed.

Lemma nonzero_NoDup mask : NoDup (nonzero mask).
Proof.
  unfold nonzero. generalize (nonzero_from_increasing 0 mask).
  induction 1 as [|p l _ IH Hp]; constructor; [|done].
  intros Hin. eapply Forall_forall in Hp; [|done]. lia.
Qed.

Lemma nonzero_from_length i mask :
  length (nonzero_from i mask) = length (filter (λ b, b = true) mask).
Proof.
  revert i. induction mask as [|b mask IH]; intros i; [done|].
  cbn [nonzero_from]. rewrite filter_cons. destruct b; cbn; by rewrite IH.
Qed.

Lemma nonzero_from_all i mask :
  Forall (λ b, b = true) mask → nonzero_from i mask = seq i (length mask).
Proof.
  intros Hall. revert i. induction Hall as [|b mask -> _ IH]; intros i; [done|].
  cbn. by rewrite IH.
Qed.

Lemma nonzero_from_none i mask :
  Forall (λ b, b = false) mask → nonzero_from i mask = [].
Proof.
  intros Hall. revert i. induction Hall as [|b mask -> _ IH]; intros i; [done|].
  cbn. by rewrite IH.
Qed.

End rows_facts.

Section SortFacts.
Context `{Sorter}.
Import pd rows rows_facts.

Lemma argsort_elem a i : i ∈ argsort a ↔ (i < length a)%nat.
Proof. rewrite (argsort_perm a), elem_of_seq. lia. Qed.

Lemma argsort_length a : length (argsort a) = length a.
Proof. by rewrite (argsort_perm a), length_seq. Qed.

Lemma argsort_NoDup a : NoDup (argsort a).
Proof. rewrite (argsort_perm a). apply NoDup_seq. Qed.

Lemma argsort_bound a : Forall (λ i, (i < length a)%nat) (argsort a).
Proof. apply Forall_forall. intros i. by rewrite argsort_elem. Qed.

Lemma sorted_lookup {A} (R : A → A → Prop) l i j x y :
  StronglySorted R l → (i < j)%nat → l !! i = Some x → l !! j = Some y → R x y.
Proof.
  intros Hs. revert i j. induction Hs as [|a l Hs IH Ha]; intros i j Hij Hi Hj; [done|].
  destruct j as [|j]; [lia|]. destruct i as [|i]; cbn in *.
  - injection Hi as <-. eapply Forall_forall in Ha; [done|]. by eapply list_elem_of_lookup_2.
  - eapply (IH i j); [lia|done..].
Qed.

Lemma same_kind_uniform k s : Forall (λ v, kind_of v = Some k) s → same_kind s = true.
Proof.
  intros Hs. unfold same_kind.
  assert (omap kind_of s = replicate (length s) k) as ->.
  { induction Hs as [|v s Hv _ IH]; [done|]. cbn. by rewrite Hv, IH. }
  destruct (length s) as [|n]; [done|]. cbn.
  induction n as [|n IH]; [done|]. cbn. by rewrite IH, bool_decide_eq_true_2.
Qed.

Lemma kind_no_nans k s :
  Forall (λ v, kind_of v = Some k) s →
  filter (λ v, isna v = false) s = s ∧
  nonzero ((λ v, negb (isna v)) <$> s) = seq 0 (length s) ∧
  nonzero (isna <$> s) = [].
Proof.
  intros Hs.
  assert (Forall (λ v, isna v = false) s) as Hna.
  { eapply Forall_impl; [done|]. by intros []. }
  split; [|split].
  - apply group_facts.filter_all. intros v Hv. by eapply Forall_forall in Hna.
  - unfold nonzero. rewrite nonzero_from_all, length_fmap; [done|].
    apply Forall_fmap. eapply Forall_impl; [exact Hna|]. cbn. by intros v ->.
  - unfold nonzero. apply nonzero_from_none.
    by apply Forall_fmap.
Qed.

Lemma fmap_bounded_id (f : nat → nat) n l :
  (∀ i, (i < n)%nat → f i = i) → Forall (λ i, (i < n)%nat) l → f <$> l = l.
Proof.
  intros Hf Hl. rewrite <- (list_fmap_id l) at 2. apply Forall_fmap_ext_1.
  eapply Forall_impl; [done|]. intros i Hi. by apply Hf.
Qed.

(** An ascending sort of a column of one kind, without missing cells, is
    numpy's [argsort] of the column. *)
Lemma nargsort_ascending k s :
  Forall (λ v, kind_of v = Some k) s → nargsort true s = Ok (argsort s).
Proof.
  intros Hs. unfold nargsort. rewrite (same_kind_uniform k s Hs).
  destruct (kind_no_nans k s Hs) as (-> & -> & ->). rewrite app_nil_r. f_equal.
  apply (fmap_bounded_id _ (length s)); [|apply argsort_bound].
  intros i Hi. by rewrite lookup_seq_lt.
Qed.

(** A descending sort: the column is reversed, sorted, and the positions
    are mapped back and reversed. *)
Lemma nargsort_descending k s :
  Forall (λ v, kind_of v = Some k) s →
  nargsort false s
  = Ok (reverse ((λ i, length s - 1 - i)%nat <$> argsort (reverse s))).
Proof.
  intros Hs. unfold nargsort. rewrite (same_kind_uniform k s Hs).
  destruct (kind_no_nans k s Hs) as (-> & -> & ->). rewrite app_nil_r. do 2 f_equal.
  apply Forall_fmap_ext_1. eapply Forall_impl; [apply argsort_bound|].
  intros i Hi. cbn in *. rewrite length_reverse in Hi.
  rewrite reverse_lookup by (by rewrite length_seq).
  rewrite length_seq, lookup_seq_lt by lia. cbn. lia.
Qed.

(** The positions of a sort are the positions of the column, each once. *)
Lemma nargsort_perm k s asc idx :
  Forall (λ v, kind_of v = Some k) s → nargsort asc s = Ok idx →
  idx ≡ₚ seq 0 (length s).
Proof.
  intros Hs. destruct asc.
  - rewrite (nargsort_ascending k s Hs). intros [= <-]. apply argsort_perm.
  - rewrite (nargsort_descending k s Hs). intros [= <-].
    rewrite reverse_Permutation.
    apply NoDup_Permutation.
    + apply NoDup_fmap_2_strong; [|apply argsort_NoDup].
      intros i j Hi%argsort_elem Hj%argsort_elem. rewrite length_reverse in Hi, Hj. lia.
    + apply NoDup_seq.
    + intros p. rewrite list_elem_of_fmap, elem_of_seq. split.
      * intros (i & -> & Hi%argsort_elem). rewrite length_reverse in Hi. lia.
      * intros [_ Hp]. exists (length s - 1 - p)%nat. split; [lia|].
        apply argsort_elem. rewrite length_reverse. lia.
Qed.

Lemma ordered_column k s :
  ordered_kind k → Forall (λ v, kind_of v = Some k) s →
  Forall is_time s ∨ Forall is_number s.
Proof.
  intros [-> | ->] Hs; [left|right]; (eapply Forall_impl; [done|]); by intros [].
Qed.

(** Along an ascending sort the keys ascend, along a descending sort they
    descend. *)
Lemma nargsort_ascending_sorted k s idx i j p q x y :
  ordered_kind k → Forall (λ v, kind_of v = Some k) s →
  nargsort true s = Ok idx →
  (i ≤ j)%nat → idx !! i = Some p → idx !! j = Some q →
  s !! p = Some x → s !! q = Some y →
  (sort_key x <= sort_key y)%Q.
Proof.
  intros Hk Hs. rewrite (nargsort_ascending k s Hs). intros [= <-] Hij Hi Hj Hx Hy.
  destruct (decide (i = j)) as [->|Hne].
  { assert (p = q) as -> by congruence. assert (x = y) as -> by congruence.
    apply Qle_refl. }
  by apply (sorted_lookup _ _ i j p q (argsort_sorted s (ordered_column k s Hk Hs))
              ltac:(lia) Hi Hj x y).
Qed.

Lemma nargsort_descending_sorted k s idx i j p q x y :
  ordered_kind k → Forall (λ v, kind_of v = Some k) s →
  nargsort false s = Ok idx →
  (i ≤ j)%nat → idx !! i = Some p → idx !! j = Some q →
  s !! p = Some x → s !! q = Some y →
  (sort_key y <= sort_key x)%Q.
Proof.
  intros Hk Hs. rewrite (nargsort_descending k s Hs). intros [= <-] Hij Hi Hj Hx Hy.
  destruct (decide (i = j)) as [->|Hne].
  { assert (p = q) as -> by congruence. assert (x = y) as -> by congruence.
    apply Qle_refl. }
  set (a := argsort (reverse s)) in *.
  assert (length a = length s) as Hla by (unfold a; by rewrite argsort_length, length_reverse).
  pose proof (lookup_lt_Some _ _ _ Hi) as Hil. pose proof (lookup_lt_Some _ _ _ Hj) as Hjl.
  rewrite length_reverse, length_fmap in Hil, Hjl.
  rewrite reverse_lookup, length_fmap, list_lookup_fmap in Hi, Hj
    by (rewrite length_fmap; lia).
  destruct (a !! (length a - S i)%nat) as [p'|] eqn:Hp'; [|done].
  destruct (a !! (length a - S j)%nat) as [q'|] eqn:Hq'; [|done].
  cbn in Hi, Hj. injection Hi as <-. injection Hj as <-.
  assert (p' < length s)%nat as Hp'l.
  { apply list_elem_of_lookup_2, argsort_elem in Hp'. by rewrite length_reverse in Hp'. }
  assert (q' < length s)%nat as Hq'l.
  { apply list_elem_of_lookup_2, argsort_elem in Hq'. by rewrite length_reverse in Hq'. }
  assert (reverse s !! p' = Some x) as Hx'.
  { rewrite reverse_lookup by done. rewrite <- Hx. f_equal. lia. }
  assert (reverse s !! q' = Some y) as Hy'.
  { rewrite reverse_lookup by done. rewrite <- Hy. f_equal. lia. }
  assert (Forall (λ v, kind_of v = Some k) (reverse s)) as Hs' by (by apply Forall_reverse).
  by apply (sorted_lookup _ _ (length a - S j) (length a - S i) q' p'
              (argsort_sorted (reverse s) (ordered_column k _ Hk Hs'))
              ltac:(lia) Hq' Hp' y x).
Qed.

End SortFacts.

(** ** The toy log *)

Module loc_set_facts.
Import rows.

Lemma loc_set_length idx vals s : length (loc_set idx vals s) = length s.
Proof.
  unfold loc_set. generalize (zip idx vals). intros l. revert s.
  induction l as [|[i v] l IH]; intros s; [done|]. cbn. by rewrite IH, length_insert.
Qed.

Lemma loc_set_Forall (P : value → Prop) idx vals s :
  Forall P s → Forall P vals → Forall P (loc_set idx vals s).
Proof.
  unfold loc_set. intros Hs Hvals.
  assert (Forall (λ iv : nat * value, P iv.2) (zip idx vals)) as Hl.
  { apply Forall_forall. intros [i v] Hin. apply elem_of_zip_r in Hin.
    by eapply Forall_forall in Hvals. }
  revert s Hs. induction Hl as [|[i v] l Hv _ IH]; intros s Hs; [done|].
  cbn. apply IH. by apply Forall_insert.
Qed.

Lemma loc_set_other idx vals s p :
  p ∉ idx → loc_set idx vals s !! p = s !! p.
Proof.
  unfold loc_set. revert vals s. induction idx as [|i idx IH]; intros vals s Hp; [done|].
  destruct vals as [|v vals]; [done|]. cbn.
  apply not_elem_of_cons in Hp as [Hne Hp]. rewrite IH by done.
  by rewrite list_lookup_insert_ne.
Qed.

(** A row that is assigned gets one of the assigned values. *)
Lemma loc_set_elem idx vals s p :
  length vals = length idx → p ∈ idx → (p < length s)%nat →
  ∃ v, v ∈ vals ∧ loc_set idx vals s !! p = Some v.
Proof.
  unfold loc_set. revert vals s. induction idx as [|i idx IH]; intros vals s Hlen Hp Hps.
  { by apply elem_of_nil in Hp. }
  destruct vals as [|v vals]; [done|]. injection Hlen as Hlen. cbn.
  destruct (decide (p ∈ idx)) as [Hin|Hnin].
  - destruct (IH vals (<[i:=v]> s) Hlen Hin) as (v' & Hv' & Hl).
    { by rewrite length_insert. }
    exists v'. split; [by right|done].
  - apply elem_of_cons in Hp as [->|?]; [|done].
    exists v. split; [left|].
    pose proof (loc_set_other idx vals (<[i:=v]> s) i Hnin) as Ho. unfold loc_set in Ho.
    rewrite Ho. by apply list_lookup_insert_eq.
Qed.

End loc_set_facts.

Section ToyFacts.
Context `{Lib} `{Rng} `{Sorter}.
Import pd rows rows_facts loc_set_facts.

Lemma users_length : length users = 50%nat.
Proof. unfold users. by rewrite length_fmap, length_seq. Qed.

Lemma devices_length : length devices = 40%nat.
Proof. unfold devices. by rewrite length_fmap, length_seq. Qed.

Lemma local_ips_length n g : length (local_ips n g).1 = n.
Proof.
  revert g. induction n as [|n IH]; intros g; [done|]. cbn [local_ips].
  destruct (rng_integer 0 256 g) as [a g1]. destruct (rng_integer 1 255 g1) as [b g2].
  specialize (IH g2). destruct (local_ips n g2) as [rest g3]. cbn in *. by rewrite IH.
Qed.

Lemma prefix_10 x : String.prefix "10." ("10." +:+ x) = true.
Proof. by destruct x. Qed.

Lemma foreign_ips_spec n g :
  length (foreign_ips n g).1 = n ∧
  Forall (λ x, String.prefix "10." x = true) (foreign_ips n g).1.
Proof.
  revert g. induction n as [|n IH]; intros g; [done|]. cbn [foreign_ips].
  destruct (rng_integer 0 256 g) as [a g1]. destruct (rng_integer 0 256 g1) as [b g2].
  destruct (rng_integer 1 255 g2) as [c g3].
  specialize (IH g3). destruct (foreign_ips n g3) as [rest g4]. cbn [fst] in *.
  destruct IH as [IH1 IH2]. split; [cbn; by rewrite IH1|].
  constructor; [|done]. apply prefix_10.
Qed.

Lemma pick_spec a idx :
  Forall (λ i, (i < length a)%nat) idx →
  Forall (λ v, ∃ x, x ∈ a ∧ v = VStr x) (pick a idx).
Proof.
  intros Hidx. unfold pick. apply Forall_fmap. eapply Forall_impl; [done|].
  intros i Hi. cbn. destruct (lookup_lt_is_Some_2 a i Hi) as [x Hx].
  exists x. rewrite Hx. split; [by eapply list_elem_of_lookup_2|done].
Qed.

(** The run of [make_toy_login_log]: the frame that is filled in place,
    and its rows in the order of the sort. *)
Lemma toy_log_run h g n_rows seed :
  0 ≤ seed → 80 ≤ n_rows →
  ∃ (a b c d e f : Series) (idx anom : list nat),
    let n := Z.to_nat n_rows in
    let F := mkDataFrame n [ ("ts", a); ("user", b); ("device", c); ("ip", d);
                             ("country", e); ("success", f) ] in
    make_toy_login_log n_rows seed (mkState h g)
    = (Ok (length h + 2)%nat,
       mkState (h ++ [F; take_rows idx F; take_rows idx F]) g) ∧
    nargsort true a = Ok idx ∧
    (length a = n ∧ length b = n ∧ length c = n ∧ length d = n ∧ length e = n ∧
     length f = n) ∧
    Forall (λ v, ∃ m, 0 ≤ m < 60 * 24 * 10 ∧ v = VTime (base_time + m * ns_per_min)) a ∧
    Forall (λ v, ∃ x, x ∈ users ∧ v = VStr x) b ∧
    Forall (λ v, ∃ x, x ∈ devices ∧ v = VStr x) c ∧
    Forall (λ v, ∃ x, v = VStr x) d ∧
    Forall (λ v, ∃ x, x ∈ countries ∧ v = VStr x) e ∧
    Forall (λ v, v = VInt 0 ∨ v = VInt 1) f ∧
    NoDup anom ∧ length anom = 80%nat ∧
    Forall (λ p, (p < n)%nat ∧ f !! p = Some (VInt 0) ∧
                 (∃ x, d !! p = Some (VStr x) ∧ String.prefix "10." x = true) ∧
                 (e !! p = Some (VStr "US") ∨ e !! p = Some (VStr "CN"))) anom.
Proof.
  intros Hseed Hn. unfold make_toy_login_log.
  assert ((seed <? 0) || (n_rows <? 0) = false) as ->.
  { apply orb_false_iff. split; apply Z.ltb_ge; lia. }
  set (n := Z.to_nat n_rows).
  pose proof (rng_integers_spec 0 (60 * 24 * 10) n (default_rng seed) ltac:(lia))
    as [Hl1 Hr1].
  destruct (rng_integers _ _ _ _) as [minutes g1]. cbn [fst] in Hl1, Hr1.
  pose proof (rng_choice_spec (length users) n g1 ltac:(rewrite users_length; lia))
    as [Hl2 Hr2].
  destruct (rng_choice _ _ g1) as [us g2]. cbn [fst] in Hl2, Hr2.
  pose proof (rng_choice_spec (length devices) n g2 ltac:(rewrite devices_length; lia))
    as [Hl3 Hr3].
  destruct (rng_choice _ _ g2) as [ds g3]. cbn [fst] in Hl3, Hr3.
  pose proof (local_ips_length n g3) as Hl4.
  destruct (local_ips _ g3) as [ips g4]. cbn [fst] in Hl4.
  pose proof (rng_choice_p_spec country_weights n g4 ltac:(done)) as [Hl5 Hr5].
  destruct (rng_choice_p _ _ g4) as [cs g5]. cbn [fst] in Hl5, Hr5.
  pose proof (rng_random_spec n g5) as [Hl6 Hr6].
  destruct (rng_random _ g5) as [rs g6]. cbn [fst] in Hl6, Hr6.
  replace (mkState h g) with (mkState (h ++ []) g) by (by rewrite app_nil_r).
  rewrite (bind_ok _ _ _ _ _ (alloc_app h [] g _)).
  assert ((n <? 80)%nat = false) as -> by (apply Nat.ltb_ge; lia).
  pose proof (rng_choice_norepl_spec n 80 g6 ltac:(lia)) as (Hl7 & Hnd & Hr7).
  destruct (rng_choice_norepl _ _ g6) as [anom g7]. cbn [fst] in Hl7, Hnd, Hr7.
  rewrite Hl7.
  pose proof (foreign_ips_spec 80 g7) as [Hl8 Hr8].
  destruct (foreign_ips _ g7) as [ips' g8]. cbn [fst] in Hl8, Hr8.
  pose proof (rng_choice_spec 2 80 g8 ltac:(lia)) as [Hl9 Hr9].
  destruct (rng_choice _ _ g8) as [cs' g9]. cbn [fst] in Hl9, Hr9.
  cbn [app length].
  erewrite bind_ok;
    [| eapply assign_app;
       [reflexivity | reflexivity
       | eapply getitem_then; [reflexivity | reflexivity]
       | by rewrite loc_set_length, length_fmap ] ].
  cbn [insert list_insert nrows columns replace_col String.eqb Ascii.eqb Bool.eqb andb].
  erewrite bind_ok;
    [| eapply assign_app;
       [reflexivity | reflexivity
       | eapply getitem_then; [reflexivity | reflexivity]
       | by rewrite loc_set_length, length_fmap ] ].
  cbn [insert list_insert nrows columns replace_col String.eqb Ascii.eqb Bool.eqb andb].
  erewrite bind_ok;
    [| eapply assign_app;
       [reflexivity | reflexivity
       | eapply getitem_then; [reflexivity | reflexivity]
       | unfold pick; by rewrite loc_set_length, length_fmap ] ].
  cbn [insert list_insert nrows columns replace_col String.eqb Ascii.eqb Bool.eqb andb].
  set (a := (λ m : Z, VTime (base_time + m * ns_per_min)) <$> minutes).
  set (d := loc_set anom (VStr <$> ips') (VStr <$> ips)).
  set (e := loc_set anom (pick ["US"; "CN"] cs') (pick countries cs)).
  set (f := loc_set anom (replicate 80 (VInt 0))
              ((λ r : Q, VInt (if Qgt_bool r (12 # 100) then 1 else 0)) <$> rs)).
  assert (Forall (λ v, kind_of v = Some KTime) a) as Hka.
  { unfold a. apply Forall_fmap, Forall_forall. by intros m _. }
  pose proof (nargsort_ascending KTime a Hka) as Hsort.
  exists a, (pick users us), (pick devices ds), d, e, f, (argsort a), anom.
  cbn zeta.
  erewrite bind_ok;
    [| eapply derive_app;
       [reflexivity | reflexivity
       | unfold sort_values; eapply getitem_then; [reflexivity|];
         rewrite Hsort; reflexivity ] ].
  erewrite (derive_app h _ g (length h + 1)%nat 1); [|reflexivity..].
  split; [reflexivity|]. split; [done|].
  assert (Forall (λ v, ∃ x, x ∈ ["US"; "CN"] ∧ v = VStr x) (pick ["US"; "CN"] cs')) as Hcs'
    by (by apply pick_spec).
  split.
  { unfold a, d, e, f, pick. by rewrite !loc_set_length, !length_fmap. }
  split.
  { unfold a. apply Forall_fmap. eapply Forall_impl; [exact Hr1|]. intros m Hm. by exists m. }
  split; [by apply pick_spec|]. split; [by apply pick_spec|].
  split.
  { apply loc_set_Forall; apply Forall_fmap, Forall_forall; intros x _; by exists x. }
  split.
  { apply loc_set_Forall; [by apply pick_spec|].
    eapply Forall_impl; [exact Hcs'|]. intros v (x & Hx & ->). exists x. split; [|done].
    apply elem_of_cons in Hx as [->|Hx]; [by apply (bool_decide_unpack _)|].
    apply elem_of_cons in Hx as [->|Hx]; [by apply (bool_decide_unpack _)|].
    by apply elem_of_nil in Hx. }
  split.
  { apply loc_set_Forall.
    - apply Forall_fmap, Forall_forall. intros r _. cbn. destruct (Qgt_bool _ _); auto.
    - apply Forall_replicate. by left. }
  split; [done|]. split; [done|].
  apply Forall_forall. intros p Hp.
  assert (p < n)%nat as Hpn by (by eapply Forall_forall in Hr7).
  split; [done|]. split; [|split].
  - destruct (loc_set_elem anom (replicate 80 (VInt 0))
                ((λ r : Q, VInt (if Qgt_bool r (12 # 100) then 1 else 0)) <$> rs) p)
      as (v & Hv & Hl); [by rewrite length_replicate|done|by rewrite length_fmap, Hl6|].
    apply elem_of_replicate in Hv as [-> _]. exact Hl.
  - destruct (loc_set_elem anom (VStr <$> ips') (VStr <$> ips) p)
      as (v & Hv & Hl); [by rewrite length_fmap, Hl8|done|by rewrite length_fmap, Hl4|].
    apply list_elem_of_fmap in Hv as (x & -> & Hx). exists x. split; [exact Hl|].
    by eapply Forall_forall in Hr8.
  - destruct (loc_set_elem anom (pick ["US"; "CN"] cs') (pick countries cs) p)
      as (v & Hv & Hl);
      [unfold pick; by rewrite length_fmap, Hl9|done|unfold pick; by rewrite length_fmap, Hl5|].
    pose proof (proj1 (Forall_forall _ _) Hcs' v Hv) as (x & Hx & ->).
    fold e in Hl. rewrite Hl.
    apply elem_of_cons in Hx as [->|Hx]; [by left|].
    apply elem_of_cons in Hx as [->|Hx]; [by right|]. by apply elem_of_nil in Hx.
Qed.

End ToyFacts.

Section ToyEvents.
Context `{Lib} `{Rng} `{Sorter}.
Import pd rows rows_facts loc_set_facts.

Lemma decode_column {X} (read : Series → nat → X) (g : X → value) (P : value → Prop) a n :
  (∀ i v, a !! i = Some v → P v → g (read a i) = v) →
  Forall P a → length a = n →
  (λ i, g (read a i)) <$> seq 0 n = a.
Proof.
  intros Hread HP Hlen. apply list_eq. intros i. rewrite list_lookup_fmap.
  destruct (decide (i < n)%nat) as [Hi|Hi].
  - rewrite lookup_seq_lt by done. cbn.
    destruct (lookup_lt_is_Some_2 a i ltac:(lia)) as [v Hv]. rewrite Hv. f_equal.
    apply Hread; [done|]. by eapply Forall_lookup_1 in HP.
  - rewrite lookup_seq_ge by lia. cbn. symmetry. apply lookup_ge_None_2. lia.
Qed.

(** A frame with the six typed columns of the log is the frame of the
    events that it holds. *)
Lemma frame_of_events_of n a b c d e f :
  length a = n → length b = n → length c = n → length d = n → length e = n →
  length f = n →
  Forall is_time a → Forall is_text b → Forall is_text c → Forall is_text d →
  Forall is_text e → Forall is_int f →
  let F := mkDataFrame n [ ("ts", a); ("user", b); ("device", c); ("ip", d);
                           ("country", e); ("success", f) ] in
  F = frame_of_events (events_of F).
Proof.
  intros Ha Hb Hc Hd He Hf Ta Tb Tc Td Te Tf F.
  unfold frame_of_events, events_of, F. cbn [nrows].
  rewrite length_fmap, length_seq. f_equal.
  rewrite <- !list_fmap_compose. unfold compose, event_at. cbn.
  rewrite (decode_column time_at VTime is_time a n); [|by intros i [] Hi Hv; unfold time_at; rewrite Hi|done..].
  rewrite (decode_column text_at VStr is_text b n); [|by intros i [] Hi Hv; unfold text_at; rewrite Hi|done..].
  rewrite (decode_column text_at VStr is_text c n); [|by intros i [] Hi Hv; unfold text_at; rewrite Hi|done..].
  rewrite (decode_column text_at VStr is_text d n); [|by intros i [] Hi Hv; unfold text_at; rewrite Hi|done..].
  rewrite (decode_column text_at VStr is_text e n); [|by intros i [] Hi Hv; unfold text_at; rewrite Hi|done..].
  rewrite (decode_column int_at VInt is_int f n); [|by intros i [] Hi Hv; unfold int_at; rewrite Hi|done..].
  done.
Qed.

Lemma take_column (P : value → Prop) s idx :
  Forall P s → Forall (λ i, (i < length s)%nat) idx →
  Forall P ((λ i, default NaN (s !! i)) <$> idx).
Proof.
  intros Hs Hidx. apply Forall_fmap. eapply Forall_impl; [done|]. intros i Hi. cbn.
  destruct (lookup_lt_is_Some_2 s i Hi) as [v Hv]. rewrite Hv.
  by eapply Forall_lookup_1 in Hs.
Qed.

Lemma events_of_take_rows idx n cols :
  Forall (λ i, (i < n)%nat) idx →
  Forall (λ cs : string * Series, length cs.2 = n) cols →
  events_of (take_rows idx (mkDataFrame n cols)) = event_at (mkDataFrame n cols) <$> idx.
Proof.
  intros Hidx Hcols. unfold events_of. cbn [nrows take_rows].
  apply list_eq. intros k. rewrite !list_lookup_fmap.
  destruct (decide (k < length idx)%nat) as [Hk|Hk].
  - rewrite lookup_seq_lt by done. cbn.
    destruct (lookup_lt_is_Some_2 idx k Hk) as [p Hp]. rewrite Hp. cbn. f_equal.
    unfold event_at. cbn [columns].
    assert (∀ c, default [] (lookup_col c
                   ((λ cs : string * Series, (cs.1, (λ i, default NaN (cs.2 !! i)) <$> idx))
                      <$> cols)) !! k
                 = default [] (lookup_col c cols) !! p) as Hcell.
    { intros c.
      rewrite (lookup_col_fmap c (λ s, (λ i, default NaN (s !! i)) <$> idx)).
      destruct (lookup_col c cols) as [s|] eqn:Hc; cbn; [|by rewrite !lookup_nil].
      rewrite list_lookup_fmap, Hp. cbn.
      assert (length s = n) as Hs.
      { clear -Hc Hcols. induction Hcols as [|[c' s'] cols Hx _ IH]; [done|].
        cbn in Hc. destruct (String.eqb c c'); [by injection Hc as <-|by apply IH]. }
      assert (p < n)%nat as Hpn by (by eapply Forall_lookup_1 in Hidx).
      destruct (lookup_lt_is_Some_2 s p ltac:(lia)) as [v ->]. done. }
    unfold time_at, text_at, int_at. by rewrite !Hcell.
  - rewrite lookup_seq_ge by lia. cbn. symmetry.
    rewrite lookup_ge_None_2 by lia. done.
Qed.

(** The run of [make_toy_login_log] on at least 80 rows: the returned
    frame holds a batch of events in ascending order of time. *)
Lemma toy_log_events h g n_rows seed :
  0 ≤ seed → 80 ≤ n_rows →
  ∃ F evs,
    make_toy_login_log n_rows seed (mkState h g)
    = (Ok (length h + 2)%nat,
       mkState (h ++ [F; frame_of_events evs; frame_of_events evs]) g) ∧
    length evs = Z.to_nat n_rows ∧
    (∀ i j e e', (i ≤ j)%nat → evs !! i = Some e → evs !! j = Some e' → ts e ≤ ts e') ∧
    Forall toy_event evs ∧
    (80 ≤ length (filter injected evs))%nat.
Proof.
  intros Hseed Hn.
  destruct (toy_log_run h g n_rows seed Hseed Hn)
    as (a & b & c & d & e & f & idx & anom & Hrun & Hidx & Hlen & Ha & Hb & Hc & Hd & He
        & Hf & Hnd & Hl & Hanom).
  cbn zeta in Hrun. set (n := Z.to_nat n_rows) in *.
  destruct Hlen as (La & Lb & Lc & Ld & Le & Lf).
  set (F := mkDataFrame n [ ("ts", a); ("user", b); ("device", c); ("ip", d);
                            ("country", e); ("success", f) ]) in *.
  assert (Forall (λ v, kind_of v = Some KTime) a) as Hka.
  { eapply Forall_impl; [exact Ha|]. by intros v (m & _ & ->). }
  pose proof (nargsort_perm KTime a true idx Hka Hidx) as Hperm. rewrite La in Hperm.
  assert (Forall (λ i, (i < n)%nat) idx) as Hbound.
  { apply Forall_forall. intros i Hi. rewrite Hperm in Hi. apply elem_of_seq in Hi. lia. }
  assert (length idx = n) as Lidx by (by rewrite Hperm, length_seq).
  assert (take_rows idx F = frame_of_events (event_at F <$> idx)) as HS.
  { pose proof (events_of_take_rows idx n (columns F) Hbound) as Heq.
    assert (Forall (λ cs : string * Series, length cs.2 = n) (columns F)) as Hcols.
    { unfold F. cbn [columns]. by repeat apply Forall_cons_2; try apply Forall_nil_2. }
    specialize (Heq Hcols). change (mkDataFrame n (columns F)) with F in Heq.
    rewrite <- Heq. clear Heq Hcols.
    unfold F, take_rows. cbn [columns fmap list_fmap fst snd].
    assert (Forall is_time a) as Ta
      by (eapply Forall_impl; [exact Ha|]; by intros v (m & _ & ->)).
    assert (Forall is_text b) as Tb
      by (eapply Forall_impl; [exact Hb|]; by intros v (x & _ & ->)).
    assert (Forall is_text c) as Tc
      by (eapply Forall_impl; [exact Hc|]; by intros v (x & _ & ->)).
    assert (Forall is_text d) as Td
      by (eapply Forall_impl; [exact Hd|]; by intros v (x & ->)).
    assert (Forall is_text e) as Te
      by (eapply Forall_impl; [exact He|]; by intros v (x & _ & ->)).
    assert (Forall is_int f) as Tf
      by (eapply Forall_impl; [exact Hf|]; by intros v [-> | ->]).
    apply frame_of_events_of; rewrite ?length_fmap; try done;
      (apply take_column; [done|by rewrite ?La, ?Lb, ?Lc, ?Ld, ?Le, ?Lf]). }
  rewrite HS in Hrun. exists F, (event_at F <$> idx).
  split; [done|]. split; [by rewrite length_fmap|]. split; [|split].
  - intros i j ei ej Hij Hi Hj. rewrite list_lookup_fmap in Hi, Hj.
    destruct (idx !! i) as [p|] eqn:Hp; [|done].
    destruct (idx !! j) as [q|] eqn:Hq; [|done].
    cbn in Hi, Hj. injection Hi as <-. injection Hj as <-.
    assert (p < n)%nat as Hpn by (by eapply Forall_lookup_1 in Hbound).
    assert (q < n)%nat as Hqn by (by eapply Forall_lookup_1 in Hbound).
    destruct (lookup_lt_is_Some_2 a p ltac:(lia)) as [x Hx].
    destruct (lookup_lt_is_Some_2 a q ltac:(lia)) as [y Hy].
    pose proof (nargsort_ascending_sorted KTime a idx i j p q x y ltac:(by left) Hka Hidx
                  Hij Hp Hq Hx Hy) as Hle.
    unfold event_at, F. cbn. unfold time_at. rewrite Hx, Hy.
    pose proof (Forall_lookup_1 _ _ _ _ Ha Hx) as (m1 & _ & ->).
    pose proof (Forall_lookup_1 _ _ _ _ Ha Hy) as (m2 & _ & ->).
    cbn in Hle. by rewrite Zle_Qle.
  - apply Forall_fmap. eapply Forall_impl; [exact Hbound|]. intros p Hp. cbn beta in Hp.
    destruct (lookup_lt_is_Some_2 a p ltac:(lia)) as [va Hva].
    destruct (lookup_lt_is_Some_2 b p ltac:(lia)) as [vb Hvb].
    destruct (lookup_lt_is_Some_2 c p ltac:(lia)) as [vc Hvc].
    destruct (lookup_lt_is_Some_2 e p ltac:(lia)) as [ve Hve].
    destruct (lookup_lt_is_Some_2 f p ltac:(lia)) as [vf Hvf].
    pose proof (Forall_lookup_1 _ _ _ _ Ha Hva) as (m & Hm & ->).
    pose proof (Forall_lookup_1 _ _ _ _ Hb Hvb) as (xb & Hxb & ->).
    pose proof (Forall_lookup_1 _ _ _ _ Hc Hvc) as (xc & Hxc & ->).
    pose proof (Forall_lookup_1 _ _ _ _ He Hve) as (xe & Hxe & ->).
    pose proof (Forall_lookup_1 _ _ _ _ Hf Hvf) as Hvf'.
    unfold toy_event, event_at, F. cbn. unfold time_at, text_at, int_at.
    rewrite Hva, Hvb, Hvc, Hve, Hvf.
    split; [by exists m|]. split; [done|]. split; [done|]. split; [done|].
    by destruct Hvf' as [-> | ->]; [left|right].
  - rewrite group_facts.filter_fmap, length_fmap.
    rewrite (count_facts.filter_length_perm _ _ _ Hperm).
    rewrite <- Hl. apply submseteq_length, NoDup_submseteq; [done|].
    intros p Hp. pose proof (proj1 (Forall_forall _ _) Hanom p Hp)
      as (Hpn & Hfp & (x & Hdp & Hx) & Hep).
    apply list_elem_of_filter. split; [|apply elem_of_seq; lia].
    unfold injected, event_at, F. cbn. unfold text_at, int_at. rewrite Hfp, Hdp.
    split; [done|]. split; [done|]. by destruct Hep as [-> | ->]; [left|right].
Qed.

(** X14. [make_toy_login_log] fails on fewer than 80 rows, the number of
    anomalies that it injects without replacement, and on a negative seed:
    it raises ValueError and returns no log. *)
Theorem toy_log_needs_80_rows σ n_rows seed :
  seed < 0 ∨ n_rows < 80 →
  ∃ σ', make_toy_login_log n_rows seed σ = (Raise ValueError, σ').
Proof.
  destruct σ as [h g]. intros Hbad. unfold make_toy_login_log.
  destruct ((seed <? 0) || (n_rows <? 0)) eqn:Hneg; [by eexists|].
  apply orb_false_iff in Hneg as [Hs%Z.ltb_ge Hn%Z.ltb_ge].
  destruct Hbad as [?|Hn80]; [lia|].
  destruct (rng_integers _ _ _ _) as [minutes g1].
  destruct (rng_choice _ _ g1) as [us g2].
  destruct (rng_choice _ _ g2) as [ds g3].
  destruct (local_ips _ g3) as [ips g4].
  destruct (rng_choice_p _ _ g4) as [cs g5].
  destruct (rng_random _ g5) as [rs g6].
  rewrite bind_run. unfold alloc at 1. cbn [heap np_random].
  assert ((Z.to_nat n_rows <? 80)%nat = true) as -> by (apply Nat.ltb_lt; lia).
  by eexists.
Qed.

(** X15. On at least 80 rows and a seed that numpy accepts, whatever the
    generator draws and however ties are sorted, [make_toy_login_log]
    returns a new frame with [n_rows] events in ascending order of time:
    whole minutes within ten days of the base time, users, devices and
    countries of the fixed lists, [success] 0 or 1, among them at least 80
    failures from addresses [10.a.b.c] in the US or CN. *)
Theorem toy_log_sorted σ n_rows seed :
  0 ≤ seed → 80 ≤ n_rows →
  ∃ out σ' evs,
    make_toy_login_log n_rows seed σ = (Ok out, σ') ∧
    heap σ' !! out = Some (frame_of_events evs) ∧
    (length (heap σ) ≤ out)%nat ∧
    length evs = Z.to_nat n_rows ∧
    (∀ i j e e', (i ≤ j)%nat → evs !! i = Some e → evs !! j = Some e' → ts e ≤ ts e') ∧
    Forall toy_event evs ∧
    (80 ≤ length (filter injected evs))%nat.
Proof.
  intros Hseed Hn. destruct σ as [h g].
  destruct (toy_log_events h g n_rows seed Hseed Hn) as (F & evs & Hrun & Hrest).
  eexists _, _, evs. split; [exact Hrun|]. cbn [heap].
  split; [by rewrite lookup_app_r, Nat.add_comm, Nat.add_sub by lia|].
  split; [lia|done].
Qed.

End ToyEvents.

(** ** The report *)

Section Report.
Context `{Lib} `{Rng} `{Sorter}.
Import pd rows rows_facts.

Lemma lookup_zip_mapR F cols ss c :
  mapR (getitem F) cols = Ok ss → c ∈ cols →
  lookup_col c (zip cols ss) = lookup_col c (columns F).
Proof.
  revert ss. induction cols as [|c0 cols IH]; intros ss Hss Hc.
  { by apply elem_of_nil in Hc. }
  cbn in Hss. destruct (getitem F c0) as [s0|] eqn:H0'; [|done].
  destruct (mapR (getitem F) cols) as [ss'|] eqn:Hss'; [|done]. injection Hss as <-.
  cbn. destruct (String.eqb c c0) eqn:E.
  - apply String.eqb_eq in E as ->. unfold getitem in H0'.
    destruct (lookup_col c0 (columns F)); [|done]. by injection H0' as ->.
  - apply elem_of_cons in Hc as [->|Hc]; [by rewrite String.eqb_refl in E|].
    by apply IH.
Qed.

Lemma mapR_getitem_ok F cols :
  Forall (λ c, ∃ s, getitem F c = Ok s ∧ length s = nrows F) cols →
  ∃ ss, mapR (getitem F) cols = Ok ss ∧ (zip cols ss).*1 = cols ∧
        Forall (λ cs : string * Series, length cs.2 = nrows F) (zip cols ss).
Proof.
  induction 1 as [|c cols (s & Hs & Hl) _ (ss & Hss & Hn & Hlen)]; [by exists []|].
  exists (s :: ss). cbn. rewrite Hs, Hss. split; [done|]. split; [by rewrite Hn|].
  by constructor.
Qed.

Lemma NoDup_lookup_inj {A} (l : list A) i j x :
  NoDup l → l !! i = Some x → l !! j = Some x → i = j.
Proof. intros Hnd Hi Hj. by eapply NoDup_lookup. Qed.

Lemma NoDup_take_1 {A} n (l : list A) : NoDup l → NoDup (take n l).
Proof. intros Hnd. rewrite <- (take_drop n l) in Hnd. by apply NoDup_app in Hnd as [? _]. Qed.

(** The run of [report] on a frame with the review columns: the report
    holds the rows of the frame at the positions [pos]. *)
Lemma report_run h g gl G scores :
  h !! gl = Some G →
  Forall (λ c, ∃ s, getitem G c = Ok s ∧ length s = nrows G) review_cols →
  getitem G "anomaly_score" = Ok (VFloat <$> scores) →
  ∃ P S R pos,
    report gl (mkState h g) = (Ok (length h + 2)%nat, mkState (h ++ [P; S; R]) g) ∧
    (columns R).*1 = review_cols ∧
    nrows R = length pos ∧ (length pos ≤ 20)%nat ∧ NoDup pos ∧
    (∀ k p, pos !! k = Some p →
       is_flagged G p ∧ Forall (λ c, cell R c k = cell G c p) review_cols) ∧
    (∀ k k' p p' x y, (k ≤ k')%nat → pos !! k = Some p → pos !! k' = Some p' →
       scores !! p = Some x → scores !! p' = Some y → (y <= x)%Q) ∧
    (∀ p, is_flagged G p → p ∉ pos →
       length pos = 20%nat ∧
       ∀ p' x y, p' ∈ pos → scores !! p = Some x → scores !! p' = Some y → (x <= y)%Q).
Proof.
  intros Hgl Hcols Hsc.
  (* the flags and the selection *)
  assert (∃ ff, getitem G "final_flag" = Ok ff ∧ length ff = nrows G) as (ff & Hff & Lff).
  { eapply Forall_forall in Hcols; [exact Hcols|]. unfold review_cols.
    by apply (bool_decide_unpack _). }
  assert (length scores = nrows G) as Lsc.
  { assert (∃ s, getitem G "anomaly_score" = Ok s ∧ length s = nrows G) as (s & Hs & Ls).
    { eapply Forall_forall in Hcols; [exact Hcols|]. unfold review_cols.
      by apply (bool_decide_unpack _). }
    rewrite Hsc in Hs. injection Hs as <-. by rewrite length_fmap in Ls. }
  destruct (mapR_getitem_ok G review_cols Hcols) as (ss & Hss & Hnames & Hlens).
  set (G' := mkDataFrame (nrows G) (zip review_cols ss)).
  set (nz := nonzero (eq_one <$> ff)).
  assert (Forall (λ i, (i < nrows G)%nat) nz) as Hnz.
  { apply Forall_forall. intros i Hi%nonzero_spec. apply lookup_lt_Some in Hi.
    by rewrite length_fmap, Lff in Hi. }
  set (P := take_rows nz G').
  assert (loc_eq_one G "final_flag" review_cols = Ok P) as HP.
  { unfold loc_eq_one. rewrite Hff. cbn [mbind result_bind]. by rewrite Hss. }
  (* the sort *)
  assert (∀ c s, c ∈ review_cols → getitem G c = Ok s → getitem G' c = Ok s) as HG'.
  { intros c s Hc Hs. unfold getitem, G'. cbn [columns].
    rewrite (lookup_zip_mapR G review_cols ss c Hss Hc). exact Hs. }
  set (sP := (λ i, default NaN ((VFloat <$> scores) !! i)) <$> nz).
  assert (getitem P "anomaly_score" = Ok sP) as HsP.
  { apply getitem_take_rows, HG'; [|done]. unfold review_cols.
    by apply (bool_decide_unpack _). }
  assert (∀ i p, nz !! i = Some p → ∃ x, scores !! p = Some x ∧ sP !! i = Some (VFloat x))
    as HsPi.
  { intros i p Hi. assert (p < nrows G)%nat as Hp by (by eapply Forall_lookup_1 in Hnz).
    destruct (lookup_lt_is_Some_2 scores p ltac:(lia)) as [x Hx]. exists x.
    split; [done|]. unfold sP. by rewrite list_lookup_fmap, Hi; cbn; rewrite list_lookup_fmap, Hx. }
  assert (Forall (λ v, kind_of v = Some KNumber) sP) as Hk.
  { apply Forall_lookup. intros i v Hv.
    destruct (lookup_lt_is_Some_2 nz i) as [p Hp].
    { apply lookup_lt_Some in Hv. unfold sP in Hv. by rewrite length_fmap in Hv. }
    destruct (HsPi i p Hp) as (x & _ & Hx). rewrite Hx in Hv. by injection Hv as <-. }
  destruct (nargsort false sP) as [idx|] eqn:Hidx;
    [|by rewrite (nargsort_descending KNumber sP Hk) in Hidx].
  pose proof (nargsort_perm KNumber sP false idx Hk Hidx) as Hperm.
  assert (length sP = length nz) as LsP by (unfold sP; by rewrite length_fmap).
  rewrite LsP in Hperm.
  assert (Forall (λ i, (i < length nz)%nat) idx) as Hib.
  { apply Forall_forall. intros i Hi. rewrite Hperm in Hi. apply elem_of_seq in Hi. lia. }
  set (S := take_rows idx P).
  assert (sort_values P "anomaly_score" false = Ok S) as HS.
  { unfold sort_values. rewrite HsP. cbn [mbind result_bind]. by rewrite Hidx. }
  set (L := (λ i, default 0%nat (nz !! i)) <$> idx).
  set (pos := take 20 L).
  set (R := head_rows 20 S).
  assert (R = take_rows pos G') as HR.
  { unfold R, S, P. rewrite head_take_rows, take_rows_take_rows.
    - unfold pos, L. by rewrite fmap_take.
    - by apply Forall_take. }
  exists P, S, R, pos. split.
  { unfold report.
    replace (mkState h g) with (mkState (h ++ []) g) by (by rewrite app_nil_r).
    rewrite bind_run. unfold derive at 1.
    rewrite (bind_ok _ _ _ _ _ (load_old _ _ _ _ _ Hgl)).
    rewrite (bind_ok (lift _) _ _ P (mkState (h ++ []) g)) by (unfold lift; by rewrite HP).
    rewrite alloc_app. cbn [app length].
    erewrite bind_ok; [|eapply derive_app; [reflexivity|reflexivity|exact HS] ].
    erewrite (derive_app h _ g (length h + 1)%nat 1); [|reflexivity..].
    reflexivity. }
  assert (∀ k p, L !! k = Some p → ∃ i, idx !! k = Some i ∧ nz !! i = Some p) as HL.
  { intros k p Hk'. unfold L in Hk'. rewrite list_lookup_fmap in Hk'.
    destruct (idx !! k) as [i|] eqn:Hi; [|done]. cbn in Hk'. exists i. split; [done|].
    assert (i < length nz)%nat as Hil by (by eapply Forall_lookup_1 in Hib).
    destruct (lookup_lt_is_Some_2 nz i Hil) as [p' Hp']. rewrite Hp' in Hk'.
    cbn in Hk'. by injection Hk' as <-. }
  assert (NoDup idx) as Hndi by (rewrite Hperm; apply NoDup_seq).
  assert (NoDup L) as HndL.
  { unfold L. apply NoDup_fmap_2_strong; [|done].
    intros i j Hi Hj Heq.
    assert (i < length nz)%nat as Hil by (by eapply Forall_forall in Hib).
    assert (j < length nz)%nat as Hjl by (by eapply Forall_forall in Hib).
    destruct (lookup_lt_is_Some_2 nz i Hil) as [p Hp].
    destruct (lookup_lt_is_Some_2 nz j Hjl) as [q Hq].
    rewrite Hp, Hq in Heq. cbn in Heq. subst q.
    by apply (NoDup_lookup_inj nz i j p (nonzero_NoDup _)). }
  assert (∀ k k' p p' x y, (k ≤ k')%nat → L !! k = Some p → L !! k' = Some p' →
            scores !! p = Some x → scores !! p' = Some y → (y <= x)%Q) as Hdesc.
  { intros k k' p p' x y Hkk Hp Hp' Hx Hy.
    destruct (HL k p Hp) as (i & Hi & Hnzi). destruct (HL k' p' Hp') as (i' & Hi' & Hnzi').
    destruct (HsPi i p Hnzi) as (x' & Hx' & Hsx). destruct (HsPi i' p' Hnzi') as (y' & Hy' & Hsy).
    assert (x' = x) as -> by congruence. assert (y' = y) as -> by congruence.
    by apply (nargsort_descending_sorted KNumber sP idx k k' i i' (VFloat x) (VFloat y)
                ltac:(by right) Hk Hidx Hkk Hi Hi' Hsx Hsy). }
  split.
  { rewrite HR, names_take_rows. unfold G'. cbn [columns]. exact Hnames. }
  split; [by rewrite HR|]. split.
  { unfold pos. rewrite length_take. lia. }
  split; [by apply NoDup_take_1|].
  split; [|split].
  - intros k p Hkp. apply lookup_take_Some in Hkp as [Hkp Hk20].
    destruct (HL k p Hkp) as (i & Hi & Hnzi).
    assert (p ∈ nz) as Hpnz by (by eapply list_elem_of_lookup_2).
    apply nonzero_spec in Hpnz. rewrite list_lookup_fmap in Hpnz.
    destruct (ff !! p) as [v|] eqn:Hv; [|done]. cbn in Hpnz. injection Hpnz as Hone.
    split.
    { exists v. split; [|done]. by rewrite (cell_of_getitem _ _ _ _ Hff). }
    assert (p < nrows G)%nat as Hp.
    { apply lookup_lt_Some in Hv. by rewrite Lff in Hv. }
    apply Forall_forall. intros c Hc.
    pose proof (proj1 (Forall_forall _ _) Hcols c Hc) as (s & Hs & Ls).
    rewrite (cell_of_getitem _ _ _ _ Hs).
    rewrite HR, (cell_of_getitem _ _ _ _ (getitem_take_rows pos G' c s (HG' c s Hc Hs))).
    rewrite list_lookup_fmap. unfold pos. rewrite lookup_take_lt by done. rewrite Hkp. cbn.
    destruct (lookup_lt_is_Some_2 s p ltac:(lia)) as [w ->]. done.
  - intros k k' p p' x y Hkk [Hp _]%lookup_take_Some [Hp' _]%lookup_take_Some.
    by apply (Hdesc k k' p p').
  - intros p (v & Hv & Hone) Hnot.
    rewrite (cell_of_getitem _ _ _ _ Hff) in Hv.
    assert (p ∈ nz) as Hpnz.
    { apply nonzero_spec. by rewrite list_lookup_fmap, Hv; cbn; rewrite Hone. }
    apply list_elem_of_lookup in Hpnz as [i Hi].
    assert (i ∈ idx) as Hiidx.
    { rewrite Hperm. apply elem_of_seq. apply lookup_lt_Some in Hi. lia. }
    apply list_elem_of_lookup in Hiidx as [k Hk'].
    assert (L !! k = Some p) as HLk.
    { unfold L. by rewrite list_lookup_fmap, Hk'; cbn; rewrite Hi. }
    assert (20 ≤ k)%nat as Hk20.
    { destruct (decide (k < 20)%nat) as [Hlt|]; [|lia]. destruct Hnot.
      apply list_elem_of_lookup. exists k. unfold pos. by rewrite lookup_take_lt. }
    split.
    { unfold pos. rewrite length_take. apply lookup_lt_Some in HLk. lia. }
    intros p' x y [k' Hk'']%list_elem_of_lookup Hx Hy.
    apply lookup_take_Some in Hk'' as [Hk'' Hlt].
    apply (Hdesc k' k p' p y x); (lia || done).
Qed.

End Report.

(** ** The script, from the toy log to the report *)

Section Script.
Context `{Lib} `{Rng} `{Sorter}.
Import pd rows rows_facts count_facts.

(** X16. The report of a frame that holds the review columns: the flagged
    rows, at most 20, each once, with the cells of the review columns, by
    descending score; a flagged row is left out only when the report is
    full, and then no reported row scores less. *)
Theorem report_rows σ gl G scores :
  heap σ !! gl = Some G →
  Forall (λ c, ∃ s, getitem G c = Ok s ∧ length s = nrows G) review_cols →
  getitem G "anomaly_score" = Ok (VFloat <$> scores) →
  ∃ out σ' R pos,
    report gl σ = (Ok out, σ') ∧ heap σ' !! out = Some R ∧
    (columns R).*1 = review_cols ∧
    nrows R = length pos ∧ (length pos ≤ 20)%nat ∧ NoDup pos ∧
    (∀ k p, pos !! k = Some p →
       is_flagged G p ∧ Forall (λ c, cell R c k = cell G c p) review_cols) ∧
    (∀ k k' p p' x y, (k ≤ k')%nat → pos !! k = Some p → pos !! k' = Some p' →
       scores !! p = Some x → scores !! p' = Some y → (y <= x)%Q) ∧
    (∀ p, is_flagged G p → p ∉ pos →
       length pos = 20%nat ∧
       ∀ p' x y, p' ∈ pos → scores !! p = Some x → scores !! p' = Some y → (x <= y)%Q).
Proof.
  destruct σ as [h g]. cbn [heap]. intros Hgl Hcols Hsc.
  destruct (report_run h g gl G scores Hgl Hcols Hsc) as (P & S & R & pos & Hrun & Hrest).
  exists (length h + 2)%nat, (mkState (h ++ [P; S; R]) g), R, pos.
  split; [done|]. split; [|done].
  cbn [heap]. by rewrite lookup_app_r, Nat.add_comm, Nat.add_sub by lia.
Qed.

Lemma bit_or_ints a b fl : bit_or a b = Ok fl → Forall is_int fl.
Proof.
  unfold bit_or. generalize (zip a b). intros l. revert fl.
  induction l as [|[x y] l IH]; intros fl Hfl.
  { injection Hfl as <-. constructor. }
  cbn in Hfl. destruct x as [|x| | |]; try done. destruct y as [|y| | |]; try done.
  destruct (mapR _ l) as [fl'|] eqn:Hl; [|done]. injection Hfl as <-.
  constructor; [done|]. by apply IH.
Qed.

(** A frame that [detect_anomalies] returns has a row with the final
    flag. *)
Lemma flagged_has_flag F cols c seed G :
  flagged F cols c seed = Ok G → ∃ p, is_flagged G p.
Proof.
  intros HG.
  destruct (flagged_scores _ _ _ _ _ HG)
    as (scores & T & rf & fl & Hne & Hls & Hc0 & Hc1 & HT & Hrf & Hlrf & Hfl & Hn
        & _ & Hml & _ & Hfin).
  destruct (quantile_between scores (1 - c) Hne ltac:(Lqa.lra) ltac:(Lqa.lra))
    as (T' & lo & hi & ylo & yhi & HT' & Hlo & Hhi & Hhin & Hylo & Hyhi & Hle1 & Hle2).
  assert (T' = T) as -> by congruence.
  assert (yhi ∈ scores) as Hin.
  { rewrite <- (np_facts.sort_perm scores). by eapply list_elem_of_lookup_2. }
  apply list_elem_of_lookup in Hin as [p Hp]. exists p.
  assert (pd.astype_int (np.ge_scalar scores (VFloat T)) !! p = Some (VInt (Z.b2z true)))
    as Hmlp.
  { unfold pd.astype_int, np.ge_scalar. rewrite !list_lookup_fmap, Hp. cbn.
    by rewrite (proj2 (Qle_bool_iff T yhi) Hle2). }
  assert (p < length rf)%nat as Hprf.
  { apply lookup_lt_Some in Hp. lia. }
  destruct (rule_flag_lookup F rf p Hrf Hprf) as (_ & _ & a & b & _ & _ & Hrfp & _ & _).
  pose proof (bit_or_lookup _ _ _ p true (a && b) Hfl Hmlp Hrfp) as Hflp.
  exists (VInt 1). by rewrite (cell_of_getitem _ _ _ _ Hfin).
Qed.

Lemma featured_review_cols evs G c seed :
  flagged (featured evs) feat_cols c seed = Ok G →
  Forall (λ col, ∃ s, getitem G col = Ok s ∧ length s = nrows G) review_cols.
Proof.
  intros HG.
  destruct (flagged_scores _ _ _ _ _ HG)
    as (scores & T & rf & fl & Hne & Hls & Hc0 & Hc1 & HT & Hrf & Hlrf & Hfl & Hn
        & Hsc & Hml & Hrule & Hfin).
  assert (∀ col, col ∉ flag_cols →
            (∃ s, getitem (featured evs) col = Ok s ∧ length s = length evs) →
            ∃ s, getitem G col = Ok s ∧ length s = nrows G) as Hother.
  { intros col Hcol (s & Hs & Ls). exists s.
    rewrite (flagged_other _ _ _ _ _ col HG Hcol). split; [done|]. by rewrite Hn. }
  unfold review_cols. repeat apply Forall_cons_2; try apply Forall_nil_2;
    try (apply Hother;
         [ unfold flag_cols; rewrite !not_elem_of_cons;
           repeat split; (discriminate || apply not_elem_of_nil)
         | eexists; split; [reflexivity|];
           by rewrite ?length_fmap, ?cursor_loop_length; unfold cursor_rows;
              rewrite ?length_fmap ]).
  - eexists. split; [done|]. by rewrite length_fmap, Hn.
  - eexists. split; [done|]. unfold astype_int.
    by rewrite length_fmap, np_facts.ge_scalar_length, Hn.
  - eexists. split; [done|]. by rewrite Hn.
  - eexists. split; [done|]. apply mapR_length in Hfl.
    rewrite length_zip_with in Hfl. unfold astype_int in Hfl.
    rewrite length_fmap, np_facts.ge_scalar_length in Hfl. lia.
Qed.

Lemma sec_of_toy m : sec_of (base_time + m * ns_per_min) = 1681344000 + 60 * m.
Proof.
  unfold sec_of, base_time, ns_per_min, ns_per_sec.
  replace (1681344000 * 10 ^ 9 + m * (60 * 10 ^ 9)) with ((1681344000 + 60 * m) * 10 ^ 9)
    by lia.
  by apply Z.div_mul.
Qed.

(** X17. The toy log and [add_features] fit together: the log is sorted by
    time, so on its feature frame every [secs_since_last_success] is a
    whole number of minutes, at least 0 and less than the ten days that
    the log spans. *)
Theorem toy_log_cursor_range σ n_rows seed :
  0 ≤ seed → 80 ≤ n_rows →
  ∃ raw σ1 out σ2 F,
    make_toy_login_log n_rows seed σ = (Ok raw, σ1) ∧
    add_features raw σ1 = (Ok (out, feat_cols), σ2) ∧ heap σ2 !! out = Some F ∧
    nrows F = Z.to_nat n_rows ∧
    ∀ i, (i < nrows F)%nat →
      ∃ k, cell F "secs_since_last_success" i = Some (VFloat (inject_Z (60 * k))) ∧
           0 ≤ k < 60 * 24 * 10.
Proof.
  intros Hseed Hn. destruct σ as [h g].
  destruct (toy_log_events h g n_rows seed Hseed Hn)
    as (F0 & evs & Hraw & Hlen & Hsorted & Htoy & _).
  set (h1 := (h ++ [F0; frame_of_events evs; frame_of_events evs])%list) in *.
  assert (h1 !! (length h + 2)%nat = Some (frame_of_events evs)) as Hl1.
  { unfold h1. by rewrite lookup_app_r, Nat.add_comm, Nat.add_sub by lia. }
  eexists _, _, _, _, (featured evs).
  split; [exact Hraw|]. split; [by apply add_features_run|]. cbn [heap]. split.
  { by rewrite lookup_app_r, Nat.add_comm, Nat.add_sub by lia. }
  split; [exact Hlen|]. cbn [nrows featured]. intros i Hi.
  destruct (lookup_lt_is_Some_2 evs i Hi) as [e He].
  rewrite (cell_lookup (featured evs) "secs_since_last_success"
             ((λ d, VFloat (inject_Z d)) <$> cursor_loop (cursor_rows evs) ∅)) by done.
  rewrite list_lookup_fmap, cursor_loop_lookup, He.
  cbn [fmap option_fmap option_map]. rewrite lookup_empty.
  destruct (proj1 (Forall_forall _ _) Htoy e ltac:(by eapply list_elem_of_lookup_2))
    as ((m & Hm & Hts) & _).
  destruct (prior_success evs i (user e)) as [p|] eqn:Hp.
  - apply prior_success_before in Hp as (j & e' & Hji & Hj & ->).
    destruct (proj1 (Forall_forall _ _) Htoy e' ltac:(by eapply list_elem_of_lookup_2))
      as ((m' & Hm' & Hts') & _).
    pose proof (Hsorted j i e' e ltac:(lia) Hj He) as Hle.
    rewrite Hts, Hts' in Hle |- *. rewrite !sec_of_toy.
    assert (m' ≤ m) as Hmm by (unfold ns_per_min, ns_per_sec in Hle; lia).
    exists (m - m'). split; [do 3 f_equal; lia|lia].
  - exists 0. split; [done|lia].
Qed.

Lemma script_run h g :
  ∃ evs G t pos scores R,
    length evs = Z.to_nat 6000 ∧
    (∀ i j e e', (i ≤ j)%nat → evs !! i = Some e → evs !! j = Some e' → ts e ≤ ts e') ∧
    flagged (featured evs) feat_cols (2 # 100) 0 = Ok G ∧
    getitem G "anomaly_score" = Ok (VFloat <$> scores) ∧
    script (mkState h g) = (Ok (length h + 10)%nat, mkState (h ++ t ++ [R]) g) ∧
    length t = 10%nat ∧
    (columns R).*1 = review_cols ∧
    nrows R = length pos ∧ (1 ≤ length pos ≤ 20)%nat ∧ NoDup pos ∧
    (∀ k p, pos !! k = Some p →
       is_flagged G p ∧ Forall (λ c, cell R c k = cell G c p) review_cols) ∧
    (∀ k k' p p' x y, (k ≤ k')%nat → pos !! k = Some p → pos !! k' = Some p' →
       scores !! p = Some x → scores !! p' = Some y → (y <= x)%Q).
Proof.
  destruct (toy_log_events h g 6000 42 ltac:(lia) ltac:(lia))
    as (F & evs & Hraw & Hlen & Hsorted & _ & _).
  assert (evs ≠ []) as Hne by (intros ->; cbn [length] in Hlen; lia).
  set (h1 := (h ++ [F; frame_of_events evs; frame_of_events evs])%list) in *.
  assert (h1 !! (length h + 2)%nat = Some (frame_of_events evs)) as Hl1.
  { unfold h1. by rewrite lookup_app_r, Nat.add_comm, Nat.add_sub by lia. }
  destruct (main_run h1 g (length h + 2)%nat evs (2 # 100) 0 Hl1 Hne
              ltac:(done) ltac:(done)) as (G & HG & Hmain).
  set (h2 := (h1 ++ [clocked evs; merged evs; counted evs; featured evs; G])%list) in *.
  assert (h2 !! (length h1 + 4)%nat = Some G) as Hl2.
  { unfold h2. by rewrite lookup_app_r, Nat.add_comm, Nat.add_sub by lia. }
  destruct (flagged_scores _ _ _ _ _ HG)
    as (scores & _ & _ & _ & _ & _ & _ & _ & _ & _ & _ & _ & _ & Hsc & _).
  destruct (report_run h2 g (length h1 + 4)%nat G scores Hl2
              (featured_review_cols evs G _ _ HG) Hsc)
    as (P & S & R & pos & Hrep & Hnames & Hrows & Hle & Hnd & Hpos & Hdesc & Htop).
  destruct (flagged_has_flag _ _ _ _ _ HG) as [p Hp].
  assert (1 ≤ length pos)%nat as Hge.
  { destruct (decide (p ∈ pos)) as [Hin|Hnin].
    - destruct pos; [by apply elem_of_nil in Hin|cbn; lia].
    - destruct (Htop p Hp Hnin) as [-> _]. lia. }
  exists evs, G,
    [F; frame_of_events evs; frame_of_events evs;
     clocked evs; merged evs; counted evs; featured evs; G; P; S],
    pos, scores, R.
  split; [done|]. split; [done|]. split; [done|]. split; [done|]. split.
  { unfold script. rewrite (bind_ok _ _ _ _ _ Hraw). fold h1.
    rewrite (bind_ok _ _ _ _ _ Hmain). fold h2. rewrite Hrep.
    unfold h2, h1. rewrite !length_app. cbn [length].
    rewrite <- !app_assoc. cbn [app]. do 2 f_equal. lia. }
  split; [done|]. split; [done|]. split; [done|]. split; [lia|]. done.
Qed.

(** X18. The script's main block with its own arguments (6000 rows, seed 42,
    contamination 0.02), whatever the generator draws, the forest scores
    and the order of ties: it returns a report with the review columns and
    between 1 and 20 rows, each with [final_flag] 1, by descending
    anomaly score. *)
Theorem script_report σ :
  ∃ out σ' R,
    script σ = (Ok out, σ') ∧ heap σ' !! out = Some R ∧
    (columns R).*1 = review_cols ∧
    (1 ≤ nrows R ≤ 20)%nat ∧
    (∀ k, (k < nrows R)%nat → cell R "final_flag" k = Some (VInt 1)) ∧
    (∀ k k', (k ≤ k')%nat → (k' < nrows R)%nat →
       ∃ x y, cell R "anomaly_score" k = Some (VFloat x) ∧
              cell R "anomaly_score" k' = Some (VFloat y) ∧ (y <= x)%Q).
Proof.
  destruct σ as [h g].
  destruct (script_run h g)
    as (evs & G & t & pos & scores & R & _ & _ & HG & Hsc & Hrun & Ht & Hnames & Hrows
        & Hlen & _ & Hpos & Hdesc).
  exists (length h + 10)%nat, (mkState (h ++ t ++ [R]) g), R.
  split; [done|]. cbn [heap]. split.
  { rewrite app_assoc, lookup_app_r by (rewrite length_app; lia).
    rewrite length_app, Ht, Nat.sub_diag. done. }
  split; [done|]. split; [lia|].
  destruct (flagged_scores _ _ _ _ _ HG)
    as (scores' & T & rf & fl & _ & _ & _ & _ & _ & _ & _ & Hfl & _ & Hsc' & _ & _ & Hfin).
  assert (scores' = scores) as ->.
  { rewrite Hsc in Hsc'. injection Hsc' as Heq. by apply VFloat_fmap_inj in Heq. }
  assert (∀ k p c, pos !! k = Some p → c ∈ review_cols → cell R c k = cell G c p) as Hcell.
  { intros k p c Hk Hc. destruct (Hpos k p Hk) as [_ Hall].
    by eapply Forall_forall in Hall. }
  split.
  - intros k Hk. rewrite Hrows in Hk.
    destruct (lookup_lt_is_Some_2 pos k Hk) as [p Hp].
    destruct (Hpos k p Hp) as [(v & Hv & Hone) _].
    rewrite (Hcell k p "final_flag" Hp) by (unfold review_cols; by apply (bool_decide_unpack _)).
    rewrite Hv. f_equal.
    rewrite (cell_of_getitem _ _ _ _ Hfin) in Hv.
    pose proof (Forall_lookup_1 _ _ _ _ (bit_or_ints _ _ _ Hfl) Hv) as Hint.
    destruct v as [|n| | |]; try done. cbn in Hone. apply Z.eqb_eq in Hone. by subst n.
  - intros k k' Hkk Hk'. rewrite Hrows in Hk'.
    destruct (lookup_lt_is_Some_2 pos k ltac:(lia)) as [p Hp].
    destruct (lookup_lt_is_Some_2 pos k' Hk') as [p' Hp'].
    assert ("anomaly_score" ∈ review_cols) as Hin
      by (unfold review_cols; by apply (bool_decide_unpack _)).
    rewrite (Hcell k p _ Hp Hin), (Hcell k' p' _ Hp' Hin).
    rewrite !(cell_of_getitem _ _ _ _ Hsc), !list_lookup_fmap.
    destruct (Hpos k p Hp) as [(v & Hv & _) _].
    destruct (Hpos k' p' Hp') as [(v' & Hv' & _) _].
    rewrite (cell_of_getitem _ _ _ p Hfin) in Hv.
    rewrite (cell_of_getitem _ _ _ p' Hfin) in Hv'.
    apply lookup_lt_Some in Hv, Hv'.
    apply mapR_length in Hfl. rewrite length_zip_with in Hfl. unfold astype_int in Hfl.
    rewrite length_fmap, np_facts.ge_scalar_length in Hfl.
    destruct (lookup_lt_is_Some_2 scores p ltac:(lia)) as [x Hx].
    destruct (lookup_lt_is_Some_2 scores p' ltac:(lia)) as [y Hy].
    exists x, y. rewrite Hx, Hy. split; [done|]. split; [done|].
    by apply (Hdesc k k' p p').
Qed.

End Script.

(** * The login endpoint: properties *)

Module login_facts.
Import login.

(** ** Stripping *)

Lemma lstrip_head s :
  lstrip s = "" ∨ ∃ c r, lstrip s = String c r ∧ isspace c = false.
Proof.
  induction s as [|c s IH]; [by left|]. cbn.
  destruct (isspace c) eqn:E; [done|]. right. by exists c, s.
Qed.

Lemma lstrip_fixed c r : isspace c = false → lstrip (String c r) = String c r.
Proof. intros E. cbn. by rewrite E. Qed.

Lemma rstrip_head c r :
  isspace c = false → ∃ r', rstrip (String c r) = String c r'.
Proof. intros E. cbn. rewrite E. destruct (rstrip r); by eexists. Qed.

Lemma rstrip_idem s : rstrip (rstrip s) = rstrip s.
Proof.
  induction s as [|c s IH]; [done|]. cbn.
  destruct (rstrip s) as [|d r] eqn:Hr.
  - destruct (isspace c) eqn:E; [done|]. cbn. by rewrite E.
  - cbn. cbn in IH. destruct (rstrip r) as [|d' r'] eqn:Hr'.
    + destruct (isspace d) eqn:Ed; [done|]. by rewrite IH.
    + by rewrite IH.
Qed.

Lemma strip_idem s : strip (strip s) = strip s.
Proof.
  unfold strip. destruct (lstrip_head s) as [->|(c & r & -> & E)]; [done|].
  destruct (rstrip_head c r E) as [r' Hr']. rewrite Hr', (lstrip_fixed c r' E).
  by rewrite <- Hr', rstrip_idem.
Qed.

Lemma chars_lstrip s c : c ∈ chars (lstrip s) → c ∈ chars s.
Proof.
  induction s as [|d s IH]; [done|]. cbn.
  destruct (isspace d); [|done]. intros Hc. right. by apply IH.
Qed.

Lemma chars_rstrip s c : c ∈ chars (rstrip s) → c ∈ chars s.
Proof.
  induction s as [|d s IH]; [done|]. cbn.
  destruct (rstrip s) as [|e r] eqn:Hr.
  - destruct (isspace d); [by intros ?%elem_of_nil|].
    cbn. intros [->|?%elem_of_nil]%elem_of_cons; [left|done].
  - cbn. intros [->|Hc]%elem_of_cons; [left|]. right. by apply IH.
Qed.

Lemma chars_strip s c : c ∈ chars (strip s) → c ∈ chars s.
Proof. unfold strip. intros Hc%chars_rstrip. by apply chars_lstrip. Qed.

Lemma no_comma_first_item s : comma ∉ chars (first_item s).
Proof.
  induction s as [|c s IH]; [apply not_elem_of_nil|]. cbn.
  destruct (Ascii.eqb c comma) eqn:E; [apply not_elem_of_nil|].
  cbn. apply not_elem_of_cons. split; [|done].
  intros Heq. subst c. by rewrite Ascii.eqb_refl in E.
Qed.

Lemma lstrip_empty s : lstrip s = "" ↔ all_space s.
Proof.
  unfold all_space. induction s as [|c s IH]; cbn; [by split; [constructor|]|].
  destruct (isspace c) eqn:E.
  - rewrite IH. split; [by constructor|]. by intros [_ ?]%Forall_cons.
  - split; [done|]. intros [? _]%Forall_cons. congruence.
Qed.

Lemma rstrip_nonempty c r : isspace c = false → rstrip (String c r) ≠ "".
Proof. intros E. by destruct (rstrip_head c r E) as [r' ->]. Qed.

Lemma strip_empty s : strip s = "" ↔ all_space s.
Proof.
  rewrite <- lstrip_empty. unfold strip.
  destruct (lstrip_head s) as [->|(c & r & -> & E)]; [done|].
  split; [|done]. intros Hr. by apply rstrip_nonempty in Hr.
Qed.

Lemma rstrip_no_space s : no_space s → rstrip s = s.
Proof.
  unfold no_space. induction s as [|c s IH]; [done|]. cbn.
  intros [E Hs]%Forall_cons. rewrite (IH Hs), E. by destruct s.
Qed.

Lemma strip_no_space s : no_space s → strip s = s.
Proof.
  intros Hs. unfold strip. destruct s as [|c s]; [done|].
  pose proof Hs as [E _]%Forall_cons. rewrite (lstrip_fixed c s E).
  by apply rstrip_no_space.
Qed.

(** ** Decimal numerals *)

Lemma pretty_N_char_no_space x : isspace (pretty_N_char x) = false.
Proof. unfold pretty_N_char. by repeat case_match. Qed.

Lemma pretty_N_go_no_space x s :
  no_space s → no_space (pretty_N_go x s) ∧
  (String.length s ≤ String.length (pretty_N_go x s))%nat.
Proof.
  revert s. induction (N.lt_wf_0 x) as [x _ IH]. intros s Hs.
  destruct (decide (x = 0)%N) as [->|Hx].
  { by rewrite pretty_N_go_0. }
  rewrite pretty_N_go_step by lia.
  destruct (IH (x `div` 10)%N ltac:(apply N.div_lt; lia)
              (String (pretty_N_char (x `mod` 10)) s)) as [H1 H2].
  { constructor; [apply pretty_N_char_no_space|done]. }
  split; [done|]. cbn [String.length] in H2. lia.
Qed.

Lemma pretty_N_no_space (x : N) : no_space (pretty x) ∧ pretty x ≠ "".
Proof.
  unfold pretty, pretty_N. destruct (decide (x = 0)%N) as [->|Hx].
  { split; [|done]. by repeat constructor. }
  rewrite pretty_N_go_step by lia.
  destruct (pretty_N_go_no_space (x `div` 10)%N (String (pretty_N_char (x `mod` 10)) ""))
    as [H1 H2].
  { constructor; [apply pretty_N_char_no_space|constructor]. }
  split; [done|]. intros Hnil. rewrite Hnil in H2. cbn [String.length] in H2. lia.
Qed.

Lemma pretty_Z_no_space (x : Z) : no_space (pretty x) ∧ pretty x ≠ "".
Proof.
  unfold pretty, pretty_Z. destruct x as [|p|p].
  - split; [|done]. by repeat constructor.
  - apply (pretty_N_no_space (Npos p)).
  - destruct (pretty_N_no_space (Npos p)) as [H1 H2]. split; [|done].
    by constructor.
Qed.

End login_facts.

Section Endpoint.
Import login login_facts.

(** X19. [client_ip] with a non-empty X-Forwarded-For header: the first item
    of the header, stripped, whatever the address of the connection; it
    holds no comma and no white space at its ends, and it is empty exactly
    when the first item is white space only.  Without the header, or with
    an empty one: the address of the connection, or 127.0.0.1 when there is
    none, never the empty text. *)
Theorem client_ip_cases req :
  (∀ fwd, forwarded_for req = Some fwd → fwd ≠ "" →
     client_ip req = strip (first_item fwd) ∧
     (comma ∉ chars (client_ip req)) ∧
     strip (client_ip req) = client_ip req ∧
     (client_ip req = "" ↔ all_space (first_item fwd))) ∧
  (forwarded_for req = None ∨ forwarded_for req = Some "" →
     client_ip req ≠ "" ∧
     (∀ addr, remote_addr req = Some addr → addr ≠ "" → client_ip req = addr) ∧
     (remote_addr req = None ∨ remote_addr req = Some "" → client_ip req = "127.0.0.1")).
Proof.
  split.
  - intros fwd Hf Hne. unfold client_ip. rewrite Hf.
    destruct fwd as [|c fwd]; [done|].
    split; [done|]. split; [|split].
    + intros Hin%chars_strip. by apply no_comma_first_item in Hin.
    + apply strip_idem.
    + apply strip_empty.
  - intros Hf. unfold client_ip.
    assert (match forwarded_for req with
            | Some (String c fwd) => strip (first_item (String c fwd))
            | _ => match remote_addr req with
                   | Some (String c addr) => String c addr
                   | _ => "127.0.0.1"
                   end
            end
            = match remote_addr req with
              | Some (String c addr) => String c addr
              | _ => "127.0.0.1"
              end) as -> by (by destruct Hf as [-> | ->]).
    split; [by destruct (remote_addr req) as [[|??]|]|]. split.
    + intros addr -> Hne. by destruct addr.
    + by intros [-> | ->].
Qed.

Lemma eqb_empty s : String.eqb s "" = false ↔ s ≠ "".
Proof. rewrite <- not_true_iff_false, String.eqb_eq. done. Qed.

(** X20. The three outcomes of the handler.  It raises AttributeError, the
    log untouched, exactly when the body is a true JSON value that is not
    an object.  It answers 400, the log untouched, when the user or the
    device is empty after stripping.  Otherwise it appends exactly the line
    of the row that it returns: a row with a stripped, non-empty user and
    device, a stripped country, [success] 0 or 1, the address of
    [client_ip] and the formatted time. *)
Theorem login_outcomes req now log :
  match login req now log with
  | (Raise e, log') => e = AttributeError ∧ log' = log ∧ json req = NotObject true
  | (Ok BadRequest, log') => log' = log ∧ json req ≠ NotObject true
  | (Ok (Logged row), log') =>
      log' = Some (default "" log +:+ write_row row) ∧
      json req ≠ NotObject true ∧
      row_user row ≠ "" ∧ strip (row_user row) = row_user row ∧
      row_device row ≠ "" ∧ strip (row_device row) = row_device row ∧
      strip (row_country row) = row_country row ∧
      (row_success row = 0 ∨ row_success row = 1) ∧
      row_ip row = client_ip req ∧ row_ts row = strftime now
  end.
Proof.
  unfold login. destruct (json req) as [|items|[|]] eqn:Hj; cbn [data_of]; try done.
  all: match goal with
       | |- context [String.eqb ?u "" || String.eqb ?d ""] =>
           destruct (String.eqb u "") eqn:Hu; [done|];
           destruct (String.eqb d "") eqn:Hd; [done|]
       end; cbn [orb row_user row_device row_country row_success row_ip row_ts];
    apply eqb_empty in Hu, Hd;
    repeat split; try done; try apply strip_idem;
    by destruct (py_bool _); [right|left].
Qed.

(** X21. A value of [user] or [device] that is not a text is not refused:
    [None], a boolean or an integer is turned into text by [str] and
    logged as such, so a body with ["user": null] passes the check of the
    required fields, as the user [None]. *)
Theorem login_accepts_scalars req now log items u d :
  json req = Object items →
  dict_get "user" items = Some u → dict_get "device" items = Some d →
  scalar u → scalar d →
  ∃ row, login req now log = (Ok (Logged row), append log (write_row row)) ∧
         row_user row = py_str u ∧ row_device row = py_str d.
Proof.
  intros Hj Hu Hd Su Sd.
  assert (∀ v, scalar v → strip (py_str v) = py_str v ∧ py_str v ≠ "") as Hscalar.
  { intros [|[|]|n|s|r t] Hv; try done; cbn [py_str].
    destruct (pretty_Z_no_space n) as [H1 H2]. split; [by apply strip_no_space|done]. }
  destruct (Hscalar u Su) as [Hu1 Hu2]. destruct (Hscalar d Sd) as [Hd1 Hd2].
  unfold login. rewrite Hj. cbn [data_of]. unfold get. rewrite Hu, Hd.
  change (default _ (Some u)) with u. change (default _ (Some d)) with d.
  rewrite Hu1, Hd1.
  rewrite (proj2 (eqb_empty _) Hu2), (proj2 (eqb_empty _) Hd2). cbn [orb].
  by eexists.
Qed.

Lemma append_assoc_lines t r acc : (t +:+ write_row r) +:+ acc = t +:+ (write_row r +:+ acc).
Proof.
  generalize (write_row r). intros w. induction t as [|c t IH]; [done|].
  change (String c ((t +:+ w) +:+ acc) = String c (t +:+ (w +:+ acc))). by rewrite IH.
Qed.

Lemma app_empty_r t : t +:+ "" = t.
Proof.
  induction t as [|c t IH]; [done|]. change (String c (t +:+ "") = String c t). by rewrite IH.
Qed.

Lemma login_log req now log :
  ((login req now log).2 = log ∧ ∀ row, (login req now log).1 ≠ Ok (Logged row)) ∨
  ∃ row, login req now log = (Ok (Logged row), Some (default "" log +:+ write_row row)).
Proof.
  unfold login. destruct (data_of (json req)) as [data|e]; [|by left].
  destruct (String.eqb _ "" || String.eqb _ ""); [by left|]. right. by eexists.
Qed.

Lemma serve_existing reqs t :
  (serve reqs (Some t)).2 = Some (t +:+ lines (logged_rows (serve reqs (Some t)).1)) ∧
  length (serve reqs (Some t)).1 = length reqs.
Proof.
  revert t. induction reqs as [|[req now] reqs IH]; intros t.
  { cbn. by rewrite app_empty_r. }
  cbn [serve]. destruct (login_log req now (Some t)) as [[Hlog Hno]|[row ->]].
  - destruct (login req now (Some t)) as [r log']. cbn [fst snd] in Hlog, Hno. subst log'.
    specialize (IH t). destruct (serve reqs (Some t)) as [rs log'']. cbn [fst snd] in *.
    destruct IH as [-> Hlen]. split; [|cbn [length]; by rewrite Hlen].
    destruct r as [[|row]|e]; [done| |done]. by destruct (Hno row).
  - change (default "" (Some t)) with t. specialize (IH (t +:+ write_row row)).
    destruct (serve reqs (Some (t +:+ write_row row))) as [rs log'']. cbn [fst snd] in *.
    destruct IH as [-> Hlen]. split; [|cbn [length]; by rewrite Hlen].
    change (logged_rows (Ok (Logged row) :: rs)) with (row :: logged_rows rs).
    cbn [lines foldr]. by rewrite append_assoc_lines.
Qed.

(** X22. The log is append-only.  After the module has been loaded, the file
    exists, and whatever requests are handled one after the other, the
    file holds what it held before (the header line if it was missing),
    followed by the lines of the logged rows in the order of the requests:
    one line per answer 200, none for an answer 400 or an exception. *)
Theorem log_append_only reqs log :
  let run := serve reqs (init_log log) in
  run.2 = Some (default (writerow FIELDNAMES) log +:+ lines (logged_rows run.1)) ∧
  length run.1 = length reqs.
Proof.
  cbn zeta. destruct log as [t|]; cbn [init_log default]; apply serve_existing.
Qed.

End Endpoint.

(** ** The statements on the example log *)

Section Examples.
#[local] Existing Instance demo_lib.

(** The script's two calls on the example log: the second user's burst is
    flagged by the rule, and by the final flag. *)
Example main_on_demo_batch :
  ∃ out σ G, main 0%nat (1 # 5) 7 demo_raw = (Ok out, σ) ∧ heap σ !! out = Some G ∧
    pd.getitem G "rule_flag" = Ok (VInt <$> [0; 0; 0; 1; 1; 1; 1; 1; 1]) ∧
    pd.getitem G "ml_flag" = Ok (VInt <$> [0; 0; 0; 1; 1; 1; 1; 1; 1]) ∧
    pd.getitem G "final_flag" = Ok (VInt <$> [0; 0; 0; 1; 1; 1; 1; 1; 1]).
Proof. eexists _, _, _. split; [by vm_compute|]. split; [by vm_compute|]. by vm_compute. Qed.

(** With no seed the estimator draws from numpy's global generator, and
    the forest depends on its state; with a seed it does not. *)
Example fit_and_the_global_generator :
  (IsolationForest_fit 300 (1 # 5) None [[VInt 1]] (mkState [] (0 : Z))).1 = Ok (0 : Z) ∧
  (IsolationForest_fit 300 (1 # 5) None [[VInt 1]] (mkState [] (1 : Z))).1 = Ok (1 : Z) ∧
  (IsolationForest_fit 300 (1 # 5) (Some 7) [[VInt 1]] (mkState [] (0 : Z))).1 = Ok (7 : Z) ∧
  (IsolationForest_fit 300 (1 # 5) (Some 7) [[VInt 1]] (mkState [] (1 : Z))).1 = Ok (7 : Z).
Proof. by vm_compute. Qed.

(** A single successful login, alone in the log: one attempt, no failure,
    one address, rare country and device, no rule flag. *)
Example single_login :
  ∃ out σ G,
    main 0%nat (1 # 5) 7
      (demo_state [frame_of_events [mkLoginEvent (90 * 10 ^ 9) "u1" "d1" "10.0.0.1" "DE" 1]])
    = (Ok out, σ) ∧ heap σ !! out = Some G ∧
    pd.cell G "attempts" 0 = Some (VInt 1) ∧
    pd.cell G "fail_ratio" 0 = Some (VFloat 0) ∧
    pd.cell G "uniq_ips" 0 = Some (VInt 1) ∧
    pd.cell G "rare_country_for_user" 0 = Some (VInt 1) ∧
    pd.cell G "rare_device_for_user" 0 = Some (VInt 1) ∧
    pd.cell G "rule_flag" 0 = Some (VInt 0).
Proof.
  eexists _, _, _. split; [by vm_compute|]. split; [by vm_compute|]. by vm_compute.
Qed.


Lemma cursor_values_witness :
  heap demo_raw !! 0%nat = Some (frame_of_events demo_batch) ∧
  ∃ F, returns_features demo_raw 0%nat F ∧
    pd.cell F "secs_since_last_success" 2 = Some (VFloat 80).
Proof.
  split; [reflexivity|].
  destruct (cursor_values demo_raw 0%nat demo_batch eq_refl) as (F & HF & Hrows).
  exists F. split; [exact HF|].
  destruct (Hrows 2%nat _ eq_refl) as (d & Hd & _ & Hlast).
  rewrite Hd. do 2 f_equal.
  rewrite (Hlast 0%nat _ ltac:(lia) eq_refl eq_refl eq_refl); [reflexivity|].
  intros k e'' Hk Hek _. assert (k = 1%nat) as -> by lia.
  injection Hek as <-. discriminate.
Defined.

Lemma rarity_flags_witness :
  heap demo_raw !! 0%nat = Some (frame_of_events demo_batch) ∧
  ∃ F, returns_features demo_raw 0%nat F ∧
    pd.cell F "rare_country_for_user" 1 = Some (VInt 1) ∧
    pd.cell F "rare_country_for_user" 3 = Some (VInt 0) ∧
    pd.cell F "rare_device_for_user" 3 = Some (VInt 0) ∧
    pd.cell F "rare_device_for_user" 8 = Some (VInt 1).
Proof.
  split; [reflexivity|].
  destruct (rarity_flags demo_raw 0%nat demo_batch eq_refl) as (F & HF & Hrows).
  exists F. split; [exact HF|].
  destruct (Hrows 1%nat _ eq_refl) as (Hc1 & _).
  destruct (Hrows 3%nat _ eq_refl) as (Hc3 & Hd3).
  destruct (Hrows 8%nat _ eq_refl) as (_ & Hd8).
  split; [exact Hc1|]. split; [exact Hc3|]. split; [exact Hd3|exact Hd8].
Defined.



Lemma demo_flags c seed :
  (0 < c)%Q → (c <= 1 # 2)%Q → ∃ G, returns_flags demo_feat 0%nat feat_cols c seed G.
Proof.
  intros Hc0 Hc1.
  destruct (flagged_featured demo_batch c seed ltac:(discriminate) Hc0 Hc1) as [G HG].
  exists G. by apply (returns_flags_iff demo_feat 0%nat (featured demo_batch)).
Defined.





Lemma same_seed_same_flags_witness :
  heap demo_feat !! 0%nat = Some (featured demo_batch) ∧
  heap demo_feat_later !! 1%nat = Some (featured demo_batch) ∧
  match (detect_anomalies 0%nat feat_cols (1 # 5) 7 demo_feat).1,
        (detect_anomalies 1%nat feat_cols (1 # 5) 7 demo_feat_later).1 with
  | Ok out1, Ok out2 =>
      ∃ G, heap (detect_anomalies 0%nat feat_cols (1 # 5) 7 demo_feat).2 !! out1
           = Some G ∧
           heap (detect_anomalies 1%nat feat_cols (1 # 5) 7 demo_feat_later).2 !! out2
           = Some G
  | Raise e1, Raise e2 => e1 = e2
  | _, _ => False
  end.
Proof.
  split; [reflexivity|]. split; [reflexivity|].
  apply (same_seed_same_flags demo_feat demo_feat_later 0%nat 1%nat (featured demo_batch));
    reflexivity.
Defined.

Lemma caller_frames_unchanged_witness :
  heap demo_raw !! 0%nat = Some (frame_of_events demo_batch) ∧
  (∀ df, heap (add_features df demo_raw).2 !! 0%nat = Some (frame_of_events demo_batch) ∧
         np_random (add_features df demo_raw).2 = np_random demo_raw ∧
         ∀ out cols, (add_features df demo_raw).1 = Ok (out, cols) → out ≠ 0%nat) ∧
  (∀ df cols c seed,
         heap (detect_anomalies df cols c seed demo_raw).2 !! 0%nat
         = Some (frame_of_events demo_batch) ∧
         np_random (detect_anomalies df cols c seed demo_raw).2 = np_random demo_raw ∧
         ∀ out, (detect_anomalies df cols c seed demo_raw).1 = Ok out → out ≠ 0%nat).
Proof.
  split; [reflexivity|].
  apply (caller_frames_unchanged demo_raw 0%nat (frame_of_events demo_batch)).
  reflexivity.
Defined.

End Examples.

(** ** The instances of the examples *)

Section DemoFacts.
Import rows.

Lemma insert_by_perm a i l : insert_by a i l ≡ₚ i :: l.
Proof.
  induction l as [|j l IH]; [done|]. cbn.
  destruct (Qle_bool _ _); [done|]. rewrite IH. apply Permutation_swap.
Qed.

Lemma demo_argsort_perm a : demo_argsort a ≡ₚ seq 0 (length a).
Proof.
  unfold demo_argsort. induction (seq 0 (length a)) as [|i l IH]; [done|].
  cbn. by rewrite insert_by_perm, IH.
Qed.

Lemma insert_by_sorted a i l :
  StronglySorted (λ i j, (key_at a i <= key_at a j)%Q) l →
  StronglySorted (λ i j, (key_at a i <= key_at a j)%Q) (insert_by a i l).
Proof.
  induction 1 as [|j l Hl IH Hj]; cbn.
  { constructor; [constructor|done]. }
  destruct (Qle_bool (key_at a i) (key_at a j)) eqn:Hle.
  - apply Qle_bool_iff in Hle. constructor; [by constructor|].
    constructor; [done|]. eapply Forall_impl; [exact Hj|].
    intros k Hk. cbn beta in Hk. by apply Qle_trans with (key_at a j).
  - constructor; [done|].
    assert (key_at a j <= key_at a i)%Q as Hji.
    { destruct (Qlt_le_dec (key_at a j) (key_at a i)) as [Hlt|Hge].
      - by apply Qlt_le_weak.
      - apply Qle_bool_iff in Hge. congruence. }
    rewrite insert_by_perm. by constructor.
Qed.

Lemma demo_argsort_sorted a :
  StronglySorted
    (λ i j, ∀ x y, a !! i = Some x → a !! j = Some y → (sort_key x <= sort_key y)%Q)
    (demo_argsort a).
Proof.
  assert (StronglySorted (λ i j, (key_at a i <= key_at a j)%Q) (demo_argsort a)) as Hs.
  { unfold demo_argsort. induction (seq 0 (length a)) as [|i l IH]; [constructor|].
    cbn. by apply insert_by_sorted. }
  induction Hs as [|i l Hl IH Hi]; constructor; [done|].
  eapply Forall_impl; [exact Hi|]. intros j Hj x y Hx Hy.
  cbn beta in Hj. unfold key_at in Hj. by rewrite Hx, Hy in Hj.
Qed.

Lemma demo_integers_spec lo hi k g :
  lo < hi →
  length (demo_integers lo hi k g).1 = k ∧
  Forall (λ x, lo ≤ x < hi) (demo_integers lo hi k g).1.
Proof.
  intros Hlt. cbn. split; [by rewrite length_fmap, length_seq|].
  apply Forall_fmap, Forall_forall. intros i _. cbn.
  pose proof (Z.mod_pos_bound (g + Z.of_nat i) (hi - lo) ltac:(lia)). lia.
Qed.

Lemma demo_choice_spec n k g :
  (0 < n)%nat →
  length (demo_choice n k g).1 = k ∧ Forall (λ i, (i < n)%nat) (demo_choice n k g).1.
Proof.
  intros Hn. cbn. split; [by rewrite length_fmap, length_seq|].
  apply Forall_fmap, Forall_forall. intros i _. cbn.
  pose proof (Z.mod_pos_bound (g + Z.of_nat i) (Z.of_nat n) ltac:(lia)). lia.
Qed.

Lemma demo_choice_norepl_spec n k g :
  (k ≤ n)%nat →
  length (demo_choice_norepl n k g).1 = k ∧
  NoDup (demo_choice_norepl n k g).1 ∧
  Forall (λ i, (i < n)%nat) (demo_choice_norepl n k g).1.
Proof.
  intros Hk. cbn. split; [by rewrite length_reverse, length_seq|].
  rewrite reverse_Permutation. split; [apply NoDup_seq|].
  apply Forall_seq. intros j Hj. lia.
Qed.

Lemma demo_random_spec k g :
  length (demo_random k g).1 = k ∧
  Forall (λ x, (0 <= x)%Q ∧ (x < 1)%Q) (demo_random k g).1.
Proof.
  cbn. split; [by rewrite length_fmap, length_seq|].
  apply Forall_fmap, Forall_forall. intros i _. cbn.
  pose proof (Z.mod_pos_bound (g + Z.of_nat i) 100 ltac:(lia)) as Hm.
  set (m := (g + Z.of_nat i) `mod` 100) in *.
  unfold Qle, Qlt, Qdiv, Qmult, Qinv, inject_Z. cbn. lia.
Qed.

End DemoFacts.

Definition demo_sorter : Sorter := {|
  argsort := demo_argsort;
  argsort_perm := demo_argsort_perm;
  argsort_sorted := λ a _, demo_argsort_sorted a;
|}.

Definition demo_rng : Rng := {|
  BitGenerator := Z;
  default_rng := λ seed, seed;
  rng_integers := demo_integers;
  rng_integer := λ lo hi g, (lo + g `mod` (hi - lo), g + 1);
  rng_choice := demo_choice;
  rng_choice_p := λ p, demo_choice (length p);
  rng_choice_norepl := demo_choice_norepl;
  rng_random := demo_random;
  rng_integers_spec := demo_integers_spec;
  rng_integer_spec := λ lo hi g Hlt,
    let Hm := Z.mod_pos_bound g (hi - lo) ltac:(lia) in ltac:(cbn; lia);
  rng_choice_spec := demo_choice_spec;
  rng_choice_p_spec := λ p k g Hp,
    demo_choice_spec (length p) k g ltac:(destruct p; [done|cbn; lia]);
  rng_choice_norepl_spec := demo_choice_norepl_spec;
  rng_random_spec := demo_random_spec;
|}.

(** ** Examples of the further properties *)

Section MoreExamples.
#[local] Existing Instance demo_lib.
#[local] Existing Instance demo_rng.
#[local] Existing Instance demo_sorter.

Lemma feature_frame_layout_witness :
  heap demo_raw !! 0%nat = Some (frame_of_events demo_batch) ∧
  ∃ F, returns_features demo_raw 0%nat F ∧ nrows F = 9%nat ∧
    (columns F).*1 = (log_cols ++ derived_cols)%list.
Proof.
  split; [reflexivity|].
  destruct (feature_frame_layout demo_raw 0%nat demo_batch eq_refl)
    as (F & HF & Hn & Hc & _).
  exists F. split; [exact HF|]. split; [exact Hn|exact Hc].
Defined.


Lemma pair_counts_bounds_witness :
  heap demo_raw !! 0%nat = Some (frame_of_events demo_batch) ∧
  ∃ F, returns_features demo_raw 0%nat F ∧
    ∃ uc, pd.cell F "uc_count" 1 = Some (VInt uc) ∧ 1 ≤ uc ≤ 9.
Proof.
  split; [reflexivity|].
  destruct (pair_counts_bounds demo_raw 0%nat demo_batch eq_refl) as (F & HF & Hrows).
  exists F. split; [exact HF|].
  destruct (Hrows 1%nat _ eq_refl) as (uc & ud & Huc & _ & Hb & _).
  exists uc. split; [exact Huc|exact Hb].
Defined.

Lemma cursor_nonnegative_on_sorted_witness :
  heap (demo_state [frame_of_events early_first]) !! 0%nat
  = Some (frame_of_events early_first) ∧
  (∀ i j e e', (i ≤ j)%nat → early_first !! i = Some e → early_first !! j = Some e' →
               ts e ≤ ts e') ∧
  ∃ F, returns_features (demo_state [frame_of_events early_first]) 0%nat F ∧
    ∃ d, pd.cell F "secs_since_last_success" 1 = Some (VFloat (inject_Z d)) ∧ 0 ≤ d.
Proof.
  split; [reflexivity|].
  assert (∀ i j e e', (i ≤ j)%nat → early_first !! i = Some e →
            early_first !! j = Some e' → ts e ≤ ts e') as Hsorted.
  { intros i j e e' Hij Hi Hj.
    destruct i as [|[|i]], j as [|[|j]]; cbn in Hi, Hj; simplify_eq; cbn; lia. }
  split; [exact Hsorted|].
  destruct (cursor_nonnegative_on_sorted (demo_state [frame_of_events early_first]) 0%nat
              early_first eq_refl Hsorted) as (F & HF & Hrows).
  exists F. split; [exact HF|]. apply (Hrows 1%nat). cbn. lia.
Defined.

Lemma add_features_needs_log_columns_witness :
  heap (demo_state [mkDataFrame 0 []]) !! 0%nat = Some (mkDataFrame 0 []) ∧
  "ts" ∈ log_cols ∧
  pd.lookup_col "ts" (columns (mkDataFrame 0 [])) = None ∧
  ∃ σ', add_features 0%nat (demo_state [mkDataFrame 0 []]) = (Raise KeyError, σ').
Proof.
  split; [reflexivity|]. split; [apply list_elem_of_here|]. split; [reflexivity|].
  destruct (add_features_needs_log_columns (demo_state [mkDataFrame 0 []]) 0%nat
              (mkDataFrame 0 []) "ts" eq_refl (list_elem_of_here _ _) eq_refl)
    as (e & σ' & Hrun & He).
  exists σ'. rewrite Hrun. by rewrite (He eq_refl).
Defined.

Lemma add_features_twice_fails_witness :
  heap demo_raw !! 0%nat = Some (frame_of_events demo_batch) ∧
  ∃ out cols σ1 σ2,
    add_features 0%nat demo_raw = (Ok (out, cols), σ1) ∧
    add_features out σ1 = (Raise ValueError, σ2).
Proof.
  split; [reflexivity|].
  exact (add_features_twice_fails demo_raw 0%nat demo_batch eq_refl).
Defined.




Lemma feature_list_checked_witness :
  heap demo_feat !! 0%nat = Some (featured demo_batch) ∧
  "gone" ∈ ["attempts"; "gone"] ∧
  pd.lookup_col "gone" (columns (featured demo_batch)) = None ∧
  detect_anomalies 0%nat ["attempts"; "gone"] (1 # 5) 7 demo_feat
  = (Raise KeyError, demo_feat).
Proof.
  split; [reflexivity|].
  assert ("gone" ∈ ["attempts"; "gone"]) as Hin
    by apply list_elem_of_further, list_elem_of_here.
  split; [exact Hin|]. split; [reflexivity|].
  exact (proj1 (feature_list_checked demo_feat 0%nat (featured demo_batch) (1 # 5) 7
                  eq_refl) ["attempts"; "gone"] "gone" Hin eq_refl).
Defined.


Lemma detect_anomalies_adds_four_witness :
  heap demo_feat !! 0%nat = Some (featured demo_batch) ∧
  ∃ G, returns_flags demo_feat 0%nat feat_cols (1 # 5) 7 G ∧
    nrows G = 9%nat ∧
    pd.getitem G "attempts" = pd.getitem (featured demo_batch) "attempts".
Proof.
  split; [reflexivity|].
  destruct (demo_flags (1 # 5) 7 eq_refl ltac:(unfold Qle; cbn; lia)) as [G HG].
  exists G. split; [exact HG|].
  destruct (detect_anomalies_adds_four demo_feat 0%nat (featured demo_batch) feat_cols
              (1 # 5) 7 G eq_refl HG) as (Hn & Hother & _).
  split; [exact Hn|]. apply Hother.
  refine (bool_decide_unpack _ _). by vm_compute.
Defined.

Lemma detect_anomalies_again_witness :
  heap demo_feat !! 0%nat = Some (featured demo_batch) ∧
  Forall (λ col, col ∉ flag_cols) feat_cols ∧
  ∃ out σ1, detect_anomalies 0%nat feat_cols (1 # 5) 7 demo_feat = (Ok out, σ1) ∧
    ∃ G out2 σ2,
      heap σ1 !! out = Some G ∧
      detect_anomalies out feat_cols (1 # 5) 7 σ1 = (Ok out2, σ2) ∧
      heap σ2 !! out2 = Some G ∧ out2 ≠ out.
Proof.
  split; [reflexivity|].
  assert (Forall (λ col, col ∉ flag_cols) feat_cols) as Hcols
    by (refine (bool_decide_unpack _ _); by vm_compute).
  split; [exact Hcols|].
  destruct (demo_flags (1 # 5) 7 eq_refl ltac:(unfold Qle; cbn; lia))
    as (G & out & σ1 & Hrun & HG).
  exists out, σ1. split; [exact Hrun|].
  exact (detect_anomalies_again demo_feat 0%nat (featured demo_batch) feat_cols (1 # 5) 7
           out σ1 eq_refl Hcols Hrun).
Defined.


Lemma toy_log_needs_80_rows_witness :
  (0 < 0 ∨ 79 < 80) ∧
  ∃ σ', make_toy_login_log 79 0 (demo_state []) = (Raise ValueError, σ').
Proof.
  assert (0 < 0 ∨ 79 < 80) as Hn by (right; lia).
  split; [exact Hn|]. exact (toy_log_needs_80_rows (demo_state []) 79 0 Hn).
Defined.

Lemma toy_log_sorted_witness :
  0 ≤ 1 ∧ 80 ≤ 100 ∧
  ∃ out σ' evs,
    make_toy_login_log 100 1 (demo_state []) = (Ok out, σ') ∧
    heap σ' !! out = Some (frame_of_events evs) ∧
    length evs = 100%nat ∧
    (∀ i j e e', (i ≤ j)%nat → evs !! i = Some e → evs !! j = Some e' → ts e ≤ ts e').
Proof.
  split; [lia|]. split; [lia|].
  destruct (toy_log_sorted (demo_state []) 100 1 ltac:(lia) ltac:(lia))
    as (out & σ' & evs & Hrun & Hout & _ & Hlen & Hs & _).
  exists out, σ', evs. split; [exact Hrun|]. split; [exact Hout|].
  split; [exact Hlen|exact Hs].
Defined.

Lemma report_rows_witness :
  heap (demo_state [demo_flagged]) !! 0%nat = Some demo_flagged ∧
  Forall (λ c, ∃ s, pd.getitem demo_flagged c = Ok s ∧ length s = nrows demo_flagged)
    review_cols ∧
  pd.getitem demo_flagged "anomaly_score" = Ok (VFloat <$> [2 # 5; 1 # 2; 3 # 5]) ∧
  ∃ out σ' R pos,
    report 0%nat (demo_state [demo_flagged]) = (Ok out, σ') ∧ heap σ' !! out = Some R ∧
    (columns R).*1 = review_cols ∧ nrows R = length pos ∧
    ∀ p, p ∈ pos → is_flagged demo_flagged p.
Proof.
  split; [reflexivity|].
  assert (Forall (λ c, ∃ s, pd.getitem demo_flagged c = Ok s ∧
                            length s = nrows demo_flagged) review_cols) as Hcols.
  { unfold review_cols.
    repeat (apply Forall_cons_2; [eexists; split; reflexivity|]). apply Forall_nil_2. }
  split; [exact Hcols|]. split; [reflexivity|].
  destruct (report_rows (demo_state [demo_flagged]) 0%nat demo_flagged
              [2 # 5; 1 # 2; 3 # 5]%Q eq_refl Hcols eq_refl)
    as (out & σ' & R & pos & Hrun & HR & Hnames & Hn & _ & _ & Hpos & _).
  exists out, σ', R, pos. split; [exact Hrun|]. split; [exact HR|].
  split; [exact Hnames|]. split; [exact Hn|].
  intros p Hp. apply list_elem_of_lookup in Hp as [k Hk]. exact (proj1 (Hpos k p Hk)).
Defined.

Lemma toy_log_cursor_range_witness :
  0 ≤ 1 ∧ 80 ≤ 100 ∧
  ∃ raw σ1 out σ2 F,
    make_toy_login_log 100 1 (demo_state []) = (Ok raw, σ1) ∧
    add_features raw σ1 = (Ok (out, feat_cols), σ2) ∧ heap σ2 !! out = Some F ∧
    nrows F = 100%nat.
Proof.
  split; [lia|]. split; [lia|].
  destruct (toy_log_cursor_range (demo_state []) 100 1 ltac:(lia) ltac:(lia))
    as (raw & σ1 & out & σ2 & F & H1 & H2 & H3 & H4 & _).
  exists raw, σ1, out, σ2, F.
  split; [exact H1|]. split; [exact H2|]. split; [exact H3|exact H4].
Defined.

Lemma login_accepts_scalars_witness :
  login.json demo_request
  = login.Object [ ("user", login.JInt 7); ("device", login.JInt 3) ] ∧
  login.dict_get "user" [ ("user", login.JInt 7); ("device", login.JInt 3) ]
  = Some (login.JInt 7) ∧
  login.dict_get "device" [ ("user", login.JInt 7); ("device", login.JInt 3) ]
  = Some (login.JInt 3) ∧
  login.scalar (login.JInt 7) ∧ login.scalar (login.JInt 3) ∧
  ∃ row, login.login demo_request demo_now None
         = (Ok (login.Logged row), login.append None (login.write_row row)) ∧
         login.row_user row = "7" ∧ login.row_device row = "3".
Proof.
  split; [reflexivity|]. split; [reflexivity|]. split; [reflexivity|].
  split; [exact I|]. split; [exact I|].
  exact (login_accepts_scalars demo_request demo_now None _ _ _
           eq_refl eq_refl eq_refl I I).
Defined.

End MoreExamples.
